(** * Position session calculator (src/lib/position_calculator.ts)

    A shallow embedding of the two session calculators and of the dispatcher,
    followed by the properties of the specification that concern them.

    Conventions of the embedding.
    - A JavaScript [number] holding a quantity, a price, a cost or a
      commission is an exact rational ([Q]); every division of the source is
      guarded by a positivity test, so no infinity or NaN arises. The source
      computes on doubles, which round; [wholeQuantities] describes inputs
      on which its sums and the tests on them are exact.
    - A timestamp is the instant it denotes, in milliseconds ([Z]), that is
      the value of [new Date(ts).getTime()]. At one place (the timestamp of
      an aggregated order) the source compares timestamps as strings, which
      is the order of the instants on timestamps of one fixed ISO format; the
      properties about an order's timestamp hold whichever execution that
      comparison selects.
    - A string is an ASCII text ([string]).
    - A [Map] is iterated in insertion order, so it is an association list.
    - [Array.prototype.sort] is stable: it is a stable insertion sort driven
      by the comparator of the source.
    - The closures [closeSession] and [resetSession] and the variables they
      capture become functions on explicit state records. *)

From Stdlib Require Import List String Ascii Bool Arith ZArith QArith Qabs Qminmax.
From Stdlib Require Import Lia Lqa Permutation Sorted DecimalString.
From Stdlib Require DecimalNat.
Import ListNotations.
Open Scope string_scope.
Open Scope list_scope.
Open Scope Q_scope.

(** ** Numbers *)

Definition Qltb (a b : Q) : bool := negb (Qle_bool b a).
Definition Qgtb (a b : Q) : bool := Qltb b a.
Definition Qeqb (a b : Q) : bool := Qeq_bool a b.
Definition Qneb (a b : Q) : bool := negb (Qeq_bool a b).

(** [`${n}`] for a counter [n]. *)
Definition natToString (n : nat) : string := NilZero.string_of_uint (Nat.to_uint n).

(** ** Strings *)

(** [s.includes(sub)] *)
Fixpoint includes (s sub : string) : bool :=
  String.prefix sub s ||
  match s with
  | EmptyString => false
  | String _ s' => includes s' sub
  end.

Definition isUpperAscii (c : ascii) : bool :=
  let n := nat_of_ascii c in (65 <=? n)%nat && (n <=? 90)%nat.
Definition isLowerAscii (c : ascii) : bool :=
  let n := nat_of_ascii c in (97 <=? n)%nat && (n <=? 122)%nat.
Definition isDigit (c : ascii) : bool :=
  let n := nat_of_ascii c in (48 <=? n)%nat && (n <=? 57)%nat.

Definition lowerAscii (c : ascii) : ascii :=
  if isUpperAscii c then ascii_of_nat (nat_of_ascii c + 32) else c.
Definition upperAscii (c : ascii) : ascii :=
  if isLowerAscii c then ascii_of_nat (nat_of_ascii c - 32) else c.

Fixpoint mapString (f : ascii -> ascii) (s : string) : string :=
  match s with
  | EmptyString => EmptyString
  | String c s' => String (f c) (mapString f s')
  end.

Definition toLowerCase : string -> string := mapString lowerAscii.
Definition toUpperCase : string -> string := mapString upperAscii.

Fixpoint takeWhile (p : ascii -> bool) (s : string) : string :=
  match s with
  | EmptyString => EmptyString
  | String c s' => if p c then String c (takeWhile p s') else EmptyString
  end.

Fixpoint dropWhile (p : ascii -> bool) (s : string) : string :=
  match s with
  | EmptyString => EmptyString
  | String c s' => if p c then dropWhile p s' else s
  end.

(** [kw] matched at the head of [s] without regard to case (the [i] flag);
    the rest of [s] when it matches. [kw] is given in lower case. *)
Fixpoint stripPrefixCI (kw s : string) : option string :=
  match kw, s with
  | EmptyString, _ => Some s
  | String _ _, EmptyString => None
  | String k kw', String c s' =>
      if Ascii.eqb k (lowerAscii c) then stripPrefixCI kw' s' else None
  end.

(** The classes [\w], [\s] and [:\s] of the regular expressions. *)
Definition isWordChar (c : ascii) : bool :=
  isUpperAscii c || isLowerAscii c || isDigit c || Ascii.eqb c "_".
Definition isSpaceChar (c : ascii) : bool :=
  let n := nat_of_ascii c in
  ((9 <=? n)%nat && (n <=? 13)%nat) || (n =? 32)%nat || (n =? 160)%nat.
Definition isColonOrSpace (c : ascii) : bool := Ascii.eqb c ":" || isSpaceChar c.
Definition isDigitOrDot (c : ascii) : bool := isDigit c || Ascii.eqb c ".".

(** The first position of [s] at which [m] matches (the leftmost match of an
    unanchored regular expression). *)
Fixpoint firstMatch {A : Type} (m : string -> option A) (s : string) : option A :=
  match m s with
  | Some r => Some r
  | None =>
      match s with
      | EmptyString => None
      | String _ s' => firstMatch m s'
      end
  end.

(** [/(?:positionSide|posSide)[:\s]*(\w+)/i] at the head of [s]: group 1. *)
Definition matchPositionSideAt (s : string) : option string :=
  let afterKeyword rest :=
    let w := takeWhile isWordChar (dropWhile isColonOrSpace rest) in
    match w with EmptyString => None | _ => Some w end in
  match stripPrefixCI "positionside" s with
  | Some rest => afterKeyword rest
  | None =>
      match stripPrefixCI "posside" s with
      | Some rest => afterKeyword rest
      | None => None
      end
  end.

Definition parsePositionSideFromText (text : string) : string :=
  match text with
  | EmptyString => "BOTH"
  | _ =>
      match firstMatch matchPositionSideAt text with
      | Some m1 =>
          let side := toUpperCase m1 in
          if String.eqb side "LONG" || String.eqb side "SHORT" then side else "BOTH"
      | None => "BOTH"
      end
  end.

(** [/realizedPnl[:\s]*(-?[\d.]+)/i] at the head of [s]: group 1, as the
    sign and the run of digits and dots. *)
Definition matchRealizedPnlAt (s : string) : option (bool * string) :=
  match stripPrefixCI "realizedpnl" s with
  | None => None
  | Some rest =>
      let r := dropWhile isColonOrSpace rest in
      let (neg, body) :=
        match r with
        | String "-" r' => (true, takeWhile isDigitOrDot r')
        | _ => (false, takeWhile isDigitOrDot r)
        end in
      match body with EmptyString => None | _ => Some (neg, body) end
  end.

Fixpoint digitsValue (acc : N) (s : string) : N :=
  match s with
  | EmptyString => acc
  | String c s' => digitsValue (acc * 10 + N.of_nat (nat_of_ascii c - 48)) s'
  end.

Fixpoint pow10 (n : nat) : positive :=
  match n with
  | O => 1%positive
  | S n' => (10 * pow10 n')%positive
  end.

(** [parseFloat(m) || 0] on a sign and a run of digits and dots: the longest
    decimal literal at its head, and 0 when there is none (NaN). *)
Definition parseFloatOrZero (neg : bool) (body : string) : Q :=
  let ip := takeWhile isDigit body in
  let fp := match dropWhile isDigit body with
            | String "." r => takeWhile isDigit r
            | _ => EmptyString
            end in
  let mag := inject_Z (Z.of_N (digitsValue 0 ip))
             + Qmake (Z.of_N (digitsValue 0 fp)) (pow10 (String.length fp)) in
  match ip, fp with
  | EmptyString, EmptyString => 0
  | _, _ => if neg then - mag else mag
  end.

Definition parseRealizedPnlFromText (text : string) : Q :=
  match text with
  | EmptyString => 0
  | _ =>
      match firstMatch matchRealizedPnlAt text with
      | Some (neg, body) => parseFloatOrZero neg body
      | None => 0
      end
  end.

(** [key.split(':')] *)
Fixpoint splitColon (cur : string) (s : string) : list string :=
  match s with
  | EmptyString => [cur]
  | String c s' =>
      if Ascii.eqb c ":" then cur :: splitColon EmptyString s'
      else splitColon (String.append cur (String c EmptyString)) s'
  end.

(** ** Arrays and maps *)

(** [l.sort(cmp)]: stable, ascending for [cmp]. *)
Fixpoint insertBy {A : Type} (cmp : A -> A -> Z) (x : A) (l : list A) : list A :=
  match l with
  | [] => [x]
  | y :: l' => if (cmp x y <=? 0)%Z then x :: l else y :: insertBy cmp x l'
  end.

Definition sortBy {A : Type} (cmp : A -> A -> Z) (l : list A) : list A :=
  fold_right (insertBy cmp) [] l.

(** [if (!m.has(k)) m.set(k, []); m.get(k).push(v)] on a map of arrays. *)
Fixpoint mapPush {V : Type} (k : string) (v : V) (m : list (string * list V))
  : list (string * list V) :=
  match m with
  | [] => [(k, [v])]
  | (k', vs) :: m' =>
      if String.eqb k' k then (k', vs ++ [v]) :: m' else (k', vs) :: mapPush k v m'
  end.

Definition groupBy {A V : Type} (key : A -> string) (val : A -> V) (l : list A)
  : list (string * list V) :=
  fold_left (fun m e => mapPush (key e) (val e) m) l [].

(** ** Data model

    [Execution], [Trade] and [PositionSession] are declared in [./types],
    which the calculator imports; the fields are those the calculator reads
    and writes. *)

Module Execution.
Record t : Type := mk {
  execID : string;
  orderID : string;
  symbol : string;
  side : string;          (* 'Buy' | 'Sell'; tested for truthiness by the filters *)
  lastQty : Q;
  lastPx : Q;
  execType : string;
  execCost : Q;
  execComm : Q;
  timestamp : Z;
  text : string
}.
End Execution.

Module Trade.
Record t : Type := mk {
  id : string;
  datetime : Z;
  symbol : string;
  displaySymbol : string;
  side : string;
  price : Q;
  amount : Q;
  cost : Q;
  feeCost : Q;
  feeCurrency : string;
  orderID : string;
  execType : string
}.
End Trade.

Inductive SessionSide : Type := long | short.
Inductive SessionStatus : Type := closed | open.

Module PositionSession.
Record t : Type := mk {
  id : string;
  symbol : string;
  displaySymbol : string;
  side : SessionSide;
  openTime : Z;
  closeTime : option Z;
  durationMs : Z;
  maxSize : Q;
  totalBought : Q;
  totalSold : Q;
  avgEntryPrice : Q;
  avgExitPrice : Q;
  realizedPnl : Q;
  totalFees : Q;
  netPnl : Q;
  tradeCount : nat;
  trades : list Trade.t;
  status : SessionStatus
}.
End PositionSession.

(** The two variables both calculators share across partitions. *)
Record Output : Type := mkOutput {
  allSessions : list PositionSession.t;
  globalSessionId : nat
}.

(** [e.execType === 'Trade' && e.side && e.lastQty > 0] *)
Definition isTradeExecution (e : Execution.t) : bool :=
  String.eqb (Execution.execType e) "Trade"
  && negb (String.eqb (Execution.side e) "")
  && Qgtb (Execution.lastQty e) 0.

(** [a.closeTime || a.openTime] *)
Definition sessionTime (s : PositionSession.t) : Z :=
  match PositionSession.closeTime s with
  | Some t => t
  | None => PositionSession.openTime s
  end.

(** The comparator of the final sort: [timeB - timeA]. *)
Definition newestFirst (a b : PositionSession.t) : Z :=
  (sessionTime b - sessionTime a)%Z.

(** ** The inverse-contract calculator *)

Module BitMEX.

Record ExecutionForCalc : Type := mkExec {
  execID : string;
  orderID : string;
  symbol : string;
  side : string;
  lastQty : Q;
  lastPx : Q;
  execCost : Q;
  execComm : Q;
  timestamp : Z;
  text : string
}.

Definition ofExecution (e : Execution.t) : ExecutionForCalc :=
  {| execID := Execution.execID e;
     orderID := Execution.orderID e;
     symbol := Execution.symbol e;
     side := Execution.side e;
     lastQty := Execution.lastQty e;
     lastPx := Execution.lastPx e;
     execCost := Execution.execCost e;
     execComm := Execution.execComm e;
     timestamp := Execution.timestamp e;
     text := Execution.text e |}.

(** The variables of one session, those [resetSession] clears. *)
Record Session : Type := mkSession {
  sessionExecutions : list ExecutionForCalc;
  sessionStartTime : option Z;
  totalBought : Q;
  totalSold : Q;
  totalBuyCost : Q;
  totalSellCost : Q;
  totalCommission : Q;
  maxPosition : Q
}.

Record State : Type := mkState {
  runningPosition : Q;
  session : Session;
  output : Output
}.

Definition resetSession : Session := mkSession [] None 0 0 0 0 0 0.

Definition byTimestamp (a b : ExecutionForCalc) : Z := (timestamp a - timestamp b)%Z.

Definition isBuy (e : ExecutionForCalc) : bool := String.eqb (side e) "Buy".

Section Calculator.

Variable formatSymbol : string -> string.

Definition toTrade (e : ExecutionForCalc) : Trade.t :=
  {| Trade.id := execID e;
     Trade.datetime := timestamp e;
     Trade.symbol := symbol e;
     Trade.displaySymbol := formatSymbol (symbol e);
     Trade.side := toLowerCase (side e);
     Trade.price := lastPx e;
     Trade.amount := lastQty e;
     Trade.cost := Qabs (execCost e);
     Trade.feeCost := execComm e;
     Trade.feeCurrency := "XBT";
     Trade.orderID := orderID e;
     Trade.execType := "Trade" |}.

(** The record [closeSession] pushes, once it has passed its guard. *)
Definition buildSession (sym : string) (gid : nat) (s : Session) (start : Z)
    (endTime : Z) (endPosition : Q) : PositionSession.t :=
  let sd := if Qgtb (totalBought s) (totalSold s) then long else short in
  let buyAvg := if Qgtb (totalBought s) 0 then totalBuyCost s / totalBought s else 0 in
  let sellAvg := if Qgtb (totalSold s) 0 then totalSellCost s / totalSold s else 0 in
  let avgEntry := match sd with long => buyAvg | short => sellAvg end in
  let avgExit := match sd with long => sellAvg | short => buyAvg end in
  let closedQty := Qmin (totalBought s) (totalSold s) in
  let pnl :=
    if Qgtb closedQty 0 && Qgtb avgEntry 0 && Qgtb avgExit 0 then
      match sd with
      | long => closedQty * (1 / avgEntry - 1 / avgExit)
      | short => closedQty * (1 / avgExit - 1 / avgEntry)
      end
    else 0 in
  let fees := Qabs (totalCommission s) / 100000000 in
  let flat := Qeqb endPosition 0 in
  {| PositionSession.id := String.append sym (String.append "-" (natToString gid));
     PositionSession.symbol := sym;
     PositionSession.displaySymbol := formatSymbol sym;
     PositionSession.side := sd;
     PositionSession.openTime := start;
     PositionSession.closeTime := if flat then Some endTime else None;
     PositionSession.durationMs := (endTime - start)%Z;
     PositionSession.maxSize := maxPosition s;
     PositionSession.totalBought := totalBought s;
     PositionSession.totalSold := totalSold s;
     PositionSession.avgEntryPrice := avgEntry;
     PositionSession.avgExitPrice := if flat then avgExit else 0;
     PositionSession.realizedPnl := if flat then pnl else 0;
     PositionSession.totalFees := fees;
     PositionSession.netPnl := if flat then pnl - fees else - fees;
     PositionSession.tradeCount := List.length (sessionExecutions s);
     PositionSession.trades := map toTrade (sessionExecutions s);
     PositionSession.status := if flat then closed else open |}.

Definition closeSession (sym : string) (s : Session) (endTime : Z) (endPosition : Q)
    (out : Output) : Output :=
  match sessionExecutions s, sessionStartTime s with
  | [], _ => out
  | _ :: _, None => out
  | _ :: _, Some start =>
      {| allSessions := allSessions out
                        ++ [buildSession sym (globalSessionId out) s start endTime endPosition];
         globalSessionId := S (globalSessionId out) |}
  end.

(** The body of the loop over one symbol's executions. *)
Definition processExecution (sym : string) (st : State) (exec : ExecutionForCalc) : State :=
  let positionBefore := runningPosition st in
  let qty := lastQty exec in
  let price := lastPx exec in
  let s0 := session st in
  (* update running position *)
  let pos := if isBuy exec then positionBefore + qty else positionBefore - qty in
  let s1 :=
    {| sessionExecutions := sessionExecutions s0 ++ [exec];
       sessionStartTime := sessionStartTime s0;
       totalBought := if isBuy exec then totalBought s0 + qty else totalBought s0;
       totalSold := if isBuy exec then totalSold s0 else totalSold s0 + qty;
       totalBuyCost := if isBuy exec then totalBuyCost s0 + qty * price else totalBuyCost s0;
       totalSellCost := if isBuy exec then totalSellCost s0 else totalSellCost s0 + qty * price;
       totalCommission := totalCommission s0 + execComm exec;
       maxPosition := Qmax (maxPosition s0) (Qabs pos) |} in
  (* session start *)
  let s2 :=
    if Qeqb positionBefore 0 && Qneb pos 0 then
      {| sessionExecutions := sessionExecutions s1;
         sessionStartTime := Some (timestamp exec);
         totalBought := totalBought s1; totalSold := totalSold s1;
         totalBuyCost := totalBuyCost s1; totalSellCost := totalSellCost s1;
         totalCommission := totalCommission s1; maxPosition := maxPosition s1 |}
    else s1 in
  (* session end: position back to 0 *)
  let '(s3, out3) :=
    if Qneb positionBefore 0 && Qeqb pos 0 then
      (resetSession, closeSession sym s2 (timestamp exec) 0 (output st))
    else (s2, output st) in
  (* position flip *)
  let '(s4, out4) :=
    if (Qgtb positionBefore 0 && Qltb pos 0) || (Qltb positionBefore 0 && Qgtb pos 0) then
      let overflowQty := Qabs pos in
      let adjusted :=
        {| sessionExecutions := sessionExecutions s3;
           sessionStartTime := sessionStartTime s3;
           totalBought := if isBuy exec then totalBought s3 - overflowQty else totalBought s3;
           totalSold := if isBuy exec then totalSold s3 else totalSold s3 - overflowQty;
           totalBuyCost := if isBuy exec then totalBuyCost s3 - overflowQty * price
                           else totalBuyCost s3;
           totalSellCost := if isBuy exec then totalSellCost s3
                            else totalSellCost s3 - overflowQty * price;
           totalCommission := totalCommission s3;
           maxPosition := maxPosition s3 |} in
      let out' := closeSession sym adjusted (timestamp exec) 0 out3 in
      (* start the new session with the overflow *)
      ({| sessionExecutions := [exec];
          sessionStartTime := Some (timestamp exec);
          totalBought := if isBuy exec then overflowQty else 0;
          totalSold := if isBuy exec then 0 else overflowQty;
          totalBuyCost := if isBuy exec then overflowQty * price else 0;
          totalSellCost := if isBuy exec then 0 else overflowQty * price;
          totalCommission := execComm exec;
          maxPosition := overflowQty |}, out')
    else (s3, out3) in
  {| runningPosition := pos; session := s4; output := out4 |}.

(** One iteration of [executionsBySymbol.forEach]. *)
Definition processSymbol (out : Output) (entry : string * list ExecutionForCalc) : Output :=
  let '(sym, symbolExecutions) := entry in
  let sorted := sortBy byTimestamp symbolExecutions in
  let st := fold_left (processExecution sym) sorted
              {| runningPosition := 0; session := resetSession; output := out |} in
  (* any remaining open position *)
  if Qneb (runningPosition st) 0
     && negb (Nat.eqb (List.length (sessionExecutions (session st))) 0) then
    closeSession sym (session st)
      (timestamp (last (sessionExecutions (session st)) (mkExec "" "" "" "" 0 0 0 0 0 "")))
      (runningPosition st) (output st)
  else output st.

Definition tradeExecutions (executions : list Execution.t) : list Execution.t :=
  filter isTradeExecution executions.

Definition executionsBySymbol (executions : list Execution.t)
  : list (string * list ExecutionForCalc) :=
  groupBy Execution.symbol ofExecution (tradeExecutions executions).

Definition calculateBitMEXPositionSessions (executions : list Execution.t)
  : list PositionSession.t :=
  let out := fold_left processSymbol (executionsBySymbol executions)
               {| allSessions := []; globalSessionId := 0 |} in
  sortBy newestFirst (allSessions out).

End Calculator.

End BitMEX.

(** ** The hedge-mode calculator *)

Definition BINANCE_POSITION_TOLERANCE : Q := 1 # 100.
Definition BINANCE_SESSION_GAP_MS : Z := (2 * 60 * 60 * 1000)%Z.

Definition isBinancePositionClosed (position : Q) : bool :=
  Qltb (Qabs position) BINANCE_POSITION_TOLERANCE.

Module Binance.

Record BinanceAggregatedOrder : Type := mkOrder {
  orderID : string;
  symbol : string;
  side : string;
  positionSide : string;
  totalQty : Q;
  avgPrice : Q;
  totalCost : Q;
  totalComm : Q;
  realizedPnl : Q;
  timestamp : Z;
  executions : list Execution.t
}.

Record State : Type := mkState {
  runningPosition : Q;
  sessionOrders : list BinanceAggregatedOrder;
  sessionStartTime : option Z;
  lastOrderTime : Z;
  output : Output
}.

(** [`${e.symbol}:${positionSide}`] *)
Definition keyOf (e : Execution.t) : string :=
  String.append (Execution.symbol e)
    (String.append ":" (parsePositionSideFromText (Execution.text e))).

(** Step 1 for one execution: fetch or create the order, then add to it. *)
Definition newOrder (positionSide : string) (e : Execution.t) : BinanceAggregatedOrder :=
  {| orderID := Execution.orderID e;
     symbol := Execution.symbol e;
     side := Execution.side e;
     positionSide := positionSide;
     totalQty := 0; avgPrice := 0; totalCost := 0; totalComm := 0; realizedPnl := 0;
     timestamp := Execution.timestamp e;
     executions := [] |}.

(** The update of an order by one of its executions. The source keeps the
    smaller timestamp by [e.timestamp < order.timestamp], a comparison of
    strings; here it is the comparison of the instants. *)
Definition addExecution (order : BinanceAggregatedOrder) (e : Execution.t)
  : BinanceAggregatedOrder :=
  {| orderID := orderID order;
     symbol := symbol order;
     side := side order;
     positionSide := positionSide order;
     totalQty := totalQty order + Execution.lastQty e;
     avgPrice := avgPrice order;
     totalCost := totalCost order + Execution.lastQty e * Execution.lastPx e;
     totalComm := totalComm order + Execution.execComm e;
     realizedPnl := realizedPnl order + parseRealizedPnlFromText (Execution.text e);
     timestamp := if (Execution.timestamp e <? timestamp order)%Z
                  then Execution.timestamp e else timestamp order;
     executions := executions order ++ [e] |}.

Fixpoint aggregate (positionSide : string) (orderMap : list BinanceAggregatedOrder)
    (e : Execution.t) : list BinanceAggregatedOrder :=
  match orderMap with
  | [] => [addExecution (newOrder positionSide e) e]
  | order :: rest =>
      if String.eqb (orderID order) (Execution.orderID e)
      then addExecution order e :: rest
      else order :: aggregate positionSide rest e
  end.

Definition setAvgPrice (order : BinanceAggregatedOrder) : BinanceAggregatedOrder :=
  {| orderID := orderID order;
     symbol := symbol order;
     side := side order;
     positionSide := positionSide order;
     totalQty := totalQty order;
     avgPrice := if Qgtb (totalQty order) 0 then totalCost order / totalQty order else 0;
     totalCost := totalCost order;
     totalComm := totalComm order;
     realizedPnl := realizedPnl order;
     timestamp := timestamp order;
     executions := executions order |}.

Definition byTimestamp (a b : BinanceAggregatedOrder) : Z := (timestamp a - timestamp b)%Z.

(** Steps 1 and 2: the orders of one key, sorted by timestamp. *)
Definition sortedOrders (positionSide : string) (keyExecutions : list Execution.t)
  : list BinanceAggregatedOrder :=
  sortBy byTimestamp
    (map setAvgPrice (fold_left (aggregate positionSide) keyExecutions [])).

Definition byDatetime (a b : Trade.t) : Z := (Trade.datetime a - Trade.datetime b)%Z.

Section Calculator.

Variable formatSymbol : string -> string.

Definition toTrade (e : Execution.t) : Trade.t :=
  {| Trade.id := Execution.execID e;
     Trade.datetime := Execution.timestamp e;
     Trade.symbol := Execution.symbol e;
     Trade.displaySymbol := formatSymbol (Execution.symbol e);
     Trade.side := toLowerCase (Execution.side e);
     Trade.price := Execution.lastPx e;
     Trade.amount := Execution.lastQty e;
     Trade.cost := Qabs (Execution.execCost e);
     Trade.feeCost := Execution.execComm e;
     Trade.feeCurrency := "USDT";
     Trade.orderID := Execution.orderID e;
     Trade.execType := "Trade" |}.

Section Partition.

(** The variables of one iteration of [executionsByKey.forEach]. *)
Variable symbol_ : string.
Variable positionSide_ : string.

Definition isShortPosition : bool := String.eqb positionSide_ "SHORT".

Definition isSell (order : BinanceAggregatedOrder) : bool := String.eqb (side order) "Sell".
Definition isBuy (order : BinanceAggregatedOrder) : bool := String.eqb (side order) "Buy".

Definition getPositionDelta (order : BinanceAggregatedOrder) : Q :=
  if isShortPosition then
    (if isSell order then totalQty order else - totalQty order)
  else
    (if isBuy order then totalQty order else - totalQty order).

Definition isOpening (order : BinanceAggregatedOrder) : bool :=
  if isShortPosition then isSell order else isBuy order.

(** Sum of [f] over the orders the predicate selects (the accumulations of
    the first [forEach] of [closeSession]). *)
Definition sumOver (keep : BinanceAggregatedOrder -> bool) (f : BinanceAggregatedOrder -> Q)
    (orders : list BinanceAggregatedOrder) : Q :=
  fold_left (fun acc order => if keep order then acc + f order else acc) orders 0.

(** [maxPosition] of [closeSession]: the peak of the replayed position. *)
Definition replayMax (orders : list BinanceAggregatedOrder) : Q :=
  snd (fold_left (fun '(tempPos, maxPosition) order =>
                    let tempPos' := tempPos + getPositionDelta order in
                    (tempPos', Qmax maxPosition (Qabs tempPos')))
                 orders (0, 0)).

(** The record [closeSession] pushes, once it has passed its guard. *)
Definition buildSession (gid : nat) (orders : list BinanceAggregatedOrder) (start : Z)
    (endTime : Z) : PositionSession.t :=
  let totalEntry := sumOver isOpening totalQty orders in
  let totalExit := sumOver (fun o => negb (isOpening o)) totalQty orders in
  let totalEntryCost := sumOver isOpening totalCost orders in
  let totalExitCost := sumOver (fun o => negb (isOpening o)) totalCost orders in
  let totalComm_ := sumOver (fun _ => true) totalComm orders in
  let totalRealizedPnl := sumOver (fun _ => true) realizedPnl orders in
  let sd := if isShortPosition then short else long in
  let avgEntry := if Qgtb totalEntry 0 then totalEntryCost / totalEntry else 0 in
  let avgExit := if Qgtb totalExit 0 then totalExitCost / totalExit else 0 in
  let fees := Qabs totalComm_ / 100000000 in
  let trades := sortBy byDatetime (map toTrade (flat_map executions orders)) in
  let isClosed := isBinancePositionClosed (totalEntry - totalExit) in
  {| PositionSession.id :=
       String.append symbol_
         (String.append "-" (String.append positionSide_
            (String.append "-" (natToString gid))));
     PositionSession.symbol := symbol_;
     PositionSession.displaySymbol := formatSymbol symbol_;
     PositionSession.side := sd;
     PositionSession.openTime := start;
     PositionSession.closeTime := if isClosed then Some endTime else None;
     PositionSession.durationMs := (endTime - start)%Z;
     PositionSession.maxSize := replayMax orders;
     PositionSession.totalBought := if isShortPosition then totalExit else totalEntry;
     PositionSession.totalSold := if isShortPosition then totalEntry else totalExit;
     PositionSession.avgEntryPrice := avgEntry;
     PositionSession.avgExitPrice := if isClosed then avgExit else 0;
     PositionSession.realizedPnl := if isClosed then totalRealizedPnl else 0;
     PositionSession.totalFees := fees;
     PositionSession.netPnl := if isClosed then totalRealizedPnl - fees else - fees;
     PositionSession.tradeCount := List.length trades;
     PositionSession.trades := trades;
     PositionSession.status := if isClosed then closed else open |}.

Definition closeSession (orders : list BinanceAggregatedOrder) (start : option Z)
    (endTime : Z) (out : Output) : Output :=
  match orders, start with
  | [], _ => out
  | _ :: _, None => out
  | _ :: _, Some start =>
      {| allSessions := allSessions out
                        ++ [buildSession (globalSessionId out) orders start endTime];
         globalSessionId := S (globalSessionId out) |}
  end.

Definition lastTimestamp (orders : list BinanceAggregatedOrder) : Z :=
  timestamp (last orders (mkOrder "" "" "" "" 0 0 0 0 0 0 [])).

(** The condition of the time-gap check. *)
Definition gapCondition (st : State) (order : BinanceAggregatedOrder) : bool :=
  let orderTime := timestamp order in
  let timeSinceLastOrder :=
    if (lastOrderTime st >? 0)%Z then (orderTime - lastOrderTime st)%Z else 0%Z in
  (timeSinceLastOrder >? BINANCE_SESSION_GAP_MS)%Z
  && negb (Nat.eqb (List.length (sessionOrders st)) 0)
  && isBinancePositionClosed (runningPosition st).

(** Step 4: the body of the loop over the orders. *)
Definition processOrder (st : State) (order : BinanceAggregatedOrder) : State :=
  let orderTime := timestamp order in
  let positionBefore := runningPosition st in
  let wasPositionClosed := isBinancePositionClosed positionBefore in
  (* time gap check *)
  let st1 :=
    if gapCondition st order then
      {| runningPosition := 0;
         sessionOrders := [];
         sessionStartTime := None;
         lastOrderTime := lastOrderTime st;
         output := closeSession (sessionOrders st) (sessionStartTime st)
                     (lastTimestamp (sessionOrders st)) (output st) |}
    else st in
  let pos := runningPosition st1 + getPositionDelta order in
  let isNowClosed := isBinancePositionClosed pos in
  (* session start *)
  let start :=
    if wasPositionClosed && negb isNowClosed
       && Nat.eqb (List.length (sessionOrders st1)) 0
    then Some (timestamp order) else sessionStartTime st1 in
  let orders := sessionOrders st1 ++ [order] in
  (* session end: position returned to ~0 *)
  if negb wasPositionClosed && isNowClosed then
    {| runningPosition := 0;
       sessionOrders := [];
       sessionStartTime := None;
       lastOrderTime := orderTime;
       output := closeSession orders start (timestamp order) (output st1) |}
  else
    {| runningPosition := pos;
       sessionOrders := orders;
       sessionStartTime := start;
       lastOrderTime := orderTime;
       output := output st1 |}.

Definition initialState (out : Output) : State :=
  {| runningPosition := 0; sessionOrders := []; sessionStartTime := None;
     lastOrderTime := 0; output := out |}.

(** The loop, then the remaining open position. *)
Definition processOrders (out : Output) (orders : list BinanceAggregatedOrder) : Output :=
  let st := fold_left processOrder orders (initialState out) in
  if negb (Nat.eqb (List.length (sessionOrders st)) 0) then
    closeSession (sessionOrders st) (sessionStartTime st)
      (lastTimestamp (sessionOrders st)) (output st)
  else output st.

End Partition.

(** One iteration of [executionsByKey.forEach]. *)
Definition processKey (out : Output) (entry : string * list Execution.t) : Output :=
  let '(key, keyExecutions) := entry in
  let parts := splitColon "" key in
  let symbol_ := nth 0 parts "" in
  let positionSide_ := nth 1 parts "" in
  processOrders symbol_ positionSide_ out (sortedOrders positionSide_ keyExecutions).

Definition tradeExecutions (executions : list Execution.t) : list Execution.t :=
  filter isTradeExecution executions.

Definition executionsByKey (executions : list Execution.t)
  : list (string * list Execution.t) :=
  groupBy keyOf (fun e => e) (tradeExecutions executions).

Definition calculateBinancePositionSessions (executions : list Execution.t)
  : list PositionSession.t :=
  let out := fold_left processKey (executionsByKey executions)
               {| allSessions := []; globalSessionId := 0 |} in
  sortBy newestFirst (allSessions out).

End Calculator.

End Binance.

(** ** The dispatcher *)

Section Dispatcher.

(** [formatSymbol] and [isBinanceSymbol] come from [./types]. *)
Variable formatSymbol : string -> string.
Variable isBinanceSymbol : string -> bool.

Definition hintIs (exchangeId : option string) (name : string) : bool :=
  match exchangeId with
  | Some x => String.eqb x name
  | None => false
  end.

Definition calculatePositionSessionsFromExecutions (executions : list Execution.t)
    (exchangeId : option string) : list PositionSession.t :=
  match executions with
  | [] => []
  | first :: _ =>
      let firstSymbol := Execution.symbol first in
      let isBinance := hintIs exchangeId "binance" || isBinanceSymbol firstSymbol in
      let isOkx := hintIs exchangeId "okx" || includes firstSymbol "-SWAP"
                   || includes firstSymbol "-USDT-" in
      if isBinance || isOkx then
        Binance.calculateBinancePositionSessions formatSymbol executions
      else
        BitMEX.calculateBitMEXPositionSessions formatSymbol executions
  end.

End Dispatcher.

(** ** Inputs of the scenarios *)

Definition tradeExec (execID orderID symbol side : string) (qty price : Q) (t : Z)
    (text : string) : Execution.t :=
  Execution.mk execID orderID symbol side qty price "Trade" 0 0 t text.

(** Scenario A: [Buy 100 @ 50000 t=0], [Sell 100 @ 51000 t=10]. *)
Definition scenarioA : list Execution.t :=
  [ tradeExec "a1" "oa1" "XBTUSD" "Buy" 100 50000 0 "";
    tradeExec "a2" "oa2" "XBTUSD" "Sell" 100 51000 10 "" ].

(** Scenario B: [Buy 5 @ 100 t=0], [Sell 12 @ 110 t=5]. *)
Definition scenarioB : list Execution.t :=
  [ tradeExec "b1" "ob1" "XBTUSD" "Buy" 5 100 0 "";
    tradeExec "b2" "ob2" "XBTUSD" "Sell" 12 110 5 "" ].

(** Scenario C on symbol Y, at any prices, costs, commissions and execution
    identifiers. *)
Definition scenarioC (id1 id2 id3 : string) (p1 p2 p3 c1 c2 c3 m1 m2 m3 : Q)
  : list Execution.t :=
  [ Execution.mk id1 "order1" "Y" "Buy" 1 p1 "Trade" c1 m1 0 "positionSide:LONG";
    Execution.mk id2 "order2" "Y" "Sell" 1 p2 "Trade" c2 m2 1 "positionSide:SHORT";
    Execution.mk id3 "order3" "Y" "Buy" 1 p3 "Trade" c3 m3 2 "positionSide:SHORT" ].

(** A trade fill without an order identifier. *)
Definition noOrderId : Execution.t := tradeExec "x1" "" "XBTUSD" "Buy" 1 100 0 "".

(** A fill on a swap-shaped symbol. *)
Definition swapFill : Execution.t := tradeExec "s1" "os1" "BTC-USD-SWAP" "Buy" 1 100 0 "".

(** Scenario C at fixed prices. *)
Definition scenarioC0 : list Execution.t :=
  scenarioC "c1" "c2" "c3" 100 101 99 0 0 0 0 0 0.

(** Two LONG fills on Y: a residual of 0.005 inside the epsilon band, then a
    buy of 1 one millisecond later. *)
Definition bandFills : list Execution.t :=
  [ tradeExec "r1" "A" "Y" "Buy" (5 # 1000) 100 0 "positionSide:LONG";
    tradeExec "r2" "B" "Y" "Buy" 1 100 1 "positionSide:LONG" ].

(** The same two fills, three hours apart. *)
Definition gapFills : list Execution.t :=
  [ tradeExec "g1" "A" "Y" "Buy" (5 # 1000) 100 1 "positionSide:LONG";
    tradeExec "g2" "B" "Y" "Buy" 1 100 10800001 "positionSide:LONG" ].

(** The output before the first partition. *)
Definition emptyOutput : Output := {| allSessions := []; globalSessionId := 0 |}.

(** ** Notions the properties are stated with *)

(** The sort key as the specification words it: the close time of a closed
    session, the open time of an open one. *)
Definition closeOrOpenTime (s : PositionSession.t) : option Z :=
  match PositionSession.status s with
  | closed => PositionSession.closeTime s
  | open => Some (PositionSession.openTime s)
  end.

(** [l] is in descending order of [sessionTime], most recent first. *)
Definition newestFirstSorted (l : list PositionSession.t) : Prop :=
  StronglySorted (fun a b => (sessionTime b <= sessionTime a)%Z) l.

(** The states the hedge-mode loop reaches on one partition. *)
Definition reachedBy (formatSymbol : string -> string) (symbol_ positionSide_ : string)
    (out : Output) (orders : list Binance.BinanceAggregatedOrder) : Binance.State :=
  fold_left (Binance.processOrder formatSymbol symbol_ positionSide_) orders
    (Binance.initialState out).

(** A recorded session start goes with a position outside the epsilon band. *)
Definition startedOutsideBand (st : Binance.State) : Prop :=
  Binance.sessionStartTime st = None
  \/ isBinancePositionClosed (Binance.runningPosition st) = false.

(** The last order of a list. *)
Definition lastOrder (l : list Binance.BinanceAggregatedOrder) : Binance.BinanceAggregatedOrder :=
  last l (Binance.mkOrder "" "" "" "" 0 0 0 0 0 0 []).

(** The close at the end of a partition, from the state the loop reached. *)
Definition finishPartition (formatSymbol : string -> string) (symbol_ positionSide_ : string)
    (st : Binance.State) : Output :=
  if negb (Nat.eqb (List.length (Binance.sessionOrders st)) 0) then
    Binance.closeSession formatSymbol symbol_ positionSide_
      (Binance.sessionOrders st) (Binance.sessionStartTime st)
      (Binance.lastTimestamp (Binance.sessionOrders st)) (Binance.output st)
  else Binance.output st.

(** Entry quantity minus exit quantity of a list of orders, as
    [closeSession] computes them. *)
Definition netQty (positionSide_ : string) (orders : list Binance.BinanceAggregatedOrder) : Q :=
  Binance.sumOver (Binance.isOpening positionSide_) Binance.totalQty orders
  - Binance.sumOver (fun o => negb (Binance.isOpening positionSide_ o)) Binance.totalQty orders.

(** [const [symbol, positionSideStr] = key.split(':')] *)
Definition symbolOfKey (key : string) : string := nth 0 (splitColon "" key) "".
Definition positionSideOfKey (key : string) : string := nth 1 (splitColon "" key) "".

(** The execution identifiers in the trades of a list of sessions. *)
Definition tradeIds (sessions : list PositionSession.t) : list string :=
  flat_map (fun s => map Trade.id (PositionSession.trades s)) sessions.

(** How many sessions list the execution [x] among their trades. *)
Definition sessionsContaining (x : string) (sessions : list PositionSession.t) : nat :=
  List.length
    (filter (fun s => existsb (String.eqb x) (map Trade.id (PositionSession.trades s)))
       sessions).

(** Occurrences of an identifier in a list of identifiers. *)
Definition occ (x : string) (ids : list string) : nat := count_occ string_dec ids x.

(** The flip test of the inverse-contract loop. *)
Definition isFlip (positionBefore position : Q) : bool :=
  (Qgtb positionBefore 0 && Qltb position 0) || (Qltb positionBefore 0 && Qgtb position 0).

(** The executions of a sorted partition that reverse the sign of the running
    position, replayed from [position]. *)
Fixpoint flipTriggers (position : Q) (l : list BitMEX.ExecutionForCalc)
  : list BitMEX.ExecutionForCalc :=
  match l with
  | [] => []
  | exec :: rest =>
      let position' := if BitMEX.isBuy exec then position + BitMEX.lastQty exec
                       else position - BitMEX.lastQty exec in
      if isFlip position position' then exec :: flipTriggers position' rest
      else flipTriggers position' rest
  end.

(** The identifiers of the executions that trigger a flip, over all symbols. *)
Definition flipTriggerIds (executions : list Execution.t) : list string :=
  flat_map (fun entry => map BitMEX.execID
                           (flipTriggers 0 (sortBy BitMEX.byTimestamp (snd entry))))
    (BitMEX.executionsBySymbol executions).

(** [out'] is [out] with sessions appended. *)
Definition extends (out out' : Output) : Prop :=
  exists post, allSessions out' = allSessions out ++ post.

(** [exec] closes the session [s]: [s] is closed at the time of [exec], which
    is the last of its trades, after earlier ones. *)
Definition closedBy (formatSymbol : string -> string) (exec : BitMEX.ExecutionForCalc)
    (s : PositionSession.t) : Prop :=
  PositionSession.status s = closed
  /\ PositionSession.closeTime s = Some (BitMEX.timestamp exec)
  /\ exists earlier,
       earlier <> []
       /\ PositionSession.trades s = earlier ++ [BitMEX.toTrade formatSymbol exec].

(** [exec] opens the session [s]: [s] opens at the time of [exec], which is
    the first of its trades. *)
Definition openedBy (formatSymbol : string -> string) (exec : BitMEX.ExecutionForCalc)
    (s : PositionSession.t) : Prop :=
  PositionSession.openTime s = BitMEX.timestamp exec
  /\ exists later,
       PositionSession.trades s = BitMEX.toTrade formatSymbol exec :: later.

(** Two different sessions of [sessions] list [exec]: the one it closes and
    the one it opens. *)
Definition listedTwice (formatSymbol : string -> string) (exec : BitMEX.ExecutionForCalc)
    (sessions : list PositionSession.t) : Prop :=
  exists s1 s2,
    In s1 sessions /\ In s2 sessions
    /\ PositionSession.id s1 <> PositionSession.id s2
    /\ closedBy formatSymbol exec s1
    /\ openedBy formatSymbol exec s2.

(** The identifiers of the executions aggregated in a list of orders. *)
Definition orderExecIds (orders : list Binance.BinanceAggregatedOrder) : list string :=
  map Execution.execID (flat_map Binance.executions orders).

(** The totals of the accumulating session account for the running position. *)
Definition balanced (st : BitMEX.State) : Prop :=
  BitMEX.totalBought (BitMEX.session st) - BitMEX.totalSold (BitMEX.session st)
  == BitMEX.runningPosition st.

(** What the side rule yields on a closed session. *)
Definition closedMeansShort (s : PositionSession.t) : Prop :=
  PositionSession.status s = closed ->
  PositionSession.side s = short
  /\ PositionSession.totalBought s == PositionSession.totalSold s.

(** Sum of [f] over a list. *)
Definition sumQ {A : Type} (f : A -> Q) (l : list A) : Q :=
  fold_right (fun a acc => f a + acc) 0 l.

(** ** Inputs on which the arithmetic of the source is exact

    The source computes on IEEE doubles, the embedding on rationals. Sums and
    differences of whole numbers of magnitude at most 2^53 are exact in
    doubles. So on executions whose quantities are whole numbers (contract
    counts) with a total of at most 2^53, the running position, the bought
    and sold totals and the peak of the source are those of the embedding,
    and the tests on them ([=== 0], the flip test, the epsilon band) come out
    the same. *)

(** [q] is a whole number. *)
Definition isWhole (q : Q) : bool := (Qnum q mod Zpos (Qden q) =? 0)%Z.

(** The filtered executions have whole quantities, at most 2^53 in total. *)
Definition wholeQuantities (executions : list Execution.t) : Prop :=
  Forall (fun e => isWhole (Execution.lastQty e) = true)
    (filter isTradeExecution executions)
  /\ sumQ Execution.lastQty (filter isTradeExecution executions) <= 9007199254740992.

(** The fees of a session as its trades carry them: [totalFees] is the
    absolute value of the sum of the trades' commissions, over 10^8. *)
Definition feesOfTrades (s : PositionSession.t) : Prop :=
  0 <= PositionSession.totalFees s
  /\ PositionSession.totalFees s
     == Qabs (sumQ Trade.feeCost (PositionSession.trades s)) / 100000000.

(** The commission total of the accumulating session is that of its
    executions. *)
Definition commissionTracked (s : BitMEX.Session) : Prop :=
  BitMEX.totalCommission s == sumQ BitMEX.execComm (BitMEX.sessionExecutions s).

(** The commission total of an order is that of its executions. *)
Definition orderCommissionTracked (order : Binance.BinanceAggregatedOrder) : Prop :=
  Binance.totalComm order == sumQ Execution.execComm (Binance.executions order).

(** * Notions of the further properties *)
(** ** The parts of one iteration of the inverse-contract loop *)

(** [runningPosition] after the execution. *)
Definition nextPosition (positionBefore : Q) (exec : BitMEX.ExecutionForCalc) : Q :=
  if BitMEX.isBuy exec then positionBefore + BitMEX.lastQty exec
  else positionBefore - BitMEX.lastQty exec.

(** The session variables once the execution is counted in: totals,
    commission, [sessionExecutions.push(exec)] and [maxPosition]. *)
Definition pushed (st : BitMEX.State) (exec : BitMEX.ExecutionForCalc) : BitMEX.Session :=
  let s0 := BitMEX.session st in
  let qty := BitMEX.lastQty exec in
  let price := BitMEX.lastPx exec in
  {| BitMEX.sessionExecutions := BitMEX.sessionExecutions s0 ++ [exec];
     BitMEX.sessionStartTime := BitMEX.sessionStartTime s0;
     BitMEX.totalBought :=
       if BitMEX.isBuy exec then BitMEX.totalBought s0 + qty else BitMEX.totalBought s0;
     BitMEX.totalSold :=
       if BitMEX.isBuy exec then BitMEX.totalSold s0 else BitMEX.totalSold s0 + qty;
     BitMEX.totalBuyCost :=
       if BitMEX.isBuy exec then BitMEX.totalBuyCost s0 + qty * price
       else BitMEX.totalBuyCost s0;
     BitMEX.totalSellCost :=
       if BitMEX.isBuy exec then BitMEX.totalSellCost s0
       else BitMEX.totalSellCost s0 + qty * price;
     BitMEX.totalCommission := BitMEX.totalCommission s0 + BitMEX.execComm exec;
     BitMEX.maxPosition :=
       Qmax (BitMEX.maxPosition s0)
         (Qabs (nextPosition (BitMEX.runningPosition st) exec)) |}.

(** [sessionStartTime = exec.timestamp] *)
Definition withStart (s : BitMEX.Session) (t : Z) : BitMEX.Session :=
  {| BitMEX.sessionExecutions := BitMEX.sessionExecutions s;
     BitMEX.sessionStartTime := Some t;
     BitMEX.totalBought := BitMEX.totalBought s;
     BitMEX.totalSold := BitMEX.totalSold s;
     BitMEX.totalBuyCost := BitMEX.totalBuyCost s;
     BitMEX.totalSellCost := BitMEX.totalSellCost s;
     BitMEX.totalCommission := BitMEX.totalCommission s;
     BitMEX.maxPosition := BitMEX.maxPosition s |}.

(** The closing session of a flip: the overflow is taken out of its totals. *)
Definition adjustedForFlip (s : BitMEX.Session) (exec : BitMEX.ExecutionForCalc)
    (position : Q) : BitMEX.Session :=
  let overflowQty := Qabs position in
  let price := BitMEX.lastPx exec in
  {| BitMEX.sessionExecutions := BitMEX.sessionExecutions s;
     BitMEX.sessionStartTime := BitMEX.sessionStartTime s;
     BitMEX.totalBought :=
       if BitMEX.isBuy exec then BitMEX.totalBought s - overflowQty else BitMEX.totalBought s;
     BitMEX.totalSold :=
       if BitMEX.isBuy exec then BitMEX.totalSold s else BitMEX.totalSold s - overflowQty;
     BitMEX.totalBuyCost :=
       if BitMEX.isBuy exec then BitMEX.totalBuyCost s - overflowQty * price
       else BitMEX.totalBuyCost s;
     BitMEX.totalSellCost :=
       if BitMEX.isBuy exec then BitMEX.totalSellCost s
       else BitMEX.totalSellCost s - overflowQty * price;
     BitMEX.totalCommission := BitMEX.totalCommission s;
     BitMEX.maxPosition := BitMEX.maxPosition s |}.

(** The session a flip opens, seeded with the overflow. *)
Definition seededByFlip (exec : BitMEX.ExecutionForCalc) (position : Q) : BitMEX.Session :=
  let overflowQty := Qabs position in
  let price := BitMEX.lastPx exec in
  {| BitMEX.sessionExecutions := [exec];
     BitMEX.sessionStartTime := Some (BitMEX.timestamp exec);
     BitMEX.totalBought := if BitMEX.isBuy exec then overflowQty else 0;
     BitMEX.totalSold := if BitMEX.isBuy exec then 0 else overflowQty;
     BitMEX.totalBuyCost := if BitMEX.isBuy exec then overflowQty * price else 0;
     BitMEX.totalSellCost := if BitMEX.isBuy exec then 0 else overflowQty * price;
     BitMEX.totalCommission := BitMEX.execComm exec;
     BitMEX.maxPosition := overflowQty |}.

(** The close of the remaining open position, at the end of a symbol. *)
Definition finishSymbol (formatSymbol : string -> string) (sym : string)
    (st : BitMEX.State) : Output :=
  if Qneb (BitMEX.runningPosition st) 0
     && negb (Nat.eqb (List.length (BitMEX.sessionExecutions (BitMEX.session st))) 0) then
    BitMEX.closeSession formatSymbol sym (BitMEX.session st)
      (BitMEX.timestamp
         (last (BitMEX.sessionExecutions (BitMEX.session st))
            (BitMEX.mkExec "" "" "" "" 0 0 0 0 0 "")))
      (BitMEX.runningPosition st) (BitMEX.output st)
  else BitMEX.output st.

(** Every execution of the list has a positive quantity. *)
Definition positiveQuantities (l : list BitMEX.ExecutionForCalc) : Prop :=
  Forall (fun exec => 0 < BitMEX.lastQty exec) l.

(** Ascending timestamps, as the sort of a symbol's executions leaves them. *)
Definition chronological (l : list BitMEX.ExecutionForCalc) : Prop :=
  StronglySorted (fun a b => (BitMEX.timestamp a <= BitMEX.timestamp b)%Z) l.

(** The state every symbol starts from. *)
Definition initialSymbolState (out : Output) : BitMEX.State :=
  {| BitMEX.runningPosition := 0; BitMEX.session := BitMEX.resetSession;
     BitMEX.output := out |}.

(** ** The time frame of a session *)

(** The time frame of an inverse-contract session, read off its trades:
    they are in ascending order of time, the first one gives the open time,
    the last one the end of the duration and, once closed, the close time. *)
Definition inverseTimeFrame (s : PositionSession.t) : Prop :=
  exists t0 ts,
    map Trade.datetime (PositionSession.trades s) = t0 :: ts
    /\ StronglySorted Z.le (t0 :: ts)
    /\ PositionSession.tradeCount s = List.length (PositionSession.trades s)
    /\ PositionSession.openTime s = t0
    /\ PositionSession.durationMs s = (last ts t0 - t0)%Z
    /\ (0 <= PositionSession.durationMs s)%Z
    /\ match PositionSession.status s with
       | closed => PositionSession.closeTime s = Some (last ts t0)
       | open => PositionSession.closeTime s = None
       end.

(** The loop variables that fix the time frame: the pending executions and
    those to come are in ascending order, nothing is pending at position 0,
    and a recorded start time is the timestamp of the first pending one. *)
Definition timeFrameTracked (position : Q) (s : BitMEX.Session)
    (rest : list BitMEX.ExecutionForCalc) : Prop :=
  chronological (BitMEX.sessionExecutions s ++ rest)
  /\ (position == 0 -> BitMEX.sessionExecutions s = [])
  /\ match BitMEX.sessionStartTime s with
     | Some t0 => exists first more,
         BitMEX.sessionExecutions s = first :: more /\ BitMEX.timestamp first = t0
     | None => True
     end.

(** ** The position and the size of a session *)

(** The loop variables that follow the position: at position 0 nothing is
    pending and no start time is recorded; at any other position executions
    are pending, a start time is recorded and the peak is positive; the
    totals account for the position, which the peak bounds. *)
Definition positionTracked (position : Q) (s : BitMEX.Session) : Prop :=
  (position == 0 ->
     BitMEX.sessionExecutions s = [] /\ BitMEX.sessionStartTime s = None)
  /\ (~ position == 0 ->
        BitMEX.sessionExecutions s <> []
        /\ BitMEX.sessionStartTime s <> None
        /\ 0 < BitMEX.maxPosition s)
  /\ BitMEX.totalBought s - BitMEX.totalSold s == position
  /\ Qabs position <= BitMEX.maxPosition s.

(** The peak size of a session is positive and bounds what is left of its
    bought and sold totals. *)
Definition sizeBounds (s : PositionSession.t) : Prop :=
  0 < PositionSession.maxSize s
  /\ Qabs (PositionSession.totalBought s - PositionSession.totalSold s)
     <= PositionSession.maxSize s.

(** ** Groupings *)

(** The values of the elements of [l] whose key is [k], in the order of [l]. *)
Definition groupOf {A V : Type} (key : A -> string) (val : A -> V) (k : string)
    (l : list A) : list V :=
  map val (filter (fun a => String.eqb (key a) k) l).

(** A grouping of [l]: every key once, each with exactly its elements, none
    of them empty, no element left out. *)
Definition partitionOf {A V : Type} (key : A -> string) (val : A -> V) (l : list A)
    (groups : list (string * list V)) : Prop :=
  NoDup (map fst groups)
  /\ (forall k vs, In (k, vs) groups -> vs = groupOf key val k l /\ vs <> [])
  /\ (forall a, In a l -> In (key a) (map fst groups)).

(** ** The net position of a symbol *)

(** The signed quantity of an execution: bought counts up, sold counts down. *)
Definition signedQty (e : Execution.t) : Q :=
  if String.eqb (Execution.side e) "Buy" then Execution.lastQty e
  else - Execution.lastQty e.

Definition signedQtyOf (exec : BitMEX.ExecutionForCalc) : Q :=
  if BitMEX.isBuy exec then BitMEX.lastQty exec else - BitMEX.lastQty exec.

(** The net position of a symbol: the signed quantities of its filtered
    executions, summed. *)
Definition netPosition (sym : string) (executions : list Execution.t) : Q :=
  sumQ signedQty
    (filter (fun e => String.eqb (Execution.symbol e) sym)
       (BitMEX.tradeExecutions executions)).

(** The open sessions of a symbol among [sessions]. *)
Definition isOpenOf (sym : string) (s : PositionSession.t) : bool :=
  match PositionSession.status s with
  | open => String.eqb (PositionSession.symbol s) sym
  | closed => false
  end.

Definition openSessionsOf (sym : string) (sessions : list PositionSession.t)
  : list PositionSession.t :=
  filter (isOpenOf sym) sessions.

(** [opens] reports [position]: nothing when it is zero; otherwise a single
    session, whose bought total exceeds its sold total by [position] and whose
    side is long exactly when [position] is positive. *)
Definition reportsPosition (position : Q) (opens : list PositionSession.t) : Prop :=
  if Qeqb position 0 then opens = []
  else exists s,
      opens = [s]
      /\ PositionSession.totalBought s - PositionSession.totalSold s == position
      /\ PositionSession.side s = (if Qgtb position 0 then long else short).

(** ** Session identifiers *)

(** What follows the last dash of a string, if it has a dash. *)
Fixpoint afterLastDash (s : string) : option string :=
  match s with
  | EmptyString => None
  | String c s' =>
      match afterLastDash s' with
      | Some r => Some r
      | None => if Ascii.eqb c "-" then Some s' else None
      end
  end.

(** The sessions of [out] carry the numbers 0, 1, ... in the order they were
    pushed, and the counter is their number. *)
Definition numbered (out : Output) : Prop :=
  map (fun s => afterLastDash (PositionSession.id s)) (allSessions out)
  = map (fun n => Some (natToString n)) (seq 0 (globalSessionId out)).

(** ** Aggregated orders *)

(** An order as an entry of [orderMap]: its key and its executions. *)
Definition orderEntry (order : Binance.BinanceAggregatedOrder) : string * list Execution.t :=
  (Binance.orderID order, Binance.executions order).

(** The notional of an execution, as the aggregation adds it up. *)
Definition notional (e : Execution.t) : Q := Execution.lastQty e * Execution.lastPx e.

(** An order summarises its executions: it has at least one; symbol and side
    are those of the first; quantity, cost, commission and realized profit are
    the sums over them; its timestamp is the timestamp of one of them (which
    one, the comparison of timestamps in the aggregation decides). *)
Definition summarises (order : Binance.BinanceAggregatedOrder) : Prop :=
  (exists e0 es,
      Binance.executions order = e0 :: es
      /\ Binance.symbol order = Execution.symbol e0
      /\ Binance.side order = Execution.side e0)
  /\ Binance.totalQty order == sumQ Execution.lastQty (Binance.executions order)
  /\ Binance.totalCost order == sumQ notional (Binance.executions order)
  /\ Binance.totalComm order == sumQ Execution.execComm (Binance.executions order)
  /\ Binance.realizedPnl order
     == sumQ (fun e => parseRealizedPnlFromText (Execution.text e)) (Binance.executions order)
  /\ In (Binance.timestamp order)
       (map Execution.timestamp (Binance.executions order)).

(** The average price of an order is its cost over its quantity, and 0 when
    the quantity is not positive. *)
Definition averaged (order : Binance.BinanceAggregatedOrder) : Prop :=
  if Qgtb (Binance.totalQty order) 0
  then Binance.avgPrice order == Binance.totalCost order / Binance.totalQty order
  else Binance.avgPrice order = 0.

(** Ascending order of timestamp. *)
Definition ordersChronological (orders : list Binance.BinanceAggregatedOrder) : Prop :=
  StronglySorted (fun a b => (Binance.timestamp a <= Binance.timestamp b)%Z) orders.

(** ** The hedge-mode loop *)

(** The loop variables of a partition when [rest] is still to be processed:
    the pending orders and those to come are in ascending order of timestamp
    and summarise their executions; the running position is the net quantity
    of the pending orders; a recorded start time is the timestamp of the
    first pending order, which left the epsilon band, and the position has
    stayed outside the band since. *)
Definition hedgeTracked (positionSide_ : string) (st : Binance.State)
    (rest : list Binance.BinanceAggregatedOrder) : Prop :=
  ordersChronological (Binance.sessionOrders st ++ rest)
  /\ Forall summarises (Binance.sessionOrders st ++ rest)
  /\ Binance.runningPosition st == netQty positionSide_ (Binance.sessionOrders st)
  /\ match Binance.sessionStartTime st with
     | Some t0 =>
         (exists first more,
             Binance.sessionOrders st = first :: more
             /\ Binance.timestamp first = t0
             /\ isBinancePositionClosed (Binance.getPositionDelta positionSide_ first)
                = false)
         /\ isBinancePositionClosed (Binance.runningPosition st) = false
     | None => True
     end.

(** The state after the reset of the time-gap check. *)
Definition afterGap (st : Binance.State) : Binance.State :=
  {| Binance.runningPosition := 0;
     Binance.sessionOrders := [];
     Binance.sessionStartTime := None;
     Binance.lastOrderTime := Binance.lastOrderTime st;
     Binance.output := Binance.output st |}.

(** The time frame of a hedge-mode session: it has trades, in ascending order
    of time; it opens at the time of one of its trades; its duration is not
    negative and ends at the time of one of its trades; closed, it carries
    the end of the duration as close time, open, none. *)
Definition hedgeTimeFrame (s : PositionSession.t) : Prop :=
  exists t0 ts,
    map Trade.datetime (PositionSession.trades s) = t0 :: ts
    /\ StronglySorted Z.le (t0 :: ts)
    /\ PositionSession.tradeCount s = List.length (PositionSession.trades s)
    /\ In (PositionSession.openTime s) (t0 :: ts)
    /\ (0 <= PositionSession.durationMs s)%Z
    /\ In (PositionSession.openTime s + PositionSession.durationMs s)%Z (t0 :: ts)
    /\ match PositionSession.status s with
       | closed =>
           PositionSession.closeTime s
           = Some (PositionSession.openTime s + PositionSession.durationMs s)%Z
       | open => PositionSession.closeTime s = None
       end.

(** The size of a hedge-mode session: its peak is at least the tolerance and
    at least what is left of its bought and sold totals, and it is closed
    exactly when what is left is below the tolerance. *)
Definition hedgeSize (s : PositionSession.t) : Prop :=
  BINANCE_POSITION_TOLERANCE <= PositionSession.maxSize s
  /\ Qabs (PositionSession.totalBought s - PositionSession.totalSold s)
     <= PositionSession.maxSize s
  /\ (PositionSession.status s = closed <->
      Qabs (PositionSession.totalBought s - PositionSession.totalSold s)
      < BINANCE_POSITION_TOLERANCE).

(** The body of the loop that replays the position in [closeSession]. *)
Definition replayStep (positionSide_ : string)
  : Q * Q -> Binance.BinanceAggregatedOrder -> Q * Q :=
  fun '(tempPos, maxPosition) order =>
    let tempPos' := tempPos + Binance.getPositionDelta positionSide_ order in
    (tempPos', Qmax maxPosition (Qabs tempPos')).

(** ** Volume *)

(** The bought total of a session ([buy] true) or its sold total. *)
Definition sideVolume (buy : bool) (s : PositionSession.t) : Q :=
  if buy then PositionSession.totalBought s else PositionSession.totalSold s.

(** The same of the accumulating session. *)
Definition pendingVolume (buy : bool) (s : BitMEX.Session) : Q :=
  if buy then BitMEX.totalBought s else BitMEX.totalSold s.

(** The quantity of an execution if it is on the given side, else 0. *)
Definition fillVolume (buy : bool) (e : Execution.t) : Q :=
  if Bool.eqb (String.eqb (Execution.side e) "Buy") buy then Execution.lastQty e else 0.

Definition fillVolumeOf (buy : bool) (exec : BitMEX.ExecutionForCalc) : Q :=
  if Bool.eqb (BitMEX.isBuy exec) buy then BitMEX.lastQty exec else 0.

(** At position 0 the loop holds the variables of a fresh session. *)
Definition restsAtZero (position : Q) (s : BitMEX.Session) : Prop :=
  ~ position == 0 \/ s = BitMEX.resetSession.

(** ** The volume of a hedge-mode session *)

(** The bought and sold totals of a session add up to the amounts of its
    trades. *)
Definition volumeOfTrades (s : PositionSession.t) : Prop :=
  PositionSession.totalBought s + PositionSession.totalSold s
  == sumQ Trade.amount (PositionSession.trades s).

(** ** Symbols *)

(** The trades of a session carry the symbol and the display symbol of the
    session. *)
Definition tradesOfSymbol (s : PositionSession.t) : Prop :=
  Forall (fun t => Trade.symbol t = PositionSession.symbol s
                   /\ Trade.displaySymbol t = PositionSession.displaySymbol s)
    (PositionSession.trades s).

(** No colon occurs in the string. *)
Fixpoint colonFree (s : string) : bool :=
  match s with
  | EmptyString => true
  | String c s' => negb (Ascii.eqb c ":") && colonFree s'
  end.

(** ** The order of the sessions in time *)

(** The end of the duration of a session. *)
Definition endTimeOf (s : PositionSession.t) : Z :=
  (PositionSession.openTime s + PositionSession.durationMs s)%Z.

(** Of two sessions of one symbol, the first has ended when the second
    opens. *)
Definition precedes (a b : PositionSession.t) : Prop :=
  PositionSession.symbol a = PositionSession.symbol b ->
  (endTimeOf a <= PositionSession.openTime b)%Z.

(** Two sessions of one symbol do not overlap in time. *)
Definition apartInTime (a b : PositionSession.t) : Prop :=
  PositionSession.symbol a = PositionSession.symbol b ->
  (endTimeOf a <= PositionSession.openTime b)%Z
  \/ (endTimeOf b <= PositionSession.openTime a)%Z.

(** A session of [sym] has ended by the time of each execution of [l]. *)
Definition settledBefore (sym : string) (l : list BitMEX.ExecutionForCalc)
    (s : PositionSession.t) : Prop :=
  PositionSession.symbol s = sym ->
  Forall (fun exec => (endTimeOf s <= BitMEX.timestamp exec)%Z) l.

(** The loop variables of symbol [sym] and the output, when [rest] is still
    to be processed and [before] was the output at the start of the symbol. *)
Definition orderTracked (sym : string) (before : list PositionSession.t)
    (st : BitMEX.State) (rest : list BitMEX.ExecutionForCalc) : Prop :=
  timeFrameTracked (BitMEX.runningPosition st) (BitMEX.session st) rest
  /\ ForallOrdPairs precedes (allSessions (BitMEX.output st))
  /\ Forall (settledBefore sym (BitMEX.sessionExecutions (BitMEX.session st) ++ rest))
       (allSessions (BitMEX.output st))
  /\ Forall (fun s => In s before \/ PositionSession.symbol s = sym)
       (allSessions (BitMEX.output st)).

(** ** The annotation of the OKX exporter *)

(** [`posSide:${fill.posSide}|execType:${fill.execType}`], the text the OKX
    exporter gives an execution. *)
Definition okxFillText (posSide execType : string) : string :=
  String.append "posSide:"
    (String.append posSide (String.append "|execType:" execType)).

(** Every character of the string is a word character. *)
Fixpoint allWord (s : string) : bool :=
  match s with
  | EmptyString => true
  | String c s' => isWordChar c && allWord s'
  end.

(** The position side a tag stands for. *)
Definition positionSideOfTag (tag : string) : string :=
  let side := toUpperCase tag in
  if String.eqb side "LONG" || String.eqb side "SHORT" then side else "BOTH".

(** ** The sessions of a hedge-mode book *)










(** ** The contract of the entry point *)

(** The profit figures of a session: the net profit is the realized profit
    less the fees, the fees are not negative, and an open session has no
    realized profit and no exit price. *)
Definition ledgerKept (s : PositionSession.t) : Prop :=
  PositionSession.netPnl s == PositionSession.realizedPnl s - PositionSession.totalFees s
  /\ 0 <= PositionSession.totalFees s
  /\ match PositionSession.status s with
     | open => PositionSession.realizedPnl s = 0 /\ PositionSession.avgExitPrice s = 0
     | closed => True
     end.

(** What holds of the sessions returned, whichever calculator produced them:
    they come newest first, no two share an identifier, and each has the time
    frame of its trades and consistent profit figures. *)
Definition outputContract (sessions : list PositionSession.t) : Prop :=
  newestFirstSorted sessions
  /\ NoDup (map PositionSession.id sessions)
  /\ Forall (fun s => hedgeTimeFrame s /\ ledgerKept s) sessions.

(** * Properties *)

(** ** Scenarios of the inverse-contract calculator *)

(** C1 (the code at the scenario's input): on [Buy 100 @ 50000 t=0],
    [Sell 100 @ 51000 t=10] the inverse-contract calculator returns exactly one
    session, closed, with realizedPnl = 100*(1/50000 - 1/51000) > 0; the side
    rule compares totals that are equal at the close, so the session is
    labelled short and its entry and exit prices are 51000 and 50000. *)
Theorem C1_scenarioA_labelled_short : forall formatSymbol,
  exists s,
    BitMEX.calculateBitMEXPositionSessions formatSymbol scenarioA = [s]
    /\ PositionSession.status s = closed
    /\ PositionSession.side s = short
    /\ PositionSession.avgEntryPrice s == 51000
    /\ PositionSession.avgExitPrice s == 50000
    /\ PositionSession.realizedPnl s == 100 * (1 / 50000 - 1 / 51000)
    /\ 0 < PositionSession.realizedPnl s.
Proof.
  intros formatSymbol. eexists. split; [vm_compute; reflexivity|].
  cbn [PositionSession.status PositionSession.side PositionSession.avgEntryPrice
       PositionSession.avgExitPrice PositionSession.realizedPnl].
  repeat split; reflexivity.
Qed.

(** C3 (the code at the scenario's input): on [Buy 5 @ 100 t=0],
    [Sell 12 @ 110 t=5] the inverse-contract calculator returns exactly two
    sessions; the first is closed with totalBought = totalSold = 5 but carries
    entry 110 and exit 100 (it is labelled short); the second is open, short,
    with totalSold - totalBought = 7, entry price 110, maxSize 7 and open
    time 5. *)
Theorem C3_scenarioB_flip : forall formatSymbol,
  exists s1 s2,
    BitMEX.calculateBitMEXPositionSessions formatSymbol scenarioB = [s1; s2]
    /\ PositionSession.status s1 = closed
    /\ PositionSession.totalBought s1 == 5
    /\ PositionSession.totalSold s1 == 5
    /\ PositionSession.side s1 = short
    /\ PositionSession.avgEntryPrice s1 == 110
    /\ PositionSession.avgExitPrice s1 == 100
    /\ PositionSession.status s2 = open
    /\ PositionSession.side s2 = short
    /\ PositionSession.totalSold s2 - PositionSession.totalBought s2 == 7
    /\ PositionSession.avgEntryPrice s2 == 110
    /\ PositionSession.maxSize s2 == 7
    /\ PositionSession.openTime s2 = 5%Z.
Proof.
  intros formatSymbol. do 2 eexists. split; [vm_compute; reflexivity|].
  cbn [PositionSession.status PositionSession.side PositionSession.avgEntryPrice
       PositionSession.avgExitPrice PositionSession.totalBought PositionSession.totalSold
       PositionSession.maxSize PositionSession.openTime].
  repeat split; reflexivity.
Qed.

(** ** Scenario of the hedge-mode calculator *)

(** C5: on symbol Y, order1 Buy 1 t=0 tagged LONG, order2 Sell 1 t=1 tagged
    SHORT and order3 Buy 1 t=2 tagged SHORT give exactly two sessions: a long
    one holding order1 alone, open, and a short one holding order2 and order3,
    closed; the executions are partitioned into the book (Y, LONG), which
    holds order1, and the book (Y, SHORT), which holds order2 and order3, and
    neither book sees the other's orders. *)
Theorem C5_scenarioC_independent_books :
  forall formatSymbol id1 id2 id3 p1 p2 p3 c1 c2 c3 m1 m2 m3,
  let input := scenarioC id1 id2 id3 p1 p2 p3 c1 c2 c3 m1 m2 m3 in
  map (fun entry => (fst entry, map Execution.orderID (snd entry)))
    (Binance.executionsByKey input)
  = [("Y:LONG", ["order1"]); ("Y:SHORT", ["order2"; "order3"])]
  /\ exists sShort sLong,
      Binance.calculateBinancePositionSessions formatSymbol input = [sShort; sLong]
      /\ PositionSession.side sLong = long
      /\ map Trade.orderID (PositionSession.trades sLong) = ["order1"]
      /\ map Trade.id (PositionSession.trades sLong) = [id1]
      /\ PositionSession.status sLong = open
      /\ PositionSession.side sShort = short
      /\ map Trade.orderID (PositionSession.trades sShort) = ["order2"; "order3"]
      /\ map Trade.id (PositionSession.trades sShort) = [id2; id3]
      /\ PositionSession.status sShort = closed.
Proof.
  intros. subst input. split; [reflexivity|].
  do 2 eexists. split; [cbv; reflexivity|].
  cbn [PositionSession.status PositionSession.side PositionSession.trades map Trade.orderID
       Trade.id].
  repeat split; reflexivity.
Qed.

(** ** Boolean tests on rationals *)

Lemma Qltb_lt (a b : Q) : Qltb a b = true <-> a < b.
Proof.
  unfold Qltb. rewrite negb_true_iff. split.
  - intros H. apply Qnot_le_lt. intros Hle. apply Qle_bool_iff in Hle. congruence.
  - intros H. destruct (Qle_bool b a) eqn:E; [|reflexivity].
    apply Qle_bool_iff in E. exfalso. exact (Qlt_not_le _ _ H E).
Qed.

Lemma Qltb_ge (a b : Q) : Qltb a b = false <-> b <= a.
Proof.
  unfold Qltb. rewrite negb_false_iff. apply Qle_bool_iff.
Qed.

Lemma Qgtb_gt (a b : Q) : Qgtb a b = true <-> b < a.
Proof. unfold Qgtb. apply Qltb_lt. Qed.

Lemma Qeqb_eq (a b : Q) : Qeqb a b = true <-> a == b.
Proof. unfold Qeqb. apply Qeq_bool_iff. Qed.

Lemma Qneb_neq (a b : Q) : Qneb a b = true <-> ~ a == b.
Proof.
  unfold Qneb. rewrite negb_true_iff. split.
  - intros H Heq. apply Qeq_bool_iff in Heq. congruence.
  - intros H. destruct (Qeq_bool a b) eqn:E; [|reflexivity].
    apply Qeq_bool_iff in E. contradiction.
Qed.

#[global] Instance Qltb_compat : Proper (Qeq ==> Qeq ==> eq) Qltb.
Proof.
  intros a a' Ha b b' Hb.
  destruct (Qltb a b) eqn:E1, (Qltb a' b') eqn:E2; try reflexivity.
  - apply Qltb_lt in E1. apply Qltb_ge in E2. rewrite Ha, Hb in E1.
    exfalso. exact (Qlt_not_le _ _ E1 E2).
  - apply Qltb_lt in E2. apply Qltb_ge in E1. rewrite <- Ha, <- Hb in E2.
    exfalso. exact (Qlt_not_le _ _ E2 E1).
Qed.

#[global] Instance isBinancePositionClosed_compat :
  Proper (Qeq ==> eq) isBinancePositionClosed.
Proof.
  intros a b Hab. unfold isBinancePositionClosed. now rewrite Hab.
Qed.

(** ** The input filter *)

Lemma isTradeExecution_spec (e : Execution.t) :
  isTradeExecution e = true <->
  Execution.execType e = "Trade" /\ Execution.side e <> "" /\ 0 < Execution.lastQty e.
Proof.
  unfold isTradeExecution.
  rewrite !andb_true_iff, negb_true_iff, String.eqb_eq, String.eqb_neq, Qgtb_gt.
  tauto.
Qed.

(** C6 (as the code has it): the filter of the inverse-contract calculator
    keeps exactly the executions whose type is 'Trade', whose side is not
    empty and whose quantity is positive; the order identifier is not
    looked at. *)
Theorem C6_filter_keeps_trades_with_side : forall executions e,
  In e (BitMEX.tradeExecutions executions) <->
  In e executions
  /\ Execution.execType e = "Trade"
  /\ Execution.side e <> ""
  /\ 0 < Execution.lastQty e.
Proof.
  intros executions e. unfold BitMEX.tradeExecutions.
  rewrite filter_In, isTradeExecution_spec. tauto.
Qed.

(** C6, counterexample: a trade fill whose order identifier is empty passes
    the filter and is the trade of an emitted session. *)
Lemma C6_empty_order_id_is_kept :
  Execution.orderID noOrderId = ""
  /\ BitMEX.tradeExecutions [noOrderId] = [noOrderId]
  /\ (forall formatSymbol,
        map (fun s => map Trade.id (PositionSession.trades s))
          (BitMEX.calculateBitMEXPositionSessions formatSymbol [noOrderId])
        = [[Execution.execID noOrderId]]).
Proof.
  split; [reflexivity|]. split; [reflexivity|]. intros formatSymbol. reflexivity.
Qed.

(** ** The dispatcher *)

(** C7 (as the code has it): the empty list gives the empty output; on a
    non-empty list the hedge-mode calculator runs when the hint is 'binance'
    or 'okx' or when the first execution's symbol has a hedge-mode shape,
    whether or not a hint was given, and the inverse-contract calculator runs
    otherwise. *)
Theorem C7_dispatch_by_hint_or_shape :
  forall formatSymbol isBinanceSymbol exchangeId,
    calculatePositionSessionsFromExecutions formatSymbol isBinanceSymbol [] exchangeId = []
    /\ forall first rest,
        let hedgeHint := hintIs exchangeId "binance" || hintIs exchangeId "okx" in
        let hedgeShape := isBinanceSymbol (Execution.symbol first)
                          || includes (Execution.symbol first) "-SWAP"
                          || includes (Execution.symbol first) "-USDT-" in
        calculatePositionSessionsFromExecutions formatSymbol isBinanceSymbol
          (first :: rest) exchangeId
        = if hedgeHint || hedgeShape
          then Binance.calculateBinancePositionSessions formatSymbol (first :: rest)
          else BitMEX.calculateBitMEXPositionSessions formatSymbol (first :: rest).
Proof.
  intros formatSymbol isBinanceSymbol exchangeId. split; [reflexivity|].
  intros first rest hedgeHint hedgeShape.
  unfold calculatePositionSessionsFromExecutions, hedgeHint, hedgeShape.
  destruct (hintIs exchangeId "binance"), (hintIs exchangeId "okx"),
    (isBinanceSymbol (Execution.symbol first)),
    (includes (Execution.symbol first) "-SWAP"),
    (includes (Execution.symbol first) "-USDT-"); reflexivity.
Qed.

(** C7, counterexample: with the hint 'bitmex' supplied, a list whose first
    symbol is swap-shaped is still sent to the hedge-mode calculator, whose
    output differs from the inverse-contract calculator's. *)
Lemma C7_hint_does_not_override_shape :
  (forall formatSymbol isBinanceSymbol,
     calculatePositionSessionsFromExecutions formatSymbol isBinanceSymbol
       [swapFill] (Some "bitmex")
     = Binance.calculateBinancePositionSessions formatSymbol [swapFill])
  /\ (forall formatSymbol,
        map PositionSession.id
          (Binance.calculateBinancePositionSessions formatSymbol [swapFill])
        = ["BTC-USD-SWAP-BOTH-0"])
  /\ (forall formatSymbol,
        map PositionSession.id
          (BitMEX.calculateBitMEXPositionSessions formatSymbol [swapFill])
        = ["BTC-USD-SWAP-0"]).
Proof.
  split; [|split]; intros.
  - unfold calculatePositionSessionsFromExecutions.
    replace (includes (Execution.symbol swapFill) "-SWAP") with true by reflexivity.
    rewrite !orb_true_r. reflexivity.
  - reflexivity.
  - reflexivity.
Qed.

(** ** The stable sort *)

Section SortBy.

Context {A : Type}.
Variable cmp : A -> A -> Z.

Lemma insertBy_perm (x : A) (l : list A) : Permutation (insertBy cmp x l) (x :: l).
Proof.
  induction l as [|y l IH]; simpl.
  - reflexivity.
  - destruct (cmp x y <=? 0)%Z.
    + reflexivity.
    + rewrite IH. apply perm_swap.
Qed.

Lemma sortBy_perm (l : list A) : Permutation (sortBy cmp l) l.
Proof.
  induction l as [|x l IH]; simpl.
  - reflexivity.
  - rewrite insertBy_perm. now apply perm_skip.
Qed.

Lemma sortBy_In (x : A) (l : list A) : In x (sortBy cmp l) <-> In x l.
Proof.
  split; apply Permutation_in; [|symmetry]; apply sortBy_perm.
Qed.

Lemma sortBy_Forall (P : A -> Prop) (l : list A) : Forall P l -> Forall P (sortBy cmp l).
Proof.
  intros H. eapply Permutation_Forall; [symmetry; apply sortBy_perm | exact H].
Qed.

Lemma sortBy_length (l : list A) : List.length (sortBy cmp l) = List.length l.
Proof. apply Permutation_length, sortBy_perm. Qed.

Hypothesis cmp_trans : forall x y z, (cmp x y <= 0 -> cmp y z <= 0 -> cmp x z <= 0)%Z.
Hypothesis cmp_total : forall x y, (0 < cmp x y -> cmp y x <= 0)%Z.

Let ordered (x y : A) : Prop := (cmp x y <= 0)%Z.

Lemma insertBy_sorted (x : A) (l : list A) :
  StronglySorted ordered l -> StronglySorted ordered (insertBy cmp x l).
Proof.
  induction 1 as [|y l Hs IH Hy]; simpl.
  - constructor; [constructor | constructor].
  - destruct (cmp x y <=? 0)%Z eqn:E.
    + apply Z.leb_le in E. constructor.
      * now constructor.
      * constructor; [exact E|].
        eapply Forall_impl; [|exact Hy]. intros z Hz. now apply (cmp_trans x y z).
    + apply Z.leb_gt in E. constructor; [exact IH|].
      eapply Permutation_Forall; [symmetry; apply insertBy_perm|].
      constructor; [now apply cmp_total | exact Hy].
Qed.

Lemma sortBy_sorted (l : list A) : StronglySorted ordered (sortBy cmp l).
Proof.
  induction l as [|x l IH]; simpl.
  - constructor.
  - now apply insertBy_sorted.
Qed.

End SortBy.

(** ** Grouping *)

Section GroupBy.

Context {A V : Type}.
Variable key : A -> string.
Variable val : A -> V.

Lemma mapPush_perm (k : string) (v : V) (m : list (string * list V)) :
  Permutation (List.concat (map snd (mapPush k v m))) (v :: List.concat (map snd m)).
Proof.
  induction m as [|[k' vs] m IH]; simpl.
  - reflexivity.
  - destruct (String.eqb k' k); simpl.
    + rewrite <- app_assoc. simpl. symmetry. apply Permutation_middle.
    + rewrite IH. symmetry. apply Permutation_middle.
Qed.

Lemma groupBy_perm_from (l : list A) (m : list (string * list V)) :
  Permutation
    (List.concat (map snd (fold_left (fun m e => mapPush (key e) (val e) m) l m)))
    (List.concat (map snd m) ++ map val l).
Proof.
  revert m. induction l as [|x l IH]; intros m; simpl.
  - now rewrite app_nil_r.
  - rewrite IH, mapPush_perm. simpl. apply Permutation_middle.
Qed.

Lemma groupBy_perm (l : list A) :
  Permutation (List.concat (map snd (groupBy key val l))) (map val l).
Proof. unfold groupBy. now rewrite groupBy_perm_from. Qed.

End GroupBy.

(** ** What both calculators emit *)

Lemma StronglySorted_weaken {A : Type} (R R' : A -> A -> Prop) (l : list A) :
  (forall a b, R a b -> R' a b) -> StronglySorted R l -> StronglySorted R' l.
Proof.
  intros HR. induction 1 as [|a l Hs IH Ha]; constructor.
  - exact IH.
  - eapply Forall_impl; [|exact Ha]. intros b. apply HR.
Qed.

Lemma newestFirst_sorted (l : list PositionSession.t) :
  newestFirstSorted (sortBy newestFirst l).
Proof.
  unfold newestFirstSorted.
  apply StronglySorted_weaken with (R := fun a b => (newestFirst a b <= 0)%Z).
  - unfold newestFirst. intros a b H. lia.
  - apply sortBy_sorted; unfold newestFirst; intros; lia.
Qed.

Lemma fees_nonneg (commission : Q) : 0 <= Qabs commission / 100000000.
Proof.
  apply Qle_shift_div_l; [reflexivity|]. rewrite Qmult_0_l. apply Qabs_nonneg.
Qed.

Section BitMEXEmits.

Variable formatSymbol : string -> string.
Variable P : PositionSession.t -> Prop.
Hypothesis built : forall sym gid s start endTime endPosition,
  P (BitMEX.buildSession formatSymbol sym gid s start endTime endPosition).

Lemma BitMEX_closeSession_cases sym s endTime endPosition out :
  BitMEX.closeSession formatSymbol sym s endTime endPosition out = out
  \/ exists start,
       BitMEX.sessionStartTime s = Some start
       /\ BitMEX.sessionExecutions s <> []
       /\ BitMEX.closeSession formatSymbol sym s endTime endPosition out
          = {| allSessions :=
                 allSessions out
                 ++ [BitMEX.buildSession formatSymbol sym (globalSessionId out) s start
                       endTime endPosition];
               globalSessionId := S (globalSessionId out) |}.
Proof.
  unfold BitMEX.closeSession.
  destruct (BitMEX.sessionExecutions s) as [|e l]; [now left|].
  destruct (BitMEX.sessionStartTime s) as [start|]; [|now left].
  right. exists start. repeat split. discriminate.
Qed.

Lemma BitMEX_closeSession_Forall sym s endTime endPosition out :
  Forall P (allSessions out) ->
  Forall P (allSessions (BitMEX.closeSession formatSymbol sym s endTime endPosition out)).
Proof.
  intros H.
  destruct (BitMEX_closeSession_cases sym s endTime endPosition out)
    as [-> | (start & _ & _ & ->)]; [exact H|].
  simpl. apply Forall_app. split; [exact H|]. constructor; [apply built | constructor].
Qed.

Lemma BitMEX_processExecution_Forall sym st exec :
  Forall P (allSessions (BitMEX.output st)) ->
  Forall P (allSessions (BitMEX.output (BitMEX.processExecution formatSymbol sym st exec))).
Proof.
  intros H. unfold BitMEX.processExecution.
  destruct (Qneb (BitMEX.runningPosition st) 0 && Qeqb _ 0);
    destruct (_ && _ || _ && _); cbn [BitMEX.output];
    repeat apply BitMEX_closeSession_Forall; exact H.
Qed.

Lemma BitMEX_processSymbol_Forall out entry :
  Forall P (allSessions out) ->
  Forall P (allSessions (BitMEX.processSymbol formatSymbol out entry)).
Proof.
  intros H. destruct entry as [sym symbolExecutions]. unfold BitMEX.processSymbol.
  set (st0 := BitMEX.mkState 0 BitMEX.resetSession out).
  assert (H0 : Forall P (allSessions (BitMEX.output st0))) by exact H.
  clearbody st0. clear H.
  revert st0 H0. induction (sortBy BitMEX.byTimestamp symbolExecutions) as [|e l IH];
    intros st0 H0; simpl.
  - destruct (_ && _); [apply BitMEX_closeSession_Forall|]; exact H0.
  - apply IH. now apply BitMEX_processExecution_Forall.
Qed.

Lemma BitMEX_sessions_Forall executions :
  Forall P (BitMEX.calculateBitMEXPositionSessions formatSymbol executions).
Proof.
  unfold BitMEX.calculateBitMEXPositionSessions. apply sortBy_Forall.
  set (out0 := mkOutput [] 0).
  assert (H0 : Forall P (allSessions out0)) by constructor.
  clearbody out0. revert out0 H0.
  induction (BitMEX.executionsBySymbol executions) as [|entry l IH]; intros out0 H0; simpl.
  - exact H0.
  - apply IH. now apply BitMEX_processSymbol_Forall.
Qed.

End BitMEXEmits.

Section BinanceEmits.

Variable formatSymbol : string -> string.
Variable P : PositionSession.t -> Prop.
Hypothesis built : forall sym positionSide gid orders start endTime,
  P (Binance.buildSession formatSymbol sym positionSide gid orders start endTime).

Lemma Binance_closeSession_cases sym positionSide orders start endTime out :
  Binance.closeSession formatSymbol sym positionSide orders start endTime out = out
  \/ exists t,
       start = Some t
       /\ orders <> []
       /\ Binance.closeSession formatSymbol sym positionSide orders start endTime out
          = {| allSessions :=
                 allSessions out
                 ++ [Binance.buildSession formatSymbol sym positionSide
                       (globalSessionId out) orders t endTime];
               globalSessionId := S (globalSessionId out) |}.
Proof.
  unfold Binance.closeSession.
  destruct orders as [|o l]; [now left|].
  destruct start as [t|]; [|now left].
  right. exists t. repeat split. discriminate.
Qed.

Lemma Binance_closeSession_Forall sym positionSide orders start endTime out :
  Forall P (allSessions out) ->
  Forall P (allSessions
              (Binance.closeSession formatSymbol sym positionSide orders start endTime out)).
Proof.
  intros H.
  destruct (Binance_closeSession_cases sym positionSide orders start endTime out)
    as [-> | (t & _ & _ & ->)]; [exact H|].
  simpl. apply Forall_app. split; [exact H|]. constructor; [apply built | constructor].
Qed.

Lemma Binance_processOrder_Forall sym positionSide st order :
  Forall P (allSessions (Binance.output st)) ->
  Forall P (allSessions
              (Binance.output (Binance.processOrder formatSymbol sym positionSide st order))).
Proof.
  intros H. unfold Binance.processOrder.
  destruct (Binance.gapCondition st order); cbn [Binance.runningPosition Binance.output
    Binance.sessionOrders Binance.sessionStartTime];
    destruct (negb _ && _); cbn [Binance.output];
    repeat apply Binance_closeSession_Forall; exact H.
Qed.

Lemma Binance_processOrders_Forall sym positionSide out orders :
  Forall P (allSessions out) ->
  Forall P (allSessions (Binance.processOrders formatSymbol sym positionSide out orders)).
Proof.
  intros H. unfold Binance.processOrders.
  set (st0 := Binance.initialState out).
  assert (H0 : Forall P (allSessions (Binance.output st0))) by exact H.
  clearbody st0. clear H.
  revert st0 H0. induction orders as [|o l IH]; intros st0 H0; simpl.
  - destruct (negb _); [apply Binance_closeSession_Forall|]; exact H0.
  - apply IH. now apply Binance_processOrder_Forall.
Qed.

Lemma Binance_sessions_Forall executions :
  Forall P (Binance.calculateBinancePositionSessions formatSymbol executions).
Proof.
  unfold Binance.calculateBinancePositionSessions. apply sortBy_Forall.
  set (out0 := mkOutput [] 0).
  assert (H0 : Forall P (allSessions out0)) by constructor.
  clearbody out0. revert out0 H0.
  induction (Binance.executionsByKey executions) as [|[key keyExecutions] l IH];
    intros out0 H0; simpl.
  - exact H0.
  - apply IH. now apply Binance_processOrders_Forall.
Qed.

End BinanceEmits.

(** C10: the list either calculator returns is in descending order of the
    key, most recent first, and the key of every returned session is its
    close time when it is closed and its open time when it is open. *)
Theorem C10_sorted_newest_first : forall formatSymbol executions,
  (newestFirstSorted (BitMEX.calculateBitMEXPositionSessions formatSymbol executions)
   /\ Forall (fun s => closeOrOpenTime s = Some (sessionTime s))
        (BitMEX.calculateBitMEXPositionSessions formatSymbol executions))
  /\ (newestFirstSorted (Binance.calculateBinancePositionSessions formatSymbol executions)
      /\ Forall (fun s => closeOrOpenTime s = Some (sessionTime s))
           (Binance.calculateBinancePositionSessions formatSymbol executions)).
Proof.
  intros formatSymbol executions. repeat split.
  - apply newestFirst_sorted.
  - apply BitMEX_sessions_Forall. intros. unfold closeOrOpenTime, sessionTime. simpl.
    now destruct (Qeqb endPosition 0).
  - apply newestFirst_sorted.
  - apply Binance_sessions_Forall. intros. unfold closeOrOpenTime, sessionTime. simpl.
    now destruct (isBinancePositionClosed _).
Qed.

(** ** The time-gap branch of the hedge-mode calculator *)

Section HedgeLoop.

Variable formatSymbol : string -> string.
Variable symbol_ positionSide_ : string.

Let processOrder := Binance.processOrder formatSymbol symbol_ positionSide_.
Let closeSession := Binance.closeSession formatSymbol symbol_ positionSide_.
Let getPositionDelta := Binance.getPositionDelta positionSide_.

Lemma processOrder_startedOutsideBand st order :
  startedOutsideBand st -> startedOutsideBand (processOrder st order).
Proof.
  unfold startedOutsideBand, processOrder, Binance.processOrder.
  intros Hst.
  destruct (Binance.gapCondition st order) eqn:G;
    cbn [Binance.runningPosition Binance.sessionOrders Binance.sessionStartTime
         Binance.output Binance.lastOrderTime].
  - destruct (isBinancePositionClosed (Binance.runningPosition st)) eqn:Was;
      destruct (isBinancePositionClosed (0 + Binance.getPositionDelta positionSide_ order))
        eqn:Now; cbn; auto.
  - destruct (isBinancePositionClosed (Binance.runningPosition st)) eqn:Was;
      destruct (isBinancePositionClosed
                  (Binance.runningPosition st + Binance.getPositionDelta positionSide_ order))
        eqn:Now; cbn; auto.
    destruct Hst as [H | H]; [now left | discriminate].
Qed.

Lemma reachedBy_snoc out orders order :
  reachedBy formatSymbol symbol_ positionSide_ out (orders ++ [order])
  = processOrder (reachedBy formatSymbol symbol_ positionSide_ out orders) order.
Proof. unfold reachedBy. now rewrite fold_left_app. Qed.

Lemma reachedBy_startedOutsideBand out orders :
  startedOutsideBand (reachedBy formatSymbol symbol_ positionSide_ out orders).
Proof.
  induction orders as [|order orders IH] using rev_ind.
  - left. reflexivity.
  - rewrite reachedBy_snoc. now apply processOrder_startedOutsideBand.
Qed.

Lemma gapCondition_closed st order :
  Binance.gapCondition st order = true ->
  isBinancePositionClosed (Binance.runningPosition st) = true.
Proof.
  unfold Binance.gapCondition. intros H. now apply andb_true_iff in H.
Qed.

Lemma gap_close_is_silent st order :
  startedOutsideBand st ->
  Binance.gapCondition st order = true ->
  Binance.sessionStartTime st = None
  /\ closeSession (Binance.sessionOrders st) (Binance.sessionStartTime st)
       (Binance.lastTimestamp (Binance.sessionOrders st)) (Binance.output st)
     = Binance.output st.
Proof.
  intros Hst G. apply gapCondition_closed in G.
  destruct Hst as [H | H]; [|congruence].
  split; [exact H|]. rewrite H. unfold closeSession, Binance.closeSession.
  now destruct (Binance.sessionOrders st).
Qed.

(** Where the output of one iteration comes from. *)
Lemma processOrder_output st order :
  startedOutsideBand st ->
  Binance.output (processOrder st order) = Binance.output st
  \/ (isBinancePositionClosed (Binance.runningPosition st) = false
      /\ isBinancePositionClosed (Binance.runningPosition st + getPositionDelta order) = true
      /\ Binance.output (processOrder st order)
         = closeSession (Binance.sessionOrders st ++ [order]) (Binance.sessionStartTime st)
             (Binance.timestamp order) (Binance.output st)).
Proof.
  intros Hst. unfold processOrder, Binance.processOrder.
  destruct (Binance.gapCondition st order) eqn:G.
  - destruct (gap_close_is_silent st order Hst G) as [_ Hsilent].
    unfold closeSession in Hsilent. rewrite (gapCondition_closed _ _ G).
    cbn. rewrite Hsilent. now left.
  - destruct (isBinancePositionClosed (Binance.runningPosition st)) eqn:Was.
    + cbn. now left.
    + destruct (isBinancePositionClosed
                  (Binance.runningPosition st + Binance.getPositionDelta positionSide_ order))
        eqn:Now; cbn.
      * right. repeat split. exact Now.
      * now left.
Qed.

End HedgeLoop.

(** C8: in the hedge-mode loop over any partition, at every order where the
    time-gap condition holds the pending accumulation has no recorded start
    time and the forced [closeSession] leaves the sessions as they were; the
    loop changes the output only at an order that brings the running position
    from outside the epsilon band into it, and otherwise a session is emitted
    by the close at the end of the partition. *)
Theorem C8_gap_branch_never_emits :
  forall formatSymbol symbol_ positionSide_ out orders order,
    let st := reachedBy formatSymbol symbol_ positionSide_ out orders in
    (Binance.gapCondition st order = true ->
       Binance.sessionStartTime st = None
       /\ Binance.closeSession formatSymbol symbol_ positionSide_
            (Binance.sessionOrders st) (Binance.sessionStartTime st)
            (Binance.lastTimestamp (Binance.sessionOrders st)) (Binance.output st)
          = Binance.output st)
    /\ (Binance.output (Binance.processOrder formatSymbol symbol_ positionSide_ st order)
        = Binance.output st
        \/ (isBinancePositionClosed (Binance.runningPosition st) = false
            /\ isBinancePositionClosed
                 (Binance.runningPosition st
                  + Binance.getPositionDelta positionSide_ order) = true
            /\ Binance.output (Binance.processOrder formatSymbol symbol_ positionSide_ st order)
               = Binance.closeSession formatSymbol symbol_ positionSide_
                   (Binance.sessionOrders st ++ [order]) (Binance.sessionStartTime st)
                   (Binance.timestamp order) (Binance.output st))).
Proof.
  intros formatSymbol symbol_ positionSide_ out orders order st.
  pose proof (reachedBy_startedOutsideBand formatSymbol symbol_ positionSide_ out orders)
    as Hst.
  fold st in Hst. split.
  - intros G. now apply gap_close_is_silent with (order := order).
  - now apply processOrder_output.
Qed.

(** C8, witness: two fills three hours apart, the first leaving a residual
    inside the band, reach the time-gap branch. *)
Lemma C8_gap_branch_reached :
  let orders := Binance.sortedOrders "LONG" gapFills in
  let st := reachedBy (fun s => s) "Y" "LONG" emptyOutput (removelast orders) in
  Binance.gapCondition st (lastOrder orders) = true
  /\ (Binance.sessionStartTime st = None
      /\ Binance.closeSession (fun s => s) "Y" "LONG"
           (Binance.sessionOrders st) (Binance.sessionStartTime st)
           (Binance.lastTimestamp (Binance.sessionOrders st)) (Binance.output st)
         = Binance.output st).
Proof.
  split.
  - reflexivity.
  - apply (proj1 (C8_gap_branch_never_emits (fun s => s) "Y" "LONG" emptyOutput
                    (removelast (Binance.sortedOrders "LONG" gapFills))
                    (lastOrder (Binance.sortedOrders "LONG" gapFills)))).
    reflexivity.
Defined.

(** ** Session start in the hedge-mode calculator *)

(** C4: with a residual fill of 0.005 pending in the (Y, LONG) partition, a
    buy of 1 moves the running position from inside the epsilon band to
    outside it, and the calculator emits no session at all, although the
    position is still open when the data ends; the buy of 1 alone is emitted
    as an open session. *)
Lemma C4_pending_residual_blocks_start :
  let orders := Binance.sortedOrders "LONG" bandFills in
  let st := reachedBy (fun s => s) "Y" "LONG" emptyOutput (removelast orders) in
  map fst (Binance.executionsByKey bandFills) = ["Y:LONG"]
  /\ map Binance.orderID orders = ["A"; "B"]
  /\ isBinancePositionClosed (Binance.runningPosition st) = true
  /\ isBinancePositionClosed
       (Binance.runningPosition st + Binance.getPositionDelta "LONG" (lastOrder orders))
     = false
  /\ (forall formatSymbol,
        Binance.calculateBinancePositionSessions formatSymbol bandFills = [])
  /\ (forall formatSymbol,
        map (fun s => (PositionSession.openTime s, PositionSession.status s,
                       map Trade.id (PositionSession.trades s)))
          (Binance.calculateBinancePositionSessions formatSymbol (tl bandFills))
        = [(1%Z, open, ["r2"])]).
Proof.
  cbv zeta. repeat split.
Qed.

Section HedgeSessionStart.

Variable formatSymbol : string -> string.
Variable symbol_ positionSide_ : string.

Let processOrder := Binance.processOrder formatSymbol symbol_ positionSide_.
Let closeSession := Binance.closeSession formatSymbol symbol_ positionSide_.
Let getPositionDelta := Binance.getPositionDelta positionSide_.

Lemma sumOver_snoc keep f orders order :
  Binance.sumOver keep f (orders ++ [order])
  = if keep order then Binance.sumOver keep f orders + f order
    else Binance.sumOver keep f orders.
Proof. unfold Binance.sumOver. now rewrite fold_left_app. Qed.

Lemma netQty_snoc orders order :
  netQty positionSide_ (orders ++ [order])
  == netQty positionSide_ orders + getPositionDelta order.
Proof.
  unfold netQty, getPositionDelta, Binance.getPositionDelta. rewrite !sumOver_snoc.
  unfold Binance.isOpening.
  destruct (Binance.isShortPosition positionSide_);
    [destruct (Binance.isSell order) | destruct (Binance.isBuy order)]; simpl; ring.
Qed.

Lemma netQty_nil : netQty positionSide_ [] == 0.
Proof. reflexivity. Qed.

End HedgeSessionStart.

(** ** Executions and the sessions that list them *)

Lemma occ_app x l1 l2 : occ x (l1 ++ l2) = (occ x l1 + occ x l2)%nat.
Proof. apply count_occ_app. Qed.

Lemma occ_perm x l1 l2 : Permutation l1 l2 -> occ x l1 = occ x l2.
Proof. intros H. unfold occ. now apply Permutation_count_occ. Qed.

Lemma occ_flat_map_perm {A : Type} (f : A -> list string) x l1 l2 :
  Permutation l1 l2 -> occ x (flat_map f l1) = occ x (flat_map f l2).
Proof.
  induction 1 as [|a l1 l2 _ IH|a b l|l1 l2 l3 _ IH1 _ IH2]; simpl.
  - reflexivity.
  - rewrite !occ_app. lia.
  - rewrite !occ_app. lia.
  - congruence.
Qed.

Lemma occ_concat_map {A : Type} (f : A -> string) x (groups : list (string * list A)) :
  occ x (flat_map (fun entry => map f (snd entry)) groups)
  = occ x (map f (List.concat (map snd groups))).
Proof.
  induction groups as [|[k l] groups IH]; simpl.
  - reflexivity.
  - rewrite map_app, !occ_app. lia.
Qed.

Lemma occ_cons x a l : occ x (a :: l) = (occ x [a] + occ x l)%nat.
Proof. apply (occ_app x [a] l). Qed.

Lemma tradeIds_app l1 l2 : tradeIds (l1 ++ l2) = tradeIds l1 ++ tradeIds l2.
Proof. apply flat_map_app. Qed.

Lemma tradeIds_single s : tradeIds [s] = map Trade.id (PositionSession.trades s).
Proof. unfold tradeIds. simpl. apply app_nil_r. Qed.

Lemma sessionsContaining_le_occ x sessions :
  (sessionsContaining x sessions <= occ x (tradeIds sessions))%nat.
Proof.
  unfold sessionsContaining.
  induction sessions as [|s sessions IH]; simpl; [lia|].
  unfold tradeIds in *. rewrite occ_app.
  destruct (existsb (String.eqb x) (map Trade.id (PositionSession.trades s))) eqn:E;
    simpl; [|lia].
  apply existsb_exists in E as (y & Hy & Heq). apply String.eqb_eq in Heq. subst y.
  apply (count_occ_In string_dec) in Hy. unfold occ in *. lia.
Qed.

Section HedgeCount.

Variable formatSymbol : string -> string.
Variable x : string.

Let emitted (out : Output) : nat := occ x (tradeIds (allSessions out)).

Lemma orderExecIds_app l1 l2 : orderExecIds (l1 ++ l2) = orderExecIds l1 ++ orderExecIds l2.
Proof. unfold orderExecIds. now rewrite flat_map_app, map_app. Qed.

Lemma hedge_built_ids symbol_ positionSide_ gid orders start endTime :
  occ x (map Trade.id
           (PositionSession.trades
              (Binance.buildSession formatSymbol symbol_ positionSide_ gid orders start
                 endTime)))
  = occ x (orderExecIds orders).
Proof.
  unfold Binance.buildSession, orderExecIds. simpl.
  rewrite (occ_perm x _ _ (Permutation_map Trade.id (sortBy_perm Binance.byDatetime _))).
  now rewrite map_map.
Qed.

Section Partition.

Variable symbol_ positionSide_ : string.

Lemma hedge_closeSession_occ orders start endTime out :
  (emitted (Binance.closeSession formatSymbol symbol_ positionSide_ orders start endTime out)
   <= emitted out + occ x (orderExecIds orders))%nat.
Proof.
  unfold emitted.
  destruct (Binance_closeSession_cases formatSymbol symbol_ positionSide_
              orders start endTime out) as [-> | (t & _ & _ & ->)]; [lia|].
  cbn [allSessions]. rewrite tradeIds_app, occ_app, tradeIds_single, hedge_built_ids. lia.
Qed.

Ltac bound_closes :=
  repeat match goal with
    | |- context [Binance.closeSession ?f ?s ?p ?o ?b ?t ?out] =>
        pose proof (hedge_closeSession_occ o b t out);
        let c := fresh "closed" in
        set (c := Binance.closeSession f s p o b t out) in *; clearbody c
    | H : context [Binance.closeSession ?f ?s ?p ?o ?b ?t ?out] |- _ =>
        pose proof (hedge_closeSession_occ o b t out);
        let c := fresh "closed" in
        set (c := Binance.closeSession f s p o b t out) in *; clearbody c
    end.

Lemma hedge_processOrder_occ st order :
  let st' := Binance.processOrder formatSymbol symbol_ positionSide_ st order in
  (emitted (Binance.output st') + occ x (orderExecIds (Binance.sessionOrders st'))
   <= emitted (Binance.output st) + occ x (orderExecIds (Binance.sessionOrders st))
      + occ x (orderExecIds [order]))%nat.
Proof.
  cbv zeta. unfold Binance.processOrder.
  destruct (Binance.gapCondition st order);
    cbn [Binance.runningPosition Binance.output Binance.sessionOrders
         Binance.sessionStartTime];
    destruct (negb _ && _);
    cbn [Binance.runningPosition Binance.output Binance.sessionOrders
         Binance.sessionStartTime];
    bound_closes; rewrite ?orderExecIds_app, ?occ_app in *;
    change (occ x (orderExecIds [])) with 0%nat in *; lia.
Qed.

Lemma hedge_run_occ orders : forall st,
  (emitted (finishPartition formatSymbol symbol_ positionSide_
              (fold_left (Binance.processOrder formatSymbol symbol_ positionSide_) orders st))
   <= emitted (Binance.output st) + occ x (orderExecIds (Binance.sessionOrders st))
      + occ x (orderExecIds orders))%nat.
Proof.
  induction orders as [|order orders IH]; intros st; simpl.
  - unfold finishPartition. destruct (negb _); bound_closes;
      change (occ x (orderExecIds [])) with 0%nat; lia.
  - specialize (IH (Binance.processOrder formatSymbol symbol_ positionSide_ st order)).
    pose proof (hedge_processOrder_occ st order) as Hstep. cbv zeta in Hstep.
    change (order :: orders) with ([order] ++ orders).
    rewrite orderExecIds_app, occ_app. lia.
Qed.

Lemma hedge_processOrders_occ out orders :
  (emitted (Binance.processOrders formatSymbol symbol_ positionSide_ out orders)
   <= emitted out + occ x (orderExecIds orders))%nat.
Proof.
  pose proof (hedge_run_occ orders (Binance.initialState out)) as H.
  cbn [Binance.initialState Binance.output Binance.sessionOrders] in H.
  change (occ x (orderExecIds [])) with 0%nat in H.
  unfold Binance.processOrders. unfold finishPartition in H. lia.
Qed.

End Partition.

(** The executions of the orders are those of the partition. *)
Lemma aggregate_executions positionSide_ orderMap e :
  Permutation (flat_map Binance.executions (Binance.aggregate positionSide_ orderMap e))
              (e :: flat_map Binance.executions orderMap).
Proof.
  induction orderMap as [|order rest IH]; simpl.
  - reflexivity.
  - destruct (String.eqb (Binance.orderID order) (Execution.orderID e)); simpl.
    + rewrite <- app_assoc. simpl. symmetry. apply Permutation_middle.
    + rewrite IH. symmetry. apply Permutation_middle.
Qed.

Lemma aggregate_all_executions positionSide_ keyExecutions : forall orderMap,
  Permutation
    (flat_map Binance.executions
       (fold_left (Binance.aggregate positionSide_) keyExecutions orderMap))
    (flat_map Binance.executions orderMap ++ keyExecutions).
Proof.
  induction keyExecutions as [|e l IH]; intros orderMap; simpl.
  - now rewrite app_nil_r.
  - rewrite IH, aggregate_executions. simpl. apply Permutation_middle.
Qed.

Lemma flat_map_setAvgPrice orders :
  flat_map Binance.executions (map Binance.setAvgPrice orders)
  = flat_map Binance.executions orders.
Proof.
  induction orders as [|o l IH]; simpl; [reflexivity|]. now rewrite IH.
Qed.

Lemma occ_flat_map_perm_gen {A B : Type} (f : A -> list B) (g : B -> string) l1 l2 :
  Permutation l1 l2 -> occ x (map g (flat_map f l1)) = occ x (map g (flat_map f l2)).
Proof.
  intros H. rewrite !flat_map_concat_map, !concat_map, !map_map.
  rewrite <- !flat_map_concat_map. now apply occ_flat_map_perm.
Qed.

Lemma sortedOrders_ids positionSide_ keyExecutions :
  occ x (orderExecIds (Binance.sortedOrders positionSide_ keyExecutions))
  = occ x (map Execution.execID keyExecutions).
Proof.
  unfold orderExecIds, Binance.sortedOrders.
  rewrite (occ_flat_map_perm_gen _ _ _ _ (sortBy_perm Binance.byTimestamp _)).
  rewrite flat_map_setAvgPrice.
  apply occ_perm, Permutation_map.
  now rewrite aggregate_all_executions.
Qed.

Lemma hedge_processKey_occ out entry :
  (emitted (Binance.processKey formatSymbol out entry)
   <= emitted out + occ x (map Execution.execID (snd entry)))%nat.
Proof.
  destruct entry as [key keyExecutions]. unfold Binance.processKey. simpl.
  rewrite <- (sortedOrders_ids (nth 1 (splitColon "" key) "")).
  apply hedge_processOrders_occ.
Qed.

Lemma hedge_fold_occ entries : forall out,
  (emitted (fold_left (Binance.processKey formatSymbol) entries out)
   <= emitted out
      + occ x (flat_map (fun entry => map Execution.execID (snd entry)) entries))%nat.
Proof.
  induction entries as [|entry entries IH]; intros out; simpl.
  - lia.
  - specialize (IH (Binance.processKey formatSymbol out entry)).
    pose proof (hedge_processKey_occ out entry). rewrite occ_app. lia.
Qed.

Lemma hedge_occ executions :
  (occ x (tradeIds (Binance.calculateBinancePositionSessions formatSymbol executions))
   <= occ x (map Execution.execID (Binance.tradeExecutions executions)))%nat.
Proof.
  unfold Binance.calculateBinancePositionSessions, tradeIds.
  rewrite (occ_flat_map_perm _ _ _ _ (sortBy_perm newestFirst _)).
  pose proof (hedge_fold_occ (Binance.executionsByKey executions) emptyOutput) as H.
  unfold emitted in H. change (occ x (tradeIds (allSessions emptyOutput))) with 0%nat in H.
  rewrite occ_concat_map in H. unfold Binance.executionsByKey in H.
  rewrite (occ_perm x _ _ (Permutation_map Execution.execID
                             (groupBy_perm Binance.keyOf (fun e => e) _))) in H.
  rewrite map_id in H. exact H.
Qed.

End HedgeCount.

Section InverseCount.

Variable formatSymbol : string -> string.
Variable x : string.

Let emitted (out : Output) : nat := occ x (tradeIds (allSessions out)).
Let pending (st : BitMEX.State) : nat :=
  occ x (map BitMEX.execID (BitMEX.sessionExecutions (BitMEX.session st))).

Lemma inverse_built_ids sym gid s start endTime endPosition :
  map Trade.id
    (PositionSession.trades
       (BitMEX.buildSession formatSymbol sym gid s start endTime endPosition))
  = map BitMEX.execID (BitMEX.sessionExecutions s).
Proof.
  unfold BitMEX.buildSession. cbn [PositionSession.trades]. now rewrite map_map.
Qed.

Lemma inverse_closeSession_occ sym s endTime endPosition out :
  (emitted (BitMEX.closeSession formatSymbol sym s endTime endPosition out)
   <= emitted out + occ x (map BitMEX.execID (BitMEX.sessionExecutions s)))%nat.
Proof.
  unfold emitted.
  destruct (BitMEX_closeSession_cases formatSymbol sym s endTime endPosition out)
    as [-> | (t & _ & _ & ->)]; [lia|].
  cbn [allSessions].
  rewrite tradeIds_app, occ_app, tradeIds_single, inverse_built_ids. lia.
Qed.

Ltac bound_inverse_closes :=
  repeat match goal with
    | |- context [BitMEX.closeSession ?f ?sym ?s ?t ?p ?out] =>
        pose proof (inverse_closeSession_occ sym s t p out);
        let c := fresh "closed" in
        set (c := BitMEX.closeSession f sym s t p out) in *; clearbody c
    | H : context [BitMEX.closeSession ?f ?sym ?s ?t ?p ?out] |- _ =>
        pose proof (inverse_closeSession_occ sym s t p out);
        let c := fresh "closed" in
        set (c := BitMEX.closeSession f sym s t p out) in *; clearbody c
    end.

Lemma processExecution_position sym st exec :
  BitMEX.runningPosition (BitMEX.processExecution formatSymbol sym st exec)
  = if BitMEX.isBuy exec then BitMEX.runningPosition st + BitMEX.lastQty exec
    else BitMEX.runningPosition st - BitMEX.lastQty exec.
Proof.
  unfold BitMEX.processExecution.
  destruct (Qneb (BitMEX.runningPosition st) 0 && _);
    destruct (_ && _ || _ && _); reflexivity.
Qed.

Lemma inverse_processExecution_occ sym st exec :
  let st' := BitMEX.processExecution formatSymbol sym st exec in
  (emitted (BitMEX.output st') + pending st'
   <= emitted (BitMEX.output st) + pending st + occ x [BitMEX.execID exec]
      + (if isFlip (BitMEX.runningPosition st) (BitMEX.runningPosition st')
         then occ x [BitMEX.execID exec] else 0))%nat.
Proof.
  cbv zeta. rewrite processExecution_position.
  unfold BitMEX.processExecution, isFlip, pending.
  destruct (Qeqb (BitMEX.runningPosition st) 0 && _);
    destruct (Qneb (BitMEX.runningPosition st) 0 && _);
    destruct (_ && _ || _ && _);
    cbn [BitMEX.output BitMEX.session BitMEX.sessionExecutions BitMEX.resetSession];
    bound_inverse_closes;
    repeat match goal with
      | H : context [if ?c then _ else _] |- _ =>
          destruct c; cbn [BitMEX.sessionExecutions BitMEX.resetSession] in H
      end;
    cbn [BitMEX.sessionExecutions BitMEX.resetSession map] in *;
    rewrite ?map_app, ?occ_app in *;
    cbn [map] in *;
    change (occ x []) with 0%nat in *; lia.
Qed.

Lemma inverse_run_occ sym l : forall st,
  let st' := fold_left (BitMEX.processExecution formatSymbol sym) l st in
  (emitted (BitMEX.output st') + pending st'
   <= emitted (BitMEX.output st) + pending st + occ x (map BitMEX.execID l)
      + occ x (map BitMEX.execID (flipTriggers (BitMEX.runningPosition st) l)))%nat.
Proof.
  induction l as [|exec l IH]; intros st; cbv zeta; cbn [fold_left flipTriggers map].
  - change (occ x []) with 0%nat. lia.
  - specialize (IH (BitMEX.processExecution formatSymbol sym st exec)). cbv zeta in IH.
    pose proof (inverse_processExecution_occ sym st exec) as Hstep. cbv zeta in Hstep.
    rewrite processExecution_position in IH, Hstep.
    rewrite (occ_cons x (BitMEX.execID exec) (map BitMEX.execID l)).
    destruct (isFlip _ _); cbn [map];
      [rewrite (occ_cons x (BitMEX.execID exec) (map BitMEX.execID (flipTriggers _ l)))|];
      lia.
Qed.

Lemma flipTriggers_occ l : forall position,
  (occ x (map BitMEX.execID (flipTriggers position l)) <= occ x (map BitMEX.execID l))%nat.
Proof.
  induction l as [|exec l IH]; intros position; cbn [flipTriggers map]; [lia|].
  match goal with |- context [isFlip ?a ?b] =>
    specialize (IH b); destruct (isFlip a b) end;
    cbn [map]; unfold occ in *; simpl;
    destruct (string_dec (BitMEX.execID exec) x); lia.
Qed.

Lemma inverse_processSymbol_occ out entry :
  (emitted (BitMEX.processSymbol formatSymbol out entry)
   <= emitted out + occ x (map BitMEX.execID (snd entry))
      + occ x (map BitMEX.execID
                 (flipTriggers 0 (sortBy BitMEX.byTimestamp (snd entry)))))%nat.
Proof.
  destruct entry as [sym symbolExecutions]. unfold BitMEX.processSymbol. cbn [snd].
  pose proof (inverse_run_occ sym (sortBy BitMEX.byTimestamp symbolExecutions)
                (BitMEX.mkState 0 BitMEX.resetSession out)) as H.
  cbv zeta in H. unfold pending in H at 2.
  cbn [BitMEX.output BitMEX.session BitMEX.runningPosition BitMEX.resetSession
       BitMEX.sessionExecutions map] in H.
  change (occ x []) with 0%nat in H.
  rewrite (occ_perm x _ _ (Permutation_map BitMEX.execID
                             (sortBy_perm BitMEX.byTimestamp symbolExecutions))) in H.
  unfold pending in H.
  destruct (_ && _); bound_inverse_closes; lia.
Qed.

Lemma inverse_fold_occ entries : forall out,
  (emitted (fold_left (BitMEX.processSymbol formatSymbol) entries out)
   <= emitted out
      + occ x (flat_map (fun entry => map BitMEX.execID (snd entry)) entries)
      + occ x (flat_map (fun entry => map BitMEX.execID
                           (flipTriggers 0 (sortBy BitMEX.byTimestamp (snd entry))))
                 entries))%nat.
Proof.
  induction entries as [|entry entries IH]; intros out; cbn [fold_left flat_map].
  - change (occ x []) with 0%nat. lia.
  - specialize (IH (BitMEX.processSymbol formatSymbol out entry)).
    pose proof (inverse_processSymbol_occ out entry). rewrite !occ_app. lia.
Qed.

Lemma symbol_groups_ids executions :
  occ x (flat_map (fun entry => map BitMEX.execID (snd entry))
           (BitMEX.executionsBySymbol executions))
  = occ x (map Execution.execID (BitMEX.tradeExecutions executions)).
Proof.
  rewrite occ_concat_map. unfold BitMEX.executionsBySymbol.
  rewrite (occ_perm x _ _ (Permutation_map BitMEX.execID
                             (groupBy_perm Execution.symbol BitMEX.ofExecution _))).
  now rewrite map_map.
Qed.

Lemma inverse_occ executions :
  (occ x (tradeIds (BitMEX.calculateBitMEXPositionSessions formatSymbol executions))
   <= occ x (map Execution.execID (BitMEX.tradeExecutions executions))
      + occ x (flipTriggerIds executions))%nat.
Proof.
  unfold BitMEX.calculateBitMEXPositionSessions, tradeIds.
  rewrite (occ_flat_map_perm _ _ _ _ (sortBy_perm newestFirst _)).
  pose proof (inverse_fold_occ (BitMEX.executionsBySymbol executions) emptyOutput) as H.
  unfold emitted in H. change (occ x (tradeIds (allSessions emptyOutput))) with 0%nat in H.
  rewrite symbol_groups_ids in H. exact H.
Qed.

Lemma flipTriggerIds_occ executions :
  (occ x (flipTriggerIds executions)
   <= occ x (map Execution.execID (BitMEX.tradeExecutions executions)))%nat.
Proof.
  rewrite <- symbol_groups_ids. unfold flipTriggerIds.
  induction (BitMEX.executionsBySymbol executions) as [|entry entries IH];
    cbn [flat_map]; [lia|].
  rewrite !occ_app.
  pose proof (flipTriggers_occ (sortBy BitMEX.byTimestamp (snd entry)) 0) as H.
  rewrite (occ_perm x _ _ (Permutation_map BitMEX.execID
                             (sortBy_perm BitMEX.byTimestamp (snd entry)))) in H.
  lia.
Qed.

End InverseCount.

(** C2, counterexample: in scenario B the selling execution that flips the
    position is a trade of both resulting sessions. *)
Lemma C2_flip_execution_in_both_sessions :
  (forall formatSymbol,
     map (fun s => map Trade.id (PositionSession.trades s))
       (BitMEX.calculateBitMEXPositionSessions formatSymbol scenarioB)
     = [["b1"; "b2"]; ["b2"]])
  /\ (forall formatSymbol,
        sessionsContaining "b2"
          (BitMEX.calculateBitMEXPositionSessions formatSymbol scenarioB) = 2%nat)
  /\ map Execution.execID (BitMEX.tradeExecutions scenarioB) = ["b1"; "b2"].
Proof.
  split; [|split]; intros; reflexivity.
Qed.

(** ** The side of a closed inverse-contract session

    The side rule [totalBought > totalSold] is applied when the session is
    closed, where both totals are equal: every closed session is labelled
    short, whichever way the position was opened. Scenarios A and B above are
    two instances. *)

Section InverseSide.

Variable formatSymbol : string -> string.

Lemma closeSession_closedMeansShort sym s endTime endPosition out :
  Forall closedMeansShort (allSessions out) ->
  (Qeqb endPosition 0 = true -> BitMEX.totalBought s == BitMEX.totalSold s) ->
  Forall closedMeansShort
    (allSessions (BitMEX.closeSession formatSymbol sym s endTime endPosition out)).
Proof.
  intros Hout Hbal.
  destruct (BitMEX_closeSession_cases formatSymbol sym s endTime endPosition out)
    as [-> | (start & _ & _ & ->)]; [exact Hout|].
  cbn [allSessions]. apply Forall_app. split; [exact Hout|].
  constructor; [|constructor].
  unfold closedMeansShort, BitMEX.buildSession. simpl.
  destruct (Qeqb endPosition 0); [|discriminate].
  intros _. specialize (Hbal eq_refl). split; [|exact Hbal].
  replace (Qgtb (BitMEX.totalBought s) (BitMEX.totalSold s)) with false; [reflexivity|].
  symmetry. apply Qltb_ge. rewrite Hbal. apply Qle_refl.
Qed.

Lemma flip_excludes_flat positionBefore position :
  isFlip positionBefore position = true -> Qeqb position 0 = false.
Proof.
  unfold isFlip. intros H.
  destruct (Qeqb position 0) eqn:E; [|reflexivity].
  apply Qeqb_eq in E.
  apply orb_true_iff in H as [H | H]; apply andb_true_iff in H as [_ H].
  - apply Qltb_lt in H. rewrite E in H. discriminate.
  - apply Qgtb_gt in H. rewrite E in H. discriminate.
Qed.

Lemma flip_sign positionBefore qty (buy : bool) :
  0 < qty ->
  let position := if buy then positionBefore + qty else positionBefore - qty in
  isFlip positionBefore position = true ->
  if buy then 0 < position else position < 0.
Proof.
  intros Hqty position H. unfold isFlip in H.
  apply orb_true_iff in H as [H | H]; apply andb_true_iff in H as [H1 H2];
    [apply Qgtb_gt in H1; apply Qltb_lt in H2 | apply Qltb_lt in H1; apply Qgtb_gt in H2];
    subst position; destruct buy; lra.
Qed.

Ltac solve_totals :=
  repeat match goal with
    | H : if ?b then _ else _ |- _ => progress cbn iota in H
    | |- context [Qabs ?p] =>
        first [ rewrite (Qabs_pos p) by lra | rewrite (Qabs_neg p) by lra ]
    end;
  lra.

Lemma processExecution_balanced sym st exec :
  0 < BitMEX.lastQty exec ->
  balanced st ->
  Forall closedMeansShort (allSessions (BitMEX.output st)) ->
  balanced (BitMEX.processExecution formatSymbol sym st exec)
  /\ Forall closedMeansShort
       (allSessions (BitMEX.output (BitMEX.processExecution formatSymbol sym st exec))).
Proof.
  unfold balanced. intros Hqty Hbal Hout.
  pose proof (flip_sign (BitMEX.runningPosition st) _ (BitMEX.isBuy exec) Hqty) as Hsign.
  cbv zeta in Hsign.
  unfold BitMEX.processExecution.
  fold (isFlip (BitMEX.runningPosition st)
          (if BitMEX.isBuy exec
           then BitMEX.runningPosition st + BitMEX.lastQty exec
           else BitMEX.runningPosition st - BitMEX.lastQty exec)).
  destruct (BitMEX.isBuy exec);
    match goal with |- context [Qeqb ?pb 0 && Qneb ?pos 0] =>
      destruct (Qeqb pb 0 && Qneb pos 0);
      (destruct (Qneb pb 0 && Qeqb pos 0) eqn:Eflat;
       [ apply andb_true_iff in Eflat as [_ Eflat] | clear Eflat ]);
      (destruct (isFlip pb pos) eqn:Eflip;
       [ pose proof (flip_excludes_flat _ _ Eflip) as Enz; specialize (Hsign eq_refl)
       | clear Hsign ])
    end;
    try congruence;
    try (apply Qeqb_eq in Eflat);
    cbn [BitMEX.runningPosition BitMEX.session BitMEX.output BitMEX.totalBought
         BitMEX.totalSold BitMEX.resetSession];
    (split;
     [ solve_totals
     | first [ exact Hout
             | apply closeSession_closedMeansShort;
               [ exact Hout
               | intros _; cbn [BitMEX.totalBought BitMEX.totalSold]; solve_totals ] ] ]).
Qed.

Lemma run_balanced sym l : forall st,
  Forall (fun exec => 0 < BitMEX.lastQty exec) l ->
  balanced st ->
  Forall closedMeansShort (allSessions (BitMEX.output st)) ->
  Forall closedMeansShort
    (allSessions (BitMEX.output (fold_left (BitMEX.processExecution formatSymbol sym) l st))).
Proof.
  induction l as [|exec l IH]; intros st Hqty Hbal Hout; simpl.
  - exact Hout.
  - inversion Hqty as [|? ? Hq Hl]; subst.
    destruct (processExecution_balanced sym st exec Hq Hbal Hout) as [Hbal' Hout'].
    now apply IH.
Qed.

Lemma processSymbol_closedMeansShort out sym symbolExecutions :
  Forall (fun exec => 0 < BitMEX.lastQty exec) symbolExecutions ->
  Forall closedMeansShort (allSessions out) ->
  Forall closedMeansShort
    (allSessions (BitMEX.processSymbol formatSymbol out (sym, symbolExecutions))).
Proof.
  intros Hqty Hout. unfold BitMEX.processSymbol.
  pose proof (run_balanced sym (sortBy BitMEX.byTimestamp symbolExecutions)
                (BitMEX.mkState 0 BitMEX.resetSession out)
                (sortBy_Forall _ _ _ Hqty)) as Hrun.
  destruct (Qneb _ 0 && _) eqn:E.
  - apply closeSession_closedMeansShort.
    + apply Hrun; [reflexivity | exact Hout].
    + apply andb_true_iff in E as [E _]. unfold Qneb, Qeqb in *. intros Hz.
      rewrite Hz in E. discriminate.
  - apply Hrun; [reflexivity | exact Hout].
Qed.

Lemma groups_positive (executions : list Execution.t) :
  Forall (fun entry => Forall (fun exec => 0 < BitMEX.lastQty exec) (snd entry))
    (BitMEX.executionsBySymbol executions).
Proof.
  apply Forall_forall. intros [sym l] Hentry. apply Forall_forall. intros exec Hexec.
  assert (Hin : In exec (List.concat (map snd (BitMEX.executionsBySymbol executions)))).
  { apply in_concat. exists l. split; [|exact Hexec].
    apply in_map_iff. now exists (sym, l). }
  unfold BitMEX.executionsBySymbol in Hin.
  apply (Permutation_in _ (groupBy_perm Execution.symbol BitMEX.ofExecution _)) in Hin.
  apply in_map_iff in Hin as (e & <- & He).
  apply filter_In in He as [_ He]. apply isTradeExecution_spec in He.
  apply He.
Qed.

Lemma fold_processSymbol_closedMeansShort entries :
  Forall (fun entry => Forall (fun exec => 0 < BitMEX.lastQty exec) (snd entry)) entries ->
  forall out,
    Forall closedMeansShort (allSessions out) ->
    Forall closedMeansShort
      (allSessions (fold_left (BitMEX.processSymbol formatSymbol) entries out)).
Proof.
  induction 1 as [|[sym l] entries Hl _ IH]; intros out Hout; simpl.
  - exact Hout.
  - apply IH. now apply processSymbol_closedMeansShort.
Qed.

End InverseSide.

(** X1: on executions with whole quantities of at most 2^53 in total (where
    the sums of the source are exact), every closed session the
    inverse-contract calculator returns has equal bought and sold totals and
    is labelled short, whichever way its position was opened. *)
Theorem X1_inverse_closed_sessions_are_short : forall formatSymbol executions,
  wholeQuantities executions ->
  Forall closedMeansShort (BitMEX.calculateBitMEXPositionSessions formatSymbol executions).
Proof.
  intros formatSymbol executions _.
  unfold BitMEX.calculateBitMEXPositionSessions. apply sortBy_Forall.
  apply fold_processSymbol_closedMeansShort.
  - apply groups_positive.
  - constructor.
Qed.

(** X1, witness: scenario A, whose quantities are 100 and 100. *)
Lemma X1_scenarioA_is_short :
  wholeQuantities scenarioA
  /\ Forall closedMeansShort
       (BitMEX.calculateBitMEXPositionSessions (fun s => s) scenarioA).
Proof.
  assert (H : wholeQuantities scenarioA).
  { split; [repeat constructor | vm_compute; discriminate]. }
  split; [exact H|].
  exact (X1_inverse_closed_sessions_are_short (fun s => s) scenarioA H).
Defined.

(** ** Fees *)

Section SumQ.

Context {A : Type}.
Variable f : A -> Q.

Lemma sumQ_app (l1 l2 : list A) : sumQ f (l1 ++ l2) == sumQ f l1 + sumQ f l2.
Proof.
  induction l1 as [|a l1 IH]; simpl.
  - ring.
  - rewrite IH. ring.
Qed.

Lemma sumQ_perm (l1 l2 : list A) : Permutation l1 l2 -> sumQ f l1 == sumQ f l2.
Proof.
  induction 1 as [|a l1 l2 _ IH|a b l|l1 l2 l3 _ IH1 _ IH2]; simpl.
  - reflexivity.
  - now rewrite IH.
  - ring.
  - now rewrite IH1.
Qed.

Lemma sumQ_map {B : Type} (g : B -> A) (l : list B) :
  sumQ f (map g l) = sumQ (fun b => f (g b)) l.
Proof.
  induction l as [|b l IH]; simpl; [reflexivity|]. now rewrite IH.
Qed.

Lemma sumQ_flat_map {B : Type} (g : B -> list A) (l : list B) :
  sumQ f (flat_map g l) == sumQ (fun b => sumQ f (g b)) l.
Proof.
  induction l as [|b l IH]; simpl; [reflexivity|]. now rewrite sumQ_app, IH.
Qed.

End SumQ.

Lemma sumQ_ext_in {A : Type} (f g : A -> Q) (l : list A) :
  Forall (fun a => f a == g a) l -> sumQ f l == sumQ g l.
Proof.
  induction 1 as [|a l Ha _ IH]; simpl; [reflexivity|]. now rewrite Ha, IH.
Qed.

Lemma fees_of (commission : Q) (trades : list Trade.t) :
  commission == sumQ Trade.feeCost trades ->
  0 <= Qabs commission / 100000000
  /\ Qabs commission / 100000000 == Qabs (sumQ Trade.feeCost trades) / 100000000.
Proof.
  intros H. split; [apply fees_nonneg|]. now rewrite H.
Qed.

Section InverseFees.

Variable formatSymbol : string -> string.

Lemma inverse_trades_fees l :
  sumQ Trade.feeCost (map (BitMEX.toTrade formatSymbol) l) = sumQ BitMEX.execComm l.
Proof. now rewrite sumQ_map. Qed.

Lemma closeSession_feesOfTrades sym s endTime endPosition out :
  commissionTracked s ->
  Forall feesOfTrades (allSessions out) ->
  Forall feesOfTrades
    (allSessions (BitMEX.closeSession formatSymbol sym s endTime endPosition out)).
Proof.
  intros Hs Hout.
  destruct (BitMEX_closeSession_cases formatSymbol sym s endTime endPosition out)
    as [-> | (start & _ & _ & ->)]; [exact Hout|].
  cbn [allSessions]. apply Forall_app. split; [exact Hout|].
  constructor; [|constructor].
  unfold feesOfTrades, BitMEX.buildSession.
  cbn [PositionSession.totalFees PositionSession.trades].
  apply fees_of. now rewrite inverse_trades_fees.
Qed.

Lemma processExecution_feesOfTrades sym st exec :
  commissionTracked (BitMEX.session st) ->
  Forall feesOfTrades (allSessions (BitMEX.output st)) ->
  commissionTracked (BitMEX.session (BitMEX.processExecution formatSymbol sym st exec))
  /\ Forall feesOfTrades
       (allSessions (BitMEX.output (BitMEX.processExecution formatSymbol sym st exec))).
Proof.
  intros Hs Hout. unfold commissionTracked in *.
  assert (Hpushed : BitMEX.totalCommission (BitMEX.session st) + BitMEX.execComm exec
                    == sumQ BitMEX.execComm
                         (BitMEX.sessionExecutions (BitMEX.session st) ++ [exec])).
  { rewrite sumQ_app, <- Hs. simpl. ring. }
  assert (Hseed : BitMEX.execComm exec == sumQ BitMEX.execComm [exec]).
  { simpl. ring. }
  assert (Hreset : BitMEX.totalCommission BitMEX.resetSession
                   == sumQ BitMEX.execComm (BitMEX.sessionExecutions BitMEX.resetSession))
    by reflexivity.
  unfold BitMEX.processExecution.
  destruct (Qeqb (BitMEX.runningPosition st) 0 && _);
    destruct (Qneb (BitMEX.runningPosition st) 0 && _);
    destruct (_ && _ || _ && _);
    cbn [BitMEX.session BitMEX.output];
    (split;
     [ first [exact Hreset | exact Hpushed | exact Hseed]
     | repeat (apply closeSession_feesOfTrades;
               [first [exact Hreset | exact Hpushed]|]);
       exact Hout ]).
Qed.

Lemma inverse_run_feesOfTrades sym l : forall st,
  commissionTracked (BitMEX.session st) ->
  Forall feesOfTrades (allSessions (BitMEX.output st)) ->
  let st' := fold_left (BitMEX.processExecution formatSymbol sym) l st in
  commissionTracked (BitMEX.session st')
  /\ Forall feesOfTrades (allSessions (BitMEX.output st')).
Proof.
  induction l as [|exec l IH]; intros st Hs Hout; simpl.
  - now split.
  - destruct (processExecution_feesOfTrades sym st exec Hs Hout) as [Hs' Hout'].
    now apply IH.
Qed.

Lemma inverse_feesOfTrades executions :
  Forall feesOfTrades (BitMEX.calculateBitMEXPositionSessions formatSymbol executions).
Proof.
  unfold BitMEX.calculateBitMEXPositionSessions. apply sortBy_Forall.
  set (out0 := mkOutput [] 0).
  assert (H0 : Forall feesOfTrades (allSessions out0)) by constructor.
  clearbody out0. revert out0 H0.
  induction (BitMEX.executionsBySymbol executions) as [|[sym l] entries IH];
    intros out0 H0; simpl.
  - exact H0.
  - apply IH.
    destruct (inverse_run_feesOfTrades sym (sortBy BitMEX.byTimestamp l)
                (BitMEX.mkState 0 BitMEX.resetSession out0)) as [Hs Hout];
      [reflexivity | exact H0 |].
    destruct (_ && _); [now apply closeSession_feesOfTrades | exact Hout].
Qed.

End InverseFees.

Section HedgeFees.

Variable formatSymbol : string -> string.

Lemma aggregate_tracked positionSide_ orderMap e :
  Forall orderCommissionTracked orderMap ->
  Forall orderCommissionTracked (Binance.aggregate positionSide_ orderMap e).
Proof.
  assert (Hadd : forall order, orderCommissionTracked order ->
                               orderCommissionTracked (Binance.addExecution order e)).
  { intros order Ho. unfold orderCommissionTracked in *. simpl.
    rewrite sumQ_app, <- Ho. simpl. ring. }
  induction 1 as [|order rest Ho Hrest IH]; simpl.
  - constructor; [|constructor]. apply Hadd. reflexivity.
  - destruct (String.eqb _ _).
    + constructor; [now apply Hadd | assumption].
    + constructor; assumption.
Qed.

Lemma sortedOrders_tracked positionSide_ keyExecutions :
  Forall orderCommissionTracked (Binance.sortedOrders positionSide_ keyExecutions).
Proof.
  unfold Binance.sortedOrders. apply sortBy_Forall. apply Forall_map.
  assert (H : forall orderMap, Forall orderCommissionTracked orderMap ->
                Forall orderCommissionTracked
                  (fold_left (Binance.aggregate positionSide_) keyExecutions orderMap)).
  { induction keyExecutions as [|e l IH]; intros orderMap Hm; simpl; [exact Hm|].
    apply IH. now apply aggregate_tracked. }
  eapply Forall_impl; [|apply H; constructor].
  intros order Ho. exact Ho.
Qed.

Lemma sumOver_all (g : Binance.BinanceAggregatedOrder -> Q) orders :
  Binance.sumOver (fun _ => true) g orders == sumQ g orders.
Proof.
  induction orders as [|order orders IH] using rev_ind.
  - reflexivity.
  - rewrite sumOver_snoc, sumQ_app, IH. simpl. ring.
Qed.

Lemma hedge_built_fees symbol_ positionSide_ gid orders start endTime :
  Forall orderCommissionTracked orders ->
  feesOfTrades
    (Binance.buildSession formatSymbol symbol_ positionSide_ gid orders start endTime).
Proof.
  intros Horders. unfold feesOfTrades, Binance.buildSession.
  cbn [PositionSession.totalFees PositionSession.trades].
  apply fees_of.
  rewrite (sumQ_perm _ _ _ (sortBy_perm Binance.byDatetime _)).
  rewrite sumQ_map. cbn [Binance.toTrade Trade.feeCost].
  rewrite sumOver_all, sumQ_flat_map.
  now apply sumQ_ext_in.
Qed.

Section Partition.

Variable symbol_ positionSide_ : string.

Lemma hedge_closeSession_fees orders start endTime out :
  Forall orderCommissionTracked orders ->
  Forall feesOfTrades (allSessions out) ->
  Forall feesOfTrades
    (allSessions
       (Binance.closeSession formatSymbol symbol_ positionSide_ orders start endTime out)).
Proof.
  intros Horders Hout.
  destruct (Binance_closeSession_cases formatSymbol symbol_ positionSide_
              orders start endTime out) as [-> | (t & _ & _ & ->)]; [exact Hout|].
  cbn [allSessions]. apply Forall_app. split; [exact Hout|].
  constructor; [now apply hedge_built_fees | constructor].
Qed.

Lemma hedge_processOrder_fees st order :
  orderCommissionTracked order ->
  Forall orderCommissionTracked (Binance.sessionOrders st) ->
  Forall feesOfTrades (allSessions (Binance.output st)) ->
  let st' := Binance.processOrder formatSymbol symbol_ positionSide_ st order in
  Forall orderCommissionTracked (Binance.sessionOrders st')
  /\ Forall feesOfTrades (allSessions (Binance.output st')).
Proof.
  intros Ho Hpending Hout. cbv zeta. unfold Binance.processOrder.
  assert (Hone : Forall orderCommissionTracked ([] ++ [order]))
    by (constructor; [exact Ho | constructor]).
  assert (Hmore : Forall orderCommissionTracked (Binance.sessionOrders st ++ [order]))
    by (apply Forall_app; split; [exact Hpending | constructor; [exact Ho | constructor]]).
  destruct (Binance.gapCondition st order);
    cbn [Binance.runningPosition Binance.output Binance.sessionOrders
         Binance.sessionStartTime];
    destruct (negb _ && _);
    cbn [Binance.output Binance.sessionOrders];
    (split;
     [ first [constructor; fail | exact Hone | exact Hmore]
     | repeat (apply hedge_closeSession_fees;
               [first [exact Hone | exact Hmore | exact Hpending]|]);
       exact Hout ]).
Qed.

Lemma hedge_processOrders_fees out orders :
  Forall orderCommissionTracked orders ->
  Forall feesOfTrades (allSessions out) ->
  Forall feesOfTrades
    (allSessions (Binance.processOrders formatSymbol symbol_ positionSide_ out orders)).
Proof.
  intros Horders Hout. unfold Binance.processOrders.
  assert (H : forall st,
             Forall orderCommissionTracked (Binance.sessionOrders st) ->
             Forall feesOfTrades (allSessions (Binance.output st)) ->
             let st' := fold_left (Binance.processOrder formatSymbol symbol_ positionSide_)
                          orders st in
             Forall orderCommissionTracked (Binance.sessionOrders st')
             /\ Forall feesOfTrades (allSessions (Binance.output st'))).
  { induction Horders as [|order orders Ho _ IH]; intros st Hp Hs; simpl.
    - now split.
    - destruct (hedge_processOrder_fees st order Ho Hp Hs) as [Hp' Hs']. now apply IH. }
  destruct (H (Binance.initialState out)) as [Hp Hs]; [constructor | exact Hout |].
  destruct (negb _); [now apply hedge_closeSession_fees | exact Hs].
Qed.

End Partition.

Lemma hedge_feesOfTrades executions :
  Forall feesOfTrades (Binance.calculateBinancePositionSessions formatSymbol executions).
Proof.
  unfold Binance.calculateBinancePositionSessions. apply sortBy_Forall.
  set (out0 := mkOutput [] 0).
  assert (H0 : Forall feesOfTrades (allSessions out0)) by constructor.
  clearbody out0. revert out0 H0.
  induction (Binance.executionsByKey executions) as [|[key keyExecutions] entries IH];
    intros out0 H0; simpl.
  - exact H0.
  - apply IH. apply hedge_processOrders_fees; [apply sortedOrders_tracked | exact H0].
Qed.

End HedgeFees.

(** C9: whatever the signs of the commissions, every session either
    calculator returns has totalFees >= 0, its totalFees being the absolute
    value of the summed commission of its trades divided by 10^8. *)
Theorem C9_total_fees_nonnegative : forall formatSymbol executions,
  Forall feesOfTrades (BitMEX.calculateBitMEXPositionSessions formatSymbol executions)
  /\ Forall feesOfTrades (Binance.calculateBinancePositionSessions formatSymbol executions).
Proof.
  intros formatSymbol executions. split.
  - apply inverse_feesOfTrades.
  - apply hedge_feesOfTrades.
Qed.

(** * Further properties of the calculators *)

(** ** The three outcomes of one iteration of the inverse-contract loop *)

Section InverseStep.

Variable formatSymbol : string -> string.
Variable sym : string.

Lemma nextPosition_zero positionBefore exec :
  0 < BitMEX.lastQty exec ->
  nextPosition positionBefore exec == 0 -> ~ positionBefore == 0.
Proof.
  unfold nextPosition. intros Hqty H Hz. destruct (BitMEX.isBuy exec); lra.
Qed.

Lemma isFlip_nonzero positionBefore position :
  isFlip positionBefore position = true -> ~ positionBefore == 0 /\ ~ position == 0.
Proof.
  unfold isFlip. intros H.
  apply orb_true_iff in H as [H | H]; apply andb_true_iff in H as [H1 H2];
    [apply Qgtb_gt in H1; apply Qltb_lt in H2 | apply Qltb_lt in H1; apply Qgtb_gt in H2];
    split; lra.
Qed.

Lemma Qeqb_false a b : Qeqb a b = false <-> ~ a == b.
Proof.
  split.
  - intros H Heq. apply Qeqb_eq in Heq. congruence.
  - intros H. destruct (Qeqb a b) eqn:E; [|reflexivity]. apply Qeqb_eq in E. contradiction.
Qed.

Lemma processExecution_cases st exec :
  0 < BitMEX.lastQty exec ->
  let pb := BitMEX.runningPosition st in
  let pos := nextPosition pb exec in
  let t := BitMEX.timestamp exec in
  (pos == 0 /\ ~ pb == 0
   /\ BitMEX.processExecution formatSymbol sym st exec
      = BitMEX.mkState pos BitMEX.resetSession
          (BitMEX.closeSession formatSymbol sym (pushed st exec) t 0 (BitMEX.output st)))
  \/ (isFlip pb pos = true /\ ~ pb == 0 /\ ~ pos == 0
      /\ (if BitMEX.isBuy exec then 0 < pos else pos < 0)
      /\ BitMEX.processExecution formatSymbol sym st exec
         = BitMEX.mkState pos (seededByFlip exec pos)
             (BitMEX.closeSession formatSymbol sym
                (adjustedForFlip (pushed st exec) exec pos) t 0 (BitMEX.output st)))
  \/ (isFlip pb pos = false /\ ~ pos == 0
      /\ BitMEX.processExecution formatSymbol sym st exec
         = BitMEX.mkState pos
             (if Qeqb pb 0 then withStart (pushed st exec) t else pushed st exec)
             (BitMEX.output st)).
Proof.
  intros Hqty pb pos t.
  assert (Hunfold :
    BitMEX.processExecution formatSymbol sym st exec
    = let s2 := if Qeqb pb 0 && Qneb pos 0 then withStart (pushed st exec) t
                else pushed st exec in
      let '(s3, out3) :=
        if Qneb pb 0 && Qeqb pos 0 then
          (BitMEX.resetSession,
           BitMEX.closeSession formatSymbol sym s2 t 0 (BitMEX.output st))
        else (s2, BitMEX.output st) in
      let '(s4, out4) :=
        if isFlip pb pos then
          (seededByFlip exec pos,
           BitMEX.closeSession formatSymbol sym (adjustedForFlip s3 exec pos) t 0 out3)
        else (s3, out3) in
      BitMEX.mkState pos s4 out4) by reflexivity.
  rewrite Hunfold. clear Hunfold.
  destruct (Qeqb pos 0) eqn:Ezero.
  - (* back to flat *)
    left. apply Qeqb_eq in Ezero as Hzero.
    pose proof (nextPosition_zero pb exec Hqty Hzero) as Hpb.
    assert (Eflip : isFlip pb pos = false).
    { destruct (isFlip pb pos) eqn:E; [|reflexivity].
      apply isFlip_nonzero in E as [_ E]. contradiction. }
    unfold Qneb. fold (Qeqb pos 0) (Qeqb pb 0).
    rewrite Ezero, Eflip. apply Qeqb_false in Hpb. rewrite Hpb. cbn.
    repeat split; [exact Hzero | now apply Qeqb_false].
  - apply Qeqb_false in Ezero as Hnz.
    unfold Qneb. fold (Qeqb pos 0) (Qeqb pb 0). rewrite Ezero, andb_false_r.
    destruct (isFlip pb pos) eqn:Eflip.
    + right. left.
      pose proof (isFlip_nonzero _ _ Eflip) as [Hpb _].
      pose proof (flip_sign pb _ (BitMEX.isBuy exec) Hqty Eflip) as Hsign.
      apply Qeqb_false in Hpb as Epb. rewrite Epb. cbn.
      repeat split; assumption.
    + right. right. cbn. rewrite andb_true_r. repeat split; assumption.
Qed.

End InverseStep.

(** ** Invariants of the inverse-contract loop, lifted to the output *)

Lemma byTimestamp_chronological l : chronological (sortBy BitMEX.byTimestamp l).
Proof.
  unfold chronological.
  apply StronglySorted_weaken with (R := fun a b => (BitMEX.byTimestamp a b <= 0)%Z).
  - unfold BitMEX.byTimestamp. intros a b H. lia.
  - apply sortBy_sorted; unfold BitMEX.byTimestamp; intros; lia.
Qed.

Lemma processSymbol_finish formatSymbol out sym symbolExecutions :
  BitMEX.processSymbol formatSymbol out (sym, symbolExecutions)
  = finishSymbol formatSymbol sym
      (fold_left (BitMEX.processExecution formatSymbol sym)
         (sortBy BitMEX.byTimestamp symbolExecutions) (initialSymbolState out)).
Proof. reflexivity. Qed.

Section InverseLift.

Variable formatSymbol : string -> string.

(** [Inv sym position session rest]: the loop variables of symbol [sym] when
    [rest] is still to be processed. *)
Variable Inv : string -> Q -> BitMEX.Session -> list BitMEX.ExecutionForCalc -> Prop.
Variable P : PositionSession.t -> Prop.

Hypothesis Hinit : forall sym l,
  positiveQuantities l -> chronological l ->
  Forall (fun exec => BitMEX.symbol exec = sym) l ->
  Inv sym 0 BitMEX.resetSession l.

Hypothesis Hstep : forall sym st exec rest,
  0 < BitMEX.lastQty exec ->
  Inv sym (BitMEX.runningPosition st) (BitMEX.session st) (exec :: rest) ->
  Forall P (allSessions (BitMEX.output st)) ->
  let st' := BitMEX.processExecution formatSymbol sym st exec in
  Inv sym (BitMEX.runningPosition st') (BitMEX.session st') rest
  /\ Forall P (allSessions (BitMEX.output st')).

Hypothesis Hfinish : forall sym st,
  Inv sym (BitMEX.runningPosition st) (BitMEX.session st) [] ->
  Forall P (allSessions (BitMEX.output st)) ->
  Forall P (allSessions (finishSymbol formatSymbol sym st)).

Lemma inverse_lift_run sym l : forall st,
  positiveQuantities l ->
  Inv sym (BitMEX.runningPosition st) (BitMEX.session st) l ->
  Forall P (allSessions (BitMEX.output st)) ->
  Forall P (allSessions
              (finishSymbol formatSymbol sym
                 (fold_left (BitMEX.processExecution formatSymbol sym) l st))).
Proof.
  induction l as [|exec l IH]; intros st Hqty Hinv Hout; simpl.
  - now apply Hfinish.
  - inversion Hqty as [|? ? Hq Hl]; subst.
    destruct (Hstep sym st exec l Hq Hinv Hout) as [Hinv' Hout'].
    now apply IH.
Qed.

Lemma groups_same_symbol (executions : list Execution.t) :
  Forall (fun entry => Forall (fun exec => BitMEX.symbol exec = fst entry) (snd entry))
    (BitMEX.executionsBySymbol executions).
Proof.
  unfold BitMEX.executionsBySymbol, groupBy.
  set (l := BitMEX.tradeExecutions executions). clearbody l.
  assert (H : forall m : list (string * list BitMEX.ExecutionForCalc),
             Forall (fun entry => Forall (fun exec => BitMEX.symbol exec = fst entry)
                                    (snd entry)) m ->
             Forall (fun entry => Forall (fun exec => BitMEX.symbol exec = fst entry)
                                    (snd entry))
               (fold_left (fun m e => mapPush (Execution.symbol e) (BitMEX.ofExecution e) m)
                  l m)).
  { induction l as [|e l IH]; intros m Hm; simpl; [exact Hm|].
    apply IH. clear IH.
    induction Hm as [|[k vs] m Hk Hm IHm]; simpl.
    - constructor; [|constructor]. constructor; [reflexivity | constructor].
    - destruct (String.eqb k (Execution.symbol e)) eqn:E.
      + apply String.eqb_eq in E. constructor; [|assumption]. simpl in *.
        apply Forall_app. split; [exact Hk|]. constructor; [now symmetry | constructor].
      + constructor; assumption. }
  apply H. constructor.
Qed.

Lemma inverse_lift executions :
  Forall P (BitMEX.calculateBitMEXPositionSessions formatSymbol executions).
Proof.
  unfold BitMEX.calculateBitMEXPositionSessions. apply sortBy_Forall.
  pose proof (groups_positive executions) as Hpos.
  pose proof (groups_same_symbol executions) as Hsym.
  set (out0 := mkOutput [] 0).
  assert (H0 : Forall P (allSessions out0)) by constructor.
  clearbody out0. revert out0 H0.
  induction (BitMEX.executionsBySymbol executions) as [|[sym l] entries IH];
    intros out0 H0; simpl.
  - exact H0.
  - inversion Hpos as [|? ? Hl Hpos']; inversion Hsym as [|? ? Hs Hsym']; subst.
    simpl in Hl, Hs.
    apply IH; [assumption | assumption |].
    change (Forall P (allSessions
                        (BitMEX.processSymbol formatSymbol out0 (sym, l)))).
    rewrite processSymbol_finish.
    apply inverse_lift_run.
    + now apply sortBy_Forall.
    + apply Hinit.
      * now apply sortBy_Forall.
      * apply byTimestamp_chronological.
      * now apply sortBy_Forall.
    + exact H0.
Qed.

End InverseLift.

(** ** The time frame of an inverse-contract session *)

Lemma StronglySorted_app_inv {A : Type} (R : A -> A -> Prop) (l1 l2 : list A) :
  StronglySorted R (l1 ++ l2) -> StronglySorted R l1 /\ StronglySorted R l2.
Proof.
  induction l1 as [|a l1 IH]; simpl; intros H.
  - split; [constructor | exact H].
  - inversion H as [|? ? Hs Ha]; subst. destruct (IH Hs) as [H1 H2].
    split; [|exact H2]. constructor; [exact H1|].
    apply Forall_app in Ha. apply Ha.
Qed.

Lemma StronglySorted_map {A B : Type} (R : B -> B -> Prop) (f : A -> B) (l : list A) :
  StronglySorted (fun a b => R (f a) (f b)) l -> StronglySorted R (map f l).
Proof.
  induction 1 as [|a l Hs IH Ha]; simpl; constructor.
  - exact IH.
  - apply Forall_map. exact Ha.
Qed.

Lemma last_map {A B : Type} (f : A -> B) (l : list A) (d : A) :
  last (map f l) (f d) = f (last l d).
Proof.
  induction l as [|a l IH]; simpl; [reflexivity|].
  destruct l as [|b l]; [reflexivity|]. exact IH.
Qed.

Lemma last_default_irrelevant {A : Type} (a : A) (l : list A) (d d' : A) :
  last (a :: l) d = last (a :: l) d'.
Proof.
  revert a. induction l as [|b l IH]; intros a; [reflexivity|].
  change (last (b :: l) d = last (b :: l) d'). apply IH.
Qed.

Lemma last_cons_default {A : Type} (a : A) (l : list A) (d : A) :
  last (a :: l) d = last l a.
Proof.
  revert a d. induction l as [|b l IH]; intros a d; [reflexivity|].
  change (last (b :: l) d = last (b :: l) a). apply last_default_irrelevant.
Qed.

Lemma StronglySorted_last_le (t0 : Z) (ts : list Z) :
  StronglySorted Z.le (t0 :: ts) -> (t0 <= last ts t0)%Z.
Proof.
  intros H. inversion H as [|? ? _ Ha]; subst.
  destruct ts as [|t ts]; [simpl; lia|].
  rewrite Forall_forall in Ha. apply Ha.
  rewrite (last_default_irrelevant t ts t0 t). clear.
  revert t. induction ts as [|u ts IH]; intros t; [now left|].
  right. change (In (last (u :: ts) t) (u :: ts)).
  rewrite (last_default_irrelevant u ts t u). apply IH.
Qed.

Section InverseTimeFrame.

Variable formatSymbol : string -> string.

Lemma inverse_trade_times l :
  map Trade.datetime (map (BitMEX.toTrade formatSymbol) l) = map BitMEX.timestamp l.
Proof. rewrite map_map. reflexivity. Qed.

Lemma built_timeFrame sym gid s first more endTime endPosition :
  BitMEX.sessionExecutions s = first :: more ->
  chronological (first :: more) ->
  endTime = BitMEX.timestamp (last more first) ->
  inverseTimeFrame
    (BitMEX.buildSession formatSymbol sym gid s (BitMEX.timestamp first) endTime endPosition).
Proof.
  intros Hexecs Hsorted ->.
  assert (Hts : StronglySorted Z.le (map BitMEX.timestamp (first :: more))).
  { apply StronglySorted_map. exact Hsorted. }
  cbn [map] in Hts.
  assert (Hlast : last (map BitMEX.timestamp more) (BitMEX.timestamp first)
                  = BitMEX.timestamp (last more first)) by apply last_map.
  exists (BitMEX.timestamp first), (map BitMEX.timestamp more).
  unfold BitMEX.buildSession.
  cbn [PositionSession.trades PositionSession.tradeCount PositionSession.openTime
       PositionSession.durationMs PositionSession.status PositionSession.closeTime].
  rewrite inverse_trade_times, Hexecs, Hlast, length_map.
  pose proof (StronglySorted_last_le _ _ Hts) as Hle. rewrite Hlast in Hle.
  repeat split; try assumption; try reflexivity; try lia.
  now destruct (Qeqb endPosition 0).
Qed.

Lemma closeSession_timeFrame sym s endTime endPosition out :
  (forall t0, BitMEX.sessionStartTime s = Some t0 ->
     exists first more,
       BitMEX.sessionExecutions s = first :: more
       /\ BitMEX.timestamp first = t0
       /\ chronological (first :: more)
       /\ endTime = BitMEX.timestamp (last more first)) ->
  Forall inverseTimeFrame (allSessions out) ->
  Forall inverseTimeFrame
    (allSessions (BitMEX.closeSession formatSymbol sym s endTime endPosition out)).
Proof.
  intros Hs Hout.
  destruct (BitMEX_closeSession_cases formatSymbol sym s endTime endPosition out)
    as [-> | (start & Hstart & _ & ->)]; [exact Hout|].
  cbn [allSessions]. apply Forall_app. split; [exact Hout|].
  constructor; [|constructor].
  destruct (Hs start Hstart) as (first & more' & Hexecs & <- & Hsorted & Hend).
  now apply built_timeFrame with (first := first) (more := more').
Qed.

(** The session handed to [closeSession] by an execution that ends it. *)
Lemma pushed_frame st exec rest s :
  timeFrameTracked (BitMEX.runningPosition st) (BitMEX.session st) (exec :: rest) ->
  BitMEX.sessionExecutions s = BitMEX.sessionExecutions (BitMEX.session st) ++ [exec] ->
  BitMEX.sessionStartTime s = BitMEX.sessionStartTime (BitMEX.session st) ->
  forall t0, BitMEX.sessionStartTime s = Some t0 ->
    exists first more,
      BitMEX.sessionExecutions s = first :: more
      /\ BitMEX.timestamp first = t0
      /\ chronological (first :: more)
      /\ BitMEX.timestamp exec = BitMEX.timestamp (last more first).
Proof.
  intros (Hsorted & _ & Hstart) Hexecs Hsame t0 Ht0.
  rewrite Hsame in Ht0. rewrite Ht0 in Hstart.
  destruct Hstart as (first & more & Hse & Hfirst).
  exists first, (more ++ [exec]). rewrite Hexecs, Hse. repeat split.
  - exact Hfirst.
  - rewrite Hse in Hsorted.
    change ((first :: more) ++ exec :: rest)
      with ((first :: more) ++ [exec] ++ rest) in Hsorted.
    rewrite app_assoc in Hsorted.
    apply StronglySorted_app_inv in Hsorted. apply Hsorted.
  - now rewrite last_last.
Qed.

Lemma timeFrame_step sym st exec rest :
  0 < BitMEX.lastQty exec ->
  timeFrameTracked (BitMEX.runningPosition st) (BitMEX.session st) (exec :: rest) ->
  Forall inverseTimeFrame (allSessions (BitMEX.output st)) ->
  let st' := BitMEX.processExecution formatSymbol sym st exec in
  timeFrameTracked (BitMEX.runningPosition st') (BitMEX.session st') rest
  /\ Forall inverseTimeFrame (allSessions (BitMEX.output st')).
Proof.
  intros Hq Hinv Hout st'. subst st'.
  pose proof Hinv as (Hsorted & Hflat & Hstart).
  assert (Hrest : chronological rest).
  { apply StronglySorted_app_inv in Hsorted as [_ H]. now inversion H. }
  assert (Hexec_rest : chronological ([exec] ++ rest)).
  { apply StronglySorted_app_inv in Hsorted as [_ H]. exact H. }
  destruct (processExecution_cases formatSymbol sym st exec Hq)
    as [(Hz & Hpb & ->) | [(Hf & Hpb & Hnz & Hsign & ->) | (Hnf & Hnz & ->)]];
    cbn [BitMEX.runningPosition BitMEX.session BitMEX.output].
  - split.
    + split; [exact Hrest|]. split; [reflexivity | exact I].
    + apply closeSession_timeFrame; [| exact Hout].
      now apply (pushed_frame st exec rest).
  - split.
    + split; [exact Hexec_rest|]. split; [intros H; contradiction|].
      now exists exec, [].
    + apply closeSession_timeFrame; [| exact Hout].
      now apply (pushed_frame st exec rest).
  - split; [|exact Hout].
    assert (Happ : chronological
                     ((BitMEX.sessionExecutions (BitMEX.session st) ++ [exec]) ++ rest)).
    { rewrite <- app_assoc. exact Hsorted. }
    destruct (Qeqb (BitMEX.runningPosition st) 0) eqn:E.
    + apply Qeqb_eq in E. specialize (Hflat E).
      unfold timeFrameTracked.
      cbn [withStart pushed BitMEX.sessionExecutions BitMEX.sessionStartTime].
      split; [exact Happ|]. split; [intros H; contradiction|].
      rewrite Hflat. now exists exec, [].
    + unfold timeFrameTracked.
      cbn [pushed BitMEX.sessionExecutions BitMEX.sessionStartTime].
      split; [exact Happ|]. split; [intros H; contradiction|].
      destruct (BitMEX.sessionStartTime (BitMEX.session st)) as [t0|]; [|exact I].
      destruct Hstart as (first & more & Hse & Hfirst).
      exists first, (more ++ [exec]). rewrite Hse. now split.
Qed.

Lemma timeFrame_finish sym st :
  timeFrameTracked (BitMEX.runningPosition st) (BitMEX.session st) [] ->
  Forall inverseTimeFrame (allSessions (BitMEX.output st)) ->
  Forall inverseTimeFrame (allSessions (finishSymbol formatSymbol sym st)).
Proof.
  intros (Hsorted & _ & Hstart) Hout. unfold finishSymbol.
  destruct (_ && _); [|exact Hout].
  apply closeSession_timeFrame; [| exact Hout].
  intros t0 Ht0. rewrite Ht0 in Hstart.
  destruct Hstart as (first & more & Hse & Hfirst).
  exists first, more. rewrite Hse in *. rewrite app_nil_r in Hsorted.
  repeat split; try assumption.
  now rewrite last_cons_default.
Qed.

End InverseTimeFrame.

(** X2: every session the inverse-contract calculator returns has at least
    one trade and a trade count equal to the number of its trades; its trades
    are in ascending order of time; its open time is the time of its first
    trade; its duration runs to the time of its last trade and is not
    negative; its close time is the time of its last trade when it is closed
    and absent when it is open. *)
Theorem X2_inverse_session_time_frame : forall formatSymbol executions,
  Forall inverseTimeFrame (BitMEX.calculateBitMEXPositionSessions formatSymbol executions).
Proof.
  intros formatSymbol executions.
  apply inverse_lift with (Inv := fun _ => timeFrameTracked).
  - intros sym l _ Hsorted _. split; [exact Hsorted|]. split; [reflexivity | exact I].
  - intros sym st exec rest. apply timeFrame_step.
  - intros sym st. apply timeFrame_finish.
Qed.

(** ** The position and the pending session *)

Section InversePosition.

Variable formatSymbol : string -> string.
Variable sym : string.

Lemma positionTracked_initial : positionTracked 0 BitMEX.resetSession.
Proof.
  split; [now split|]. split; [intros H; now elim H|]. split; [reflexivity|].
  unfold Qle. simpl. lia.
Qed.

Lemma Qabs_nonzero_pos (q : Q) : ~ q == 0 -> 0 < Qabs q.
Proof.
  intros H. destruct (Qlt_le_dec 0 q) as [Hp | Hn].
  - rewrite Qabs_pos; lra.
  - rewrite Qabs_neg by exact Hn.
    destruct (Qlt_le_dec q 0) as [Hlt | Hge]; [lra|]. elim H. lra.
Qed.

Lemma Qabs_zero (q : Q) : q == 0 -> Qabs q == 0.
Proof. intros H. rewrite H. reflexivity. Qed.

Lemma Qmax_pos_r (a b : Q) : 0 < b -> 0 < Qmax a b.
Proof.
  intros H. apply Qlt_le_trans with (y := b); [exact H | apply Q.le_max_r].
Qed.

Lemma Qmax_pos_l (a b : Q) : 0 < a -> 0 < Qmax a b.
Proof.
  intros H. apply Qlt_le_trans with (y := a); [exact H | apply Q.le_max_l].
Qed.

Lemma pushed_totals st exec :
  BitMEX.totalBought (BitMEX.session st) - BitMEX.totalSold (BitMEX.session st)
  == BitMEX.runningPosition st ->
  BitMEX.totalBought (pushed st exec) - BitMEX.totalSold (pushed st exec)
  == nextPosition (BitMEX.runningPosition st) exec.
Proof.
  intros H. unfold pushed, nextPosition. cbn [BitMEX.totalBought BitMEX.totalSold].
  destruct (BitMEX.isBuy exec); lra.
Qed.

Lemma pushed_peak st exec :
  Qabs (nextPosition (BitMEX.runningPosition st) exec) <= BitMEX.maxPosition (pushed st exec).
Proof. unfold pushed. cbn [BitMEX.maxPosition]. apply Q.le_max_r. Qed.

(** What the session closed by an execution looks like. *)
Lemma pushed_ready st exec :
  positionTracked (BitMEX.runningPosition st) (BitMEX.session st) ->
  ~ BitMEX.runningPosition st == 0 ->
  BitMEX.sessionExecutions (pushed st exec) <> []
  /\ BitMEX.sessionStartTime (pushed st exec) <> None
  /\ 0 < BitMEX.maxPosition (pushed st exec).
Proof.
  intros (_ & Hnz & _) Hpb. destruct (Hnz Hpb) as (_ & Hstart & Hmax).
  split; [|split; [exact Hstart|]].
  - unfold pushed. cbn [BitMEX.sessionExecutions]. intros H.
    now apply app_eq_nil in H as [_ ?].
  - unfold pushed. cbn [BitMEX.maxPosition]. now apply Qmax_pos_l.
Qed.

Lemma positionTracked_step st exec :
  0 < BitMEX.lastQty exec ->
  positionTracked (BitMEX.runningPosition st) (BitMEX.session st) ->
  let st' := BitMEX.processExecution formatSymbol sym st exec in
  positionTracked (BitMEX.runningPosition st') (BitMEX.session st').
Proof.
  intros Hq Hinv st'. subst st'.
  pose proof (pushed_totals st exec (proj1 (proj2 (proj2 Hinv)))) as Htotals.
  pose proof (pushed_peak st exec) as Hpeak.
  destruct (processExecution_cases formatSymbol sym st exec Hq)
    as [(Hz & Hpb & ->) | [(Hf & Hpb & Hnz & Hsign & ->) | (Hnf & Hnz & ->)]];
    cbn [BitMEX.runningPosition BitMEX.session].
  - split; [now split|]. split; [intros H; contradiction|].
    cbn [BitMEX.resetSession BitMEX.totalBought BitMEX.totalSold BitMEX.maxPosition].
    split; [lra|]. rewrite (Qabs_zero _ Hz). lra.
  - split; [intros H; contradiction|]. split; [|split].
    + intros _. cbn [seededByFlip BitMEX.sessionExecutions BitMEX.sessionStartTime
                     BitMEX.maxPosition].
      repeat split; try discriminate. now apply Qabs_nonzero_pos.
    + cbn [seededByFlip BitMEX.totalBought BitMEX.totalSold].
      destruct (BitMEX.isBuy exec);
        [rewrite Qabs_pos by lra | rewrite Qabs_neg by lra]; lra.
    + cbn [seededByFlip BitMEX.maxPosition]. lra.
  - split; [intros H; contradiction|]. split; [|split].
    + intros _.
      assert (Hmax : 0 < BitMEX.maxPosition (pushed st exec)).
      { unfold pushed. cbn [BitMEX.maxPosition]. apply Qmax_pos_r.
        now apply Qabs_nonzero_pos. }
      destruct (Qeqb (BitMEX.runningPosition st) 0) eqn:E.
      * cbn [withStart pushed BitMEX.sessionExecutions BitMEX.sessionStartTime
             BitMEX.maxPosition] in *.
        repeat split; try discriminate; [|exact Hmax].
        intros H. now apply app_eq_nil in H as [_ ?].
      * apply Qeqb_false in E. destruct Hinv as (_ & Hinv & _).
        destruct (Hinv E) as (_ & Hstart & _).
        cbn [pushed BitMEX.sessionExecutions BitMEX.sessionStartTime BitMEX.maxPosition] in *.
        repeat split; [|exact Hstart | exact Hmax].
        intros H. now apply app_eq_nil in H as [_ ?].
    + destruct (Qeqb (BitMEX.runningPosition st) 0); exact Htotals.
    + destruct (Qeqb (BitMEX.runningPosition st) 0); exact Hpeak.
Qed.

(** The session an execution closes, at a flat close or at a flip, has equal
    totals. *)
Lemma flat_close_totals st exec :
  positionTracked (BitMEX.runningPosition st) (BitMEX.session st) ->
  nextPosition (BitMEX.runningPosition st) exec == 0 ->
  BitMEX.totalBought (pushed st exec) - BitMEX.totalSold (pushed st exec) == 0.
Proof.
  intros Hinv Hz. rewrite (pushed_totals st exec (proj1 (proj2 (proj2 Hinv)))). exact Hz.
Qed.

Lemma flip_close_totals st exec :
  positionTracked (BitMEX.runningPosition st) (BitMEX.session st) ->
  let pos := nextPosition (BitMEX.runningPosition st) exec in
  (if BitMEX.isBuy exec then 0 < pos else pos < 0) ->
  BitMEX.totalBought (adjustedForFlip (pushed st exec) exec pos)
  - BitMEX.totalSold (adjustedForFlip (pushed st exec) exec pos) == 0.
Proof.
  intros Hinv pos Hsign.
  pose proof (pushed_totals st exec (proj1 (proj2 (proj2 Hinv)))) as Htotals.
  fold pos in Htotals.
  unfold adjustedForFlip. cbn [BitMEX.totalBought BitMEX.totalSold].
  destruct (BitMEX.isBuy exec);
    [rewrite Qabs_pos by lra | rewrite Qabs_neg by lra]; lra.
Qed.

Lemma closeSession_sizeBounds s endTime endPosition out :
  0 < BitMEX.maxPosition s ->
  Qabs (BitMEX.totalBought s - BitMEX.totalSold s) <= BitMEX.maxPosition s ->
  Forall sizeBounds (allSessions out) ->
  Forall sizeBounds
    (allSessions (BitMEX.closeSession formatSymbol sym s endTime endPosition out)).
Proof.
  intros Hpos Hbound Hout.
  destruct (BitMEX_closeSession_cases formatSymbol sym s endTime endPosition out)
    as [-> | (start & _ & _ & ->)]; [exact Hout|].
  cbn [allSessions]. apply Forall_app. split; [exact Hout|].
  constructor; [|constructor]. split; assumption.
Qed.

Lemma sizeBounds_step st exec :
  0 < BitMEX.lastQty exec ->
  positionTracked (BitMEX.runningPosition st) (BitMEX.session st) ->
  Forall sizeBounds (allSessions (BitMEX.output st)) ->
  Forall sizeBounds
    (allSessions (BitMEX.output (BitMEX.processExecution formatSymbol sym st exec))).
Proof.
  intros Hq Hinv Hout.
  destruct (processExecution_cases formatSymbol sym st exec Hq)
    as [(Hz & Hpb & ->) | [(Hf & Hpb & Hnz & Hsign & ->) | (Hnf & Hnz & ->)]];
    cbn [BitMEX.output]; [| |exact Hout].
  - destruct (pushed_ready st exec Hinv Hpb) as (_ & _ & Hmax).
    apply closeSession_sizeBounds; [exact Hmax | | exact Hout].
    rewrite (Qabs_zero _ (flat_close_totals st exec Hinv Hz)). lra.
  - destruct (pushed_ready st exec Hinv Hpb) as (_ & _ & Hmax).
    apply closeSession_sizeBounds; [exact Hmax | | exact Hout].
    rewrite (Qabs_zero _ (flip_close_totals st exec Hinv Hsign)).
    cbn [adjustedForFlip BitMEX.maxPosition]. lra.
Qed.

Lemma sizeBounds_finish st :
  positionTracked (BitMEX.runningPosition st) (BitMEX.session st) ->
  Forall sizeBounds (allSessions (BitMEX.output st)) ->
  Forall sizeBounds (allSessions (finishSymbol formatSymbol sym st)).
Proof.
  intros (_ & Hnz & Htotals & Hpeak) Hout. unfold finishSymbol.
  destruct (Qneb (BitMEX.runningPosition st) 0) eqn:E; [|exact Hout].
  apply Qneb_neq in E. destruct (Hnz E) as (_ & _ & Hmax).
  destruct (negb _); [|exact Hout].
  apply closeSession_sizeBounds; [exact Hmax | | exact Hout].
  now rewrite Htotals.
Qed.

End InversePosition.

(** X3: on executions with whole quantities of at most 2^53 in total (where
    the sums of the source are exact), every session the inverse-contract
    calculator returns has a positive maxSize, and its maxSize is at least the
    absolute difference of its bought and sold totals. *)
Theorem X3_inverse_max_size_bounds : forall formatSymbol executions,
  wholeQuantities executions ->
  Forall sizeBounds (BitMEX.calculateBitMEXPositionSessions formatSymbol executions).
Proof.
  intros formatSymbol executions _.
  apply inverse_lift with (Inv := fun _ position s _ => positionTracked position s).
  - intros. apply positionTracked_initial.
  - intros sym st exec rest Hq Hinv Hout. split.
    + now apply positionTracked_step.
    + now apply sizeBounds_step.
  - intros sym st. apply sizeBounds_finish.
Qed.

(** X3, witness: scenario B, whose quantities are 5 and 12. *)
Lemma X3_scenarioB_sizes :
  wholeQuantities scenarioB
  /\ Forall sizeBounds (BitMEX.calculateBitMEXPositionSessions (fun s => s) scenarioB).
Proof.
  assert (H : wholeQuantities scenarioB).
  { split; [repeat constructor | vm_compute; discriminate]. }
  split; [exact H|].
  exact (X3_inverse_max_size_bounds (fun s => s) scenarioB H).
Defined.

(** ** No fill is lost by the inverse-contract calculator *)

Section InverseMultiplicity.

Variable formatSymbol : string -> string.
Variable x : string.

Let emitted (out : Output) : nat := occ x (tradeIds (allSessions out)).
Let pending (s : BitMEX.Session) : nat :=
  occ x (map BitMEX.execID (BitMEX.sessionExecutions s)).

Lemma closeSession_emits sym s endTime endPosition out :
  BitMEX.sessionExecutions s <> [] ->
  BitMEX.sessionStartTime s <> None ->
  emitted (BitMEX.closeSession formatSymbol sym s endTime endPosition out)
  = (emitted out + pending s)%nat.
Proof.
  intros Hexecs Hstart. unfold emitted, pending, BitMEX.closeSession.
  destruct (BitMEX.sessionExecutions s) as [|e l] eqn:E; [contradiction|].
  destruct (BitMEX.sessionStartTime s) as [start|]; [|contradiction].
  cbn [allSessions].
  rewrite tradeIds_app, occ_app, tradeIds_single, inverse_built_ids, E. reflexivity.
Qed.

Lemma pending_pushed st exec :
  pending (pushed st exec)
  = (pending (BitMEX.session st) + occ x [BitMEX.execID exec])%nat.
Proof.
  unfold pending, pushed. cbn [BitMEX.sessionExecutions].
  now rewrite map_app, occ_app.
Qed.

Lemma multiplicity_step sym st exec :
  0 < BitMEX.lastQty exec ->
  positionTracked (BitMEX.runningPosition st) (BitMEX.session st) ->
  let st' := BitMEX.processExecution formatSymbol sym st exec in
  (emitted (BitMEX.output st') + pending (BitMEX.session st')
   = emitted (BitMEX.output st) + pending (BitMEX.session st)
     + occ x [BitMEX.execID exec]
     + (if isFlip (BitMEX.runningPosition st)
             (nextPosition (BitMEX.runningPosition st) exec)
        then occ x [BitMEX.execID exec] else 0))%nat.
Proof.
  intros Hq Hinv st'. subst st'.
  pose proof (pending_pushed st exec) as Hpushed.
  destruct (processExecution_cases formatSymbol sym st exec Hq)
    as [(Hz & Hpb & ->) | [(Hf & Hpb & Hnz & Hsign & ->) | (Hnf & Hnz & ->)]];
    cbn [BitMEX.output BitMEX.session].
  - destruct (pushed_ready st exec Hinv Hpb) as (Hexecs & Hstart & _).
    rewrite (closeSession_emits sym _ _ _ _ Hexecs Hstart).
    assert (Hnf : isFlip (BitMEX.runningPosition st)
                    (nextPosition (BitMEX.runningPosition st) exec) = false).
    { destruct (isFlip _ _) eqn:E; [|reflexivity].
      apply isFlip_nonzero in E as [_ E]. contradiction. }
    rewrite Hnf, Hpushed.
    change (pending BitMEX.resetSession) with 0%nat. lia.
  - destruct (pushed_ready st exec Hinv Hpb) as (Hexecs & Hstart & _).
    rewrite (closeSession_emits sym (adjustedForFlip (pushed st exec) exec _) _ _ _
               Hexecs Hstart).
    rewrite Hf.
    change (pending (adjustedForFlip (pushed st exec) exec
                       (nextPosition (BitMEX.runningPosition st) exec)))
      with (pending (pushed st exec)).
    change (pending (seededByFlip exec (nextPosition (BitMEX.runningPosition st) exec)))
      with (occ x [BitMEX.execID exec]).
    rewrite Hpushed. lia.
  - rewrite Hnf.
    replace (pending (if Qeqb (BitMEX.runningPosition st) 0
                      then withStart (pushed st exec) (BitMEX.timestamp exec)
                      else pushed st exec))
      with (pending (pushed st exec)) by (destruct (Qeqb _ 0); reflexivity).
    rewrite Hpushed. lia.
Qed.

Lemma multiplicity_run sym l : forall st,
  positiveQuantities l ->
  positionTracked (BitMEX.runningPosition st) (BitMEX.session st) ->
  emitted (finishSymbol formatSymbol sym
             (fold_left (BitMEX.processExecution formatSymbol sym) l st))
  = (emitted (BitMEX.output st) + pending (BitMEX.session st)
     + occ x (map BitMEX.execID l)
     + occ x (map BitMEX.execID (flipTriggers (BitMEX.runningPosition st) l)))%nat.
Proof.
  induction l as [|exec l IH]; intros st Hqty Hinv; cbn [fold_left flipTriggers map].
  - change (occ x []) with 0%nat. unfold finishSymbol.
    destruct Hinv as (Hzero & Hnz & _).
    destruct (Qneb (BitMEX.runningPosition st) 0) eqn:E.
    + apply Qneb_neq in E. destruct (Hnz E) as (Hexecs & Hstart & _).
      destruct (BitMEX.sessionExecutions (BitMEX.session st)) as [|e l] eqn:El;
        [contradiction|].
      cbn [List.length Nat.eqb negb andb].
      rewrite closeSession_emits; [lia | now rewrite El | exact Hstart].
    + unfold Qneb in E. apply negb_false_iff in E. apply Qeq_bool_iff in E.
      destruct (Hzero E) as [Hexecs _]. unfold pending. rewrite Hexecs.
      cbn [andb map]. change (occ x []) with 0%nat. lia.
  - inversion Hqty as [|? ? Hq Hl]; subst.
    pose proof (multiplicity_step sym st exec Hq Hinv) as Hstep. cbv zeta in Hstep.
    pose proof (positionTracked_step formatSymbol sym st exec Hq Hinv) as Hinv'.
    cbv zeta in Hinv'.
    rewrite (IH _ Hl Hinv'). rewrite (processExecution_position formatSymbol).
    fold (nextPosition (BitMEX.runningPosition st) exec).
    rewrite (occ_cons x (BitMEX.execID exec) (map BitMEX.execID l)).
    destruct (isFlip _ _); cbn [map];
      [rewrite (occ_cons x (BitMEX.execID exec) (map BitMEX.execID (flipTriggers _ l)))|];
      lia.
Qed.

Lemma multiplicity_fold entries : forall out,
  Forall (fun entry => positiveQuantities (snd entry)) entries ->
  emitted (fold_left (BitMEX.processSymbol formatSymbol) entries out)
  = (emitted out
     + occ x (flat_map (fun entry => map BitMEX.execID (snd entry)) entries)
     + occ x (flat_map (fun entry => map BitMEX.execID
                          (flipTriggers 0 (sortBy BitMEX.byTimestamp (snd entry))))
                entries))%nat.
Proof.
  induction entries as [|[sym l] entries IH]; intros out Hpos; cbn [fold_left flat_map].
  - change (occ x []) with 0%nat. lia.
  - inversion Hpos as [|? ? Hl Hrest]; subst. cbn [snd] in *.
    rewrite (IH _ Hrest), processSymbol_finish.
    rewrite multiplicity_run;
      [| now apply sortBy_Forall | apply positionTracked_initial].
    cbn [initialSymbolState BitMEX.output BitMEX.session BitMEX.runningPosition].
    change (pending BitMEX.resetSession) with 0%nat.
    rewrite (occ_perm x _ _ (Permutation_map BitMEX.execID
                               (sortBy_perm BitMEX.byTimestamp l))).
    rewrite !occ_app. lia.
Qed.

Lemma inverse_multiplicity executions :
  occ x (tradeIds (BitMEX.calculateBitMEXPositionSessions formatSymbol executions))
  = (occ x (map Execution.execID (BitMEX.tradeExecutions executions))
     + occ x (flipTriggerIds executions))%nat.
Proof.
  unfold BitMEX.calculateBitMEXPositionSessions, tradeIds.
  rewrite (occ_flat_map_perm _ _ _ _ (sortBy_perm newestFirst _)).
  pose proof (multiplicity_fold (BitMEX.executionsBySymbol executions) emptyOutput
                (groups_positive executions)) as H.
  unfold emitted in H. change (occ x (tradeIds (allSessions emptyOutput))) with 0%nat in H.
  rewrite symbol_groups_ids in H. exact H.
Qed.

End InverseMultiplicity.




(** ** The partitions of the executions *)

Section GroupByLookup.

Context {A V : Type}.
Variable key : A -> string.
Variable val : A -> V.

Lemma groupOf_snoc k l a :
  groupOf key val k (l ++ [a])
  = groupOf key val k l ++ (if String.eqb (key a) k then [val a] else []).
Proof.
  unfold groupOf. rewrite filter_app, map_app. simpl.
  now destruct (String.eqb (key a) k).
Qed.

Lemma mapPush_keys (k : string) (v : V) (m : list (string * list V)) :
  map fst (mapPush k v m)
  = map fst m ++ (if existsb (String.eqb k) (map fst m) then [] else [k]).
Proof.
  induction m as [|[k0 vs0] m IH]; simpl; [reflexivity|].
  rewrite (String.eqb_sym k k0).
  destruct (String.eqb k0 k) eqn:E; simpl.
  - now rewrite app_nil_r.
  - now rewrite IH.
Qed.

Lemma existsb_eqb_In (k : string) (keys : list string) :
  existsb (String.eqb k) keys = true <-> In k keys.
Proof.
  rewrite existsb_exists. split.
  - intros (y & Hy & E). apply String.eqb_eq in E. now subst.
  - intros H. exists k. split; [exact H | apply String.eqb_refl].
Qed.

Lemma mapPush_In (k : string) (v : V) (m : list (string * list V)) :
  NoDup (map fst m) ->
  forall k' vs',
    In (k', vs') (mapPush k v m) ->
    (k' <> k /\ In (k', vs') m)
    \/ (k' = k /\ exists vs, vs' = vs ++ [v]
                             /\ (In (k, vs) m \/ (vs = [] /\ ~ In k (map fst m)))).
Proof.
  induction m as [|[k0 vs0] m IH]; simpl; intros Hnd k' vs' Hin.
  - destruct Hin as [[= <- <-] | []]. right. split; [reflexivity|].
    exists []. split; [reflexivity|]. right. now split.
  - inversion Hnd as [|? ? Hk0 Hnd']; subst.
    destruct (String.eqb k0 k) eqn:E.
    + apply String.eqb_eq in E. subst k0.
      destruct Hin as [[= <- <-] | Hin].
      * right. split; [reflexivity|]. exists vs0. split; [reflexivity|]. left. now left.
      * left. split; [|now right].
        intros ->. apply Hk0. apply in_map_iff. now exists (k, vs').
    + apply String.eqb_neq in E.
      destruct Hin as [[= <- <-] | Hin].
      * left. split; [exact E | now left].
      * destruct (IH Hnd' k' vs' Hin) as [[Hne H] | (-> & vs & -> & H)].
        -- left. split; [exact Hne | now right].
        -- right. split; [reflexivity|]. exists vs. split; [reflexivity|].
           destruct H as [H | [-> H]]; [left; now right|].
           right. split; [reflexivity|]. intros [H' | H']; [now apply E | now apply H].
Qed.

Lemma partitionOf_push (l : list A) (a : A) (m : list (string * list V)) :
  partitionOf key val l m ->
  partitionOf key val (l ++ [a]) (mapPush (key a) (val a) m).
Proof.
  intros (Hnd & Hgroups & Hall). split; [|split].
  - rewrite mapPush_keys.
    destruct (existsb (String.eqb (key a)) (map fst m)) eqn:E.
    + now rewrite app_nil_r.
    + apply NoDup_app; [exact Hnd | repeat constructor; now intros [] |].
      intros k Hk [<- | []].
      apply existsb_eqb_In in Hk. congruence.
  - intros k vs Hin. rewrite groupOf_snoc.
    destruct (mapPush_In (key a) (val a) m Hnd k vs Hin)
      as [[Hne H] | (-> & vs0 & -> & H)].
    + destruct (Hgroups k vs H) as [-> Hnonempty].
      apply not_eq_sym, String.eqb_neq in Hne. rewrite Hne, app_nil_r. now split.
    + rewrite String.eqb_refl. split; [|intros H'; now apply app_eq_nil in H' as [_ ?]].
      f_equal. destruct H as [H | [-> H]].
      * apply Hgroups. exact H.
      * unfold groupOf. symmetry.
        destruct (filter (fun a0 => String.eqb (key a0) (key a)) l) as [|b bs] eqn:F;
          [reflexivity|].
        assert (Hb : In b (filter (fun a0 => String.eqb (key a0) (key a)) l))
          by (rewrite F; now left).
        apply filter_In in Hb as [Hb Hkey]. apply String.eqb_eq in Hkey.
        elim H. rewrite <- Hkey. now apply Hall.
  - intros b Hb. rewrite mapPush_keys. apply in_or_app.
    apply in_app_or in Hb as [Hb | [<- | []]].
    + left. now apply Hall.
    + destruct (existsb (String.eqb (key a)) (map fst m)) eqn:E.
      * left. now apply existsb_eqb_In.
      * right. now left.
Qed.

Lemma groupBy_partition (l : list A) : partitionOf key val l (groupBy key val l).
Proof.
  unfold groupBy.
  assert (H : forall rest done m,
             partitionOf key val done m ->
             partitionOf key val (done ++ rest)
               (fold_left (fun m e => mapPush (key e) (val e) m) rest m)).
  { induction rest as [|a rest IH]; intros done m Hm; simpl.
    - now rewrite app_nil_r.
    - replace (done ++ a :: rest) with ((done ++ [a]) ++ rest)
        by (rewrite <- app_assoc; reflexivity).
      apply IH. now apply partitionOf_push. }
  apply (H l [] []). split; [constructor|]. split; [intros k vs []|intros a []].
Qed.

End GroupByLookup.

(** X5: both calculators partition the filtered executions exactly: each
    symbol (each symbol and position-side key in hedge mode) heads one group,
    every group is non-empty and holds the filtered executions of its key, all
    of them and in input order, and every filtered execution has its group. *)
Theorem X5_executions_are_partitioned_by_key : forall executions,
  partitionOf Execution.symbol BitMEX.ofExecution (BitMEX.tradeExecutions executions)
    (BitMEX.executionsBySymbol executions)
  /\ partitionOf Binance.keyOf (fun e => e) (Binance.tradeExecutions executions)
       (Binance.executionsByKey executions).
Proof.
  intros executions. split; apply groupBy_partition.
Qed.

(** ** The open session of a symbol reports its net position *)

#[global] Instance Qeqb_compat : Proper (Qeq ==> Qeq ==> eq) Qeqb.
Proof.
  intros a a' Ha b b' Hb.
  destruct (Qeqb a b) eqn:E1, (Qeqb a' b') eqn:E2; try reflexivity.
  - apply Qeqb_eq in E1. apply Qeqb_false in E2. elim E2. now rewrite <- Ha, <- Hb.
  - apply Qeqb_eq in E2. apply Qeqb_false in E1. elim E1. now rewrite Ha, Hb.
Qed.

Lemma reportsPosition_compat p q opens :
  p == q -> reportsPosition p opens -> reportsPosition q opens.
Proof.
  unfold reportsPosition. intros Hpq. rewrite <- Hpq.
  destruct (Qeqb p 0); [trivial|].
  intros (s & Hs & Htotals & Hside). exists s. split; [exact Hs|]. split.
  - now rewrite Htotals.
  - rewrite Hside. unfold Qgtb. now rewrite Hpq.
Qed.

Section InverseOpenPosition.

Variable formatSymbol : string -> string.

Lemma run_position sym l : forall st,
  BitMEX.runningPosition (fold_left (BitMEX.processExecution formatSymbol sym) l st)
  == BitMEX.runningPosition st + sumQ signedQtyOf l.
Proof.
  induction l as [|exec l IH]; intros st; simpl.
  - ring.
  - rewrite IH, processExecution_position. unfold signedQtyOf.
    destruct (BitMEX.isBuy exec); ring.
Qed.

(** A close at position 0 appends at most one session, closed and of this
    symbol. *)
Lemma closeSession_appends_closed sym s endTime out :
  exists new,
    allSessions (BitMEX.closeSession formatSymbol sym s endTime 0 out)
    = allSessions out ++ new
    /\ Forall (fun s' => PositionSession.symbol s' = sym
                         /\ PositionSession.status s' = closed) new.
Proof.
  destruct (BitMEX_closeSession_cases formatSymbol sym s endTime 0 out)
    as [-> | (start & _ & _ & ->)].
  - exists []. split; [now rewrite app_nil_r | constructor].
  - eexists. split; [reflexivity|]. constructor; [|constructor]. now split.
Qed.

Lemma step_appends_closed sym st exec :
  0 < BitMEX.lastQty exec ->
  exists new,
    allSessions (BitMEX.output (BitMEX.processExecution formatSymbol sym st exec))
    = allSessions (BitMEX.output st) ++ new
    /\ Forall (fun s' => PositionSession.symbol s' = sym
                         /\ PositionSession.status s' = closed) new.
Proof.
  intros Hq.
  destruct (processExecution_cases formatSymbol sym st exec Hq)
    as [(Hz & Hpb & ->) | [(Hf & Hpb & Hnz & Hsign & ->) | (Hnf & Hnz & ->)]];
    cbn [BitMEX.output].
  - apply closeSession_appends_closed.
  - apply closeSession_appends_closed.
  - exists []. split; [now rewrite app_nil_r | constructor].
Qed.

Lemma run_appends_closed sym l : forall st,
  positiveQuantities l ->
  exists new,
    allSessions (BitMEX.output (fold_left (BitMEX.processExecution formatSymbol sym) l st))
    = allSessions (BitMEX.output st) ++ new
    /\ Forall (fun s' => PositionSession.symbol s' = sym
                         /\ PositionSession.status s' = closed) new.
Proof.
  induction l as [|exec l IH]; intros st Hqty; simpl.
  - exists []. split; [now rewrite app_nil_r | constructor].
  - inversion Hqty as [|? ? Hq Hl]; subst.
    destruct (step_appends_closed sym st exec Hq) as (new1 & E1 & H1).
    destruct (IH (BitMEX.processExecution formatSymbol sym st exec) Hl) as (new2 & E2 & H2).
    exists (new1 ++ new2). split.
    + now rewrite E2, E1, app_assoc.
    + apply Forall_app. now split.
Qed.

Lemma run_tracked sym l : forall st,
  positiveQuantities l ->
  positionTracked (BitMEX.runningPosition st) (BitMEX.session st) ->
  let st' := fold_left (BitMEX.processExecution formatSymbol sym) l st in
  positionTracked (BitMEX.runningPosition st') (BitMEX.session st').
Proof.
  induction l as [|exec l IH]; intros st Hqty Hinv; simpl; [exact Hinv|].
  inversion Hqty as [|? ? Hq Hl]; subst.
  apply IH; [exact Hl|]. now apply positionTracked_step.
Qed.

Lemma openSessionsOf_app sym l1 l2 :
  openSessionsOf sym (l1 ++ l2) = openSessionsOf sym l1 ++ openSessionsOf sym l2.
Proof. apply filter_app. Qed.

Lemma openSessionsOf_closed sym sym' new :
  Forall (fun s' => PositionSession.symbol s' = sym'
                    /\ PositionSession.status s' = closed) new ->
  openSessionsOf sym new = [].
Proof.
  induction 1 as [|s new [_ Hs] _ IH]; simpl; [reflexivity|].
  unfold isOpenOf. now rewrite Hs.
Qed.

Lemma openSessionsOf_other sym sym' new :
  sym' <> sym ->
  Forall (fun s' => PositionSession.symbol s' = sym') new ->
  openSessionsOf sym new = [].
Proof.
  intros Hne. induction 1 as [|s new Hs _ IH]; simpl; [reflexivity|].
  unfold isOpenOf. rewrite Hs. apply String.eqb_neq in Hne. rewrite Hne.
  now destruct (PositionSession.status s).
Qed.

Lemma finish_reports sym st :
  positionTracked (BitMEX.runningPosition st) (BitMEX.session st) ->
  exists new,
    allSessions (finishSymbol formatSymbol sym st) = allSessions (BitMEX.output st) ++ new
    /\ Forall (fun s' => PositionSession.symbol s' = sym) new
    /\ reportsPosition (BitMEX.runningPosition st) (openSessionsOf sym new).
Proof.
  intros (Hzero & Hnz & Htotals & _). unfold finishSymbol, reportsPosition.
  destruct (Qeqb (BitMEX.runningPosition st) 0) eqn:E.
  - unfold Qneb. fold (Qeqb (BitMEX.runningPosition st) 0). rewrite E. cbn [negb andb].
    exists []. split; [now rewrite app_nil_r|]. split; [constructor | reflexivity].
  - unfold Qneb. fold (Qeqb (BitMEX.runningPosition st) 0). rewrite E. cbn [negb andb].
    apply Qeqb_false in E as Hpos. destruct (Hnz Hpos) as (Hexecs & Hstart & _).
    unfold BitMEX.closeSession.
    destruct (BitMEX.sessionExecutions (BitMEX.session st)) as [|e l] eqn:El;
      [contradiction|].
    destruct (BitMEX.sessionStartTime (BitMEX.session st)) as [start|]; [|contradiction].
    cbn [List.length Nat.eqb negb allSessions].
    eexists. split; [reflexivity|]. split; [constructor; [reflexivity | constructor]|].
    unfold openSessionsOf, isOpenOf, BitMEX.buildSession.
    cbn [filter PositionSession.status PositionSession.symbol PositionSession.totalBought
         PositionSession.totalSold PositionSession.side].
    rewrite E, String.eqb_refl.
    eexists. split; [reflexivity|]. split; [exact Htotals|].
    cbn [PositionSession.side].
    assert (Hg : Qgtb (BitMEX.totalBought (BitMEX.session st))
                   (BitMEX.totalSold (BitMEX.session st))
                 = Qgtb (BitMEX.runningPosition st) 0).
    { destruct (Qgtb (BitMEX.runningPosition st) 0) eqn:G.
      - apply Qgtb_gt in G. apply Qgtb_gt. lra.
      - unfold Qgtb in *. apply Qltb_ge in G. apply Qltb_ge. lra. }
    now rewrite Hg.
Qed.

Lemma processSymbol_reports out sym l :
  positiveQuantities l ->
  exists new,
    allSessions (BitMEX.processSymbol formatSymbol out (sym, l)) = allSessions out ++ new
    /\ Forall (fun s' => PositionSession.symbol s' = sym) new
    /\ reportsPosition (sumQ signedQtyOf l) (openSessionsOf sym new).
Proof.
  intros Hqty. rewrite processSymbol_finish.
  assert (Hsorted : positiveQuantities (sortBy BitMEX.byTimestamp l))
    by now apply sortBy_Forall.
  set (st := fold_left (BitMEX.processExecution formatSymbol sym)
               (sortBy BitMEX.byTimestamp l) (initialSymbolState out)).
  destruct (run_appends_closed sym _ (initialSymbolState out) Hsorted) as (new1 & E1 & H1).
  fold st in E1.
  pose proof (run_tracked sym _ (initialSymbolState out) Hsorted positionTracked_initial)
    as Htracked.
  cbv zeta in Htracked. fold st in Htracked.
  destruct (finish_reports sym st Htracked) as (new2 & E2 & H2 & Hreport).
  exists (new1 ++ new2). split; [|split].
  - rewrite E2, E1. cbn [initialSymbolState BitMEX.output]. now rewrite app_assoc.
  - apply Forall_app. split; [|exact H2].
    eapply Forall_impl; [|exact H1]. now intros s' [? _].
  - rewrite openSessionsOf_app, (openSessionsOf_closed sym sym new1 H1). cbn [app].
    apply reportsPosition_compat with (p := BitMEX.runningPosition st); [|exact Hreport].
    unfold st. rewrite run_position.
    cbn [initialSymbolState BitMEX.runningPosition].
    rewrite (sumQ_perm _ _ _ (sortBy_perm BitMEX.byTimestamp l)). ring.
Qed.

Lemma fold_reports sym entries : forall out,
  NoDup (map fst entries) ->
  Forall (fun entry => positiveQuantities (snd entry)) entries ->
  exists news,
    openSessionsOf sym (allSessions (fold_left (BitMEX.processSymbol formatSymbol) entries out))
    = openSessionsOf sym (allSessions out) ++ news
    /\ ((~ In sym (map fst entries) /\ news = [])
        \/ exists l, In (sym, l) entries /\ reportsPosition (sumQ signedQtyOf l) news).
Proof.
  induction entries as [|[k l] entries IH]; intros out Hnd Hpos; cbn [fold_left map fst].
  - exists []. split; [now rewrite app_nil_r|]. left. split; [now intros [] | reflexivity].
  - inversion Hnd as [|? ? Hk Hnd']; inversion Hpos as [|? ? Hl Hpos']; subst.
    cbn [snd] in Hl.
    destruct (processSymbol_reports out k l Hl) as (new & E & Hsym & Hreport).
    destruct (IH (BitMEX.processSymbol formatSymbol out (k, l)) Hnd' Hpos')
      as (news & E' & Hnews).
    rewrite E', E, openSessionsOf_app, <- app_assoc.
    destruct (string_dec k sym) as [-> | Hne].
    + destruct Hnews as [[_ ->] | (l' & Hin & _)].
      * exists (openSessionsOf sym new). split; [now rewrite app_nil_r|].
        right. exists l. split; [now left | exact Hreport].
      * elim Hk. apply in_map_iff. now exists (sym, l').
    + rewrite (openSessionsOf_other sym k new Hne Hsym). cbn [app].
      exists news. split; [reflexivity|].
      destruct Hnews as [[Hnot ->] | (l' & Hin & Hr)].
      * left. split; [|reflexivity]. intros [H | H]; [now apply Hne | now apply Hnot].
      * right. exists l'. split; [now right | exact Hr].
Qed.

Lemma filter_perm {A : Type} (f : A -> bool) (l1 l2 : list A) :
  Permutation l1 l2 -> Permutation (filter f l1) (filter f l2).
Proof.
  induction 1 as [|a l1 l2 _ IH|a b l|l1 l2 l3 _ IH1 _ IH2]; simpl.
  - constructor.
  - destruct (f a); [now constructor | exact IH].
  - destruct (f a), (f b); try reflexivity. apply perm_swap.
  - now transitivity (filter f l2).
Qed.

Lemma reportsPosition_perm p opens opens' :
  Permutation opens opens' -> reportsPosition p opens -> reportsPosition p opens'.
Proof.
  unfold reportsPosition. intros Hperm. destruct (Qeqb p 0).
  - intros ->. now apply Permutation_nil in Hperm.
  - intros (s & -> & H). exists s. split; [|exact H].
    now apply Permutation_length_1_inv in Hperm.
Qed.

Lemma signedQty_ofExecution l :
  sumQ signedQtyOf (map BitMEX.ofExecution l) = sumQ signedQty l.
Proof. rewrite sumQ_map. reflexivity. Qed.

End InverseOpenPosition.

(** X6: on executions with whole quantities of at most 2^53 in total (where
    the sums of the source are exact), for every symbol, the open sessions of
    that symbol in the output of the inverse-contract calculator report its
    net position, the sum of the
    signed quantities of its filtered executions: none when it is zero;
    otherwise exactly one, whose bought total exceeds its sold total by the
    net position and whose side is long exactly when the net position is
    positive. *)
Theorem X6_inverse_open_session_reports_net_position : forall formatSymbol executions sym,
  wholeQuantities executions ->
  reportsPosition (netPosition sym executions)
    (openSessionsOf sym (BitMEX.calculateBitMEXPositionSessions formatSymbol executions)).
Proof.
  intros formatSymbol executions sym _.
  destruct (groupBy_partition Execution.symbol BitMEX.ofExecution
              (BitMEX.tradeExecutions executions)) as (Hnd & Hgroups & Hall).
  fold (BitMEX.executionsBySymbol executions) in Hnd, Hgroups, Hall.
  destruct (fold_reports formatSymbol sym (BitMEX.executionsBySymbol executions)
              emptyOutput Hnd (groups_positive executions)) as (news & E & Hnews).
  change (openSessionsOf sym (allSessions emptyOutput)) with (@nil PositionSession.t) in E.
  cbn [app] in E.
  unfold BitMEX.calculateBitMEXPositionSessions.
  apply reportsPosition_perm
    with (opens := openSessionsOf sym
                     (allSessions
                        (fold_left (BitMEX.processSymbol formatSymbol)
                           (BitMEX.executionsBySymbol executions) emptyOutput))).
  { apply filter_perm. symmetry. apply sortBy_perm. }
  rewrite E.
  destruct Hnews as [[Hnot ->] | (l & Hin & Hreport)].
  - (* the symbol has no filtered execution *)
    unfold netPosition.
    destruct (filter (fun e => String.eqb (Execution.symbol e) sym)
                (BitMEX.tradeExecutions executions)) as [|e es] eqn:F.
    + reflexivity.
    + assert (He : In e (filter (fun e => String.eqb (Execution.symbol e) sym)
                           (BitMEX.tradeExecutions executions))) by (rewrite F; now left).
      apply filter_In in He as [He Hsym]. apply String.eqb_eq in Hsym.
      elim Hnot. rewrite <- Hsym. now apply Hall.
  - destruct (Hgroups sym l Hin) as [-> _]. unfold groupOf in Hreport.
    rewrite signedQty_ofExecution in Hreport. exact Hreport.
Qed.

(** X6, witness: scenario B, which ends 7 short on XBTUSD. *)
Lemma X6_scenarioB_open_short :
  wholeQuantities scenarioB
  /\ reportsPosition (netPosition "XBTUSD" scenarioB)
       (openSessionsOf "XBTUSD"
          (BitMEX.calculateBitMEXPositionSessions (fun s => s) scenarioB)).
Proof.
  assert (H : wholeQuantities scenarioB).
  { split; [repeat constructor | vm_compute; discriminate]. }
  split; [exact H|].
  exact (X6_inverse_open_session_reports_net_position (fun s => s) scenarioB "XBTUSD" H).
Defined.

(** ** Session identifiers *)

Lemma digitsValue_of_uint (d : Decimal.uint) : forall acc,
  digitsValue (N.of_nat acc) (NilEmpty.string_of_uint d)
  = N.of_nat (Nat.of_uint_acc d acc).
Proof.
  induction d as [|d IH|d IH|d IH|d IH|d IH|d IH|d IH|d IH|d IH|d IH]; intros acc;
    cbn [NilEmpty.string_of_uint digitsValue Nat.of_uint_acc]; [reflexivity|..];
    rewrite <- IH; f_equal; rewrite Nat.tail_mul_spec;
    cbn [nat_of_ascii]; simpl; lia.
Qed.

Lemma digitsValue_natToString (n : nat) : digitsValue 0 (natToString n) = N.of_nat n.
Proof.
  unfold natToString.
  rewrite <- (DecimalNat.Unsigned.of_to n) at 2. unfold Nat.of_uint.
  rewrite <- digitsValue_of_uint.
  now destruct (Nat.to_uint n).
Qed.

Lemma natToString_inj (n m : nat) : natToString n = natToString m -> n = m.
Proof.
  intros H.
  assert (E : N.of_nat n = N.of_nat m) by now rewrite <- !digitsValue_natToString, H.
  lia.
Qed.

Lemma afterLastDash_digits (d : Decimal.uint) :
  afterLastDash (NilEmpty.string_of_uint d) = None.
Proof.
  induction d; cbn [NilEmpty.string_of_uint afterLastDash]; [reflexivity|..];
    rewrite IHd; reflexivity.
Qed.

Lemma afterLastDash_natToString (n : nat) : afterLastDash (natToString n) = None.
Proof.
  unfold natToString. destruct (Nat.to_uint n) as [|d|d|d|d|d|d|d|d|d|d];
    [reflexivity|..];
    unfold NilZero.string_of_uint; apply afterLastDash_digits.
Qed.

Lemma afterLastDash_append (a d : string) :
  afterLastDash d = None ->
  afterLastDash (String.append a (String.append "-" d)) = Some d.
Proof.
  intros Hd. change (String.append "-" d) with (String "-" d).
  induction a as [|c a IH]; cbn [String.append afterLastDash].
  - now rewrite Hd.
  - now rewrite IH.
Qed.


Lemma string_append_assoc (a b c : string) :
  String.append a (String.append b c) = String.append (String.append a b) c.
Proof.
  induction a as [|x a IH]; simpl; [reflexivity|]. now rewrite IH.
Qed.

Lemma numbered_push out s :
  numbered out ->
  afterLastDash (PositionSession.id s) = Some (natToString (globalSessionId out)) ->
  numbered {| allSessions := allSessions out ++ [s];
              globalSessionId := S (globalSessionId out) |}.
Proof.
  unfold numbered. intros Hout Hs. cbn [allSessions globalSessionId].
  rewrite map_app, seq_S, map_app, Hout. cbn [map Nat.add]. now rewrite Hs.
Qed.

Lemma NoDup_map_injective {A B : Type} (f : A -> B) (l : list A) :
  (forall x y, f x = f y -> x = y) -> NoDup l -> NoDup (map f l).
Proof.
  intros Hf. induction 1 as [|x l Hx _ IH]; cbn [map]; constructor; [|exact IH].
  intros Hin. apply in_map_iff in Hin as (y & Hy & Hin).
  apply Hf in Hy. now subst.
Qed.

Lemma numbered_NoDup out : numbered out -> NoDup (map PositionSession.id (allSessions out)).
Proof.
  unfold numbered. intros H.
  apply (NoDup_map_inv afterLastDash). rewrite map_map, H.
  apply NoDup_map_injective; [|apply seq_NoDup].
  intros n m [= E]. now apply natToString_inj.
Qed.

Lemma numbered_length out : numbered out -> List.length (allSessions out) = globalSessionId out.
Proof.
  unfold numbered. intros H.
  rewrite <- (length_map (fun s => afterLastDash (PositionSession.id s))), H.
  now rewrite length_map, length_seq.
Qed.

Section NumberedInverse.

Variable formatSymbol : string -> string.

Lemma inverse_closeSession_numbered sym s endTime endPosition out :
  numbered out ->
  numbered (BitMEX.closeSession formatSymbol sym s endTime endPosition out).
Proof.
  intros Hout.
  destruct (BitMEX_closeSession_cases formatSymbol sym s endTime endPosition out)
    as [-> | (start & _ & _ & ->)]; [exact Hout|].
  apply numbered_push; [exact Hout|].
  unfold BitMEX.buildSession. cbn [PositionSession.id].
  apply afterLastDash_append, afterLastDash_natToString.
Qed.

Lemma inverse_processExecution_numbered sym st exec :
  numbered (BitMEX.output st) ->
  numbered (BitMEX.output (BitMEX.processExecution formatSymbol sym st exec)).
Proof.
  intros H. unfold BitMEX.processExecution.
  destruct (Qneb (BitMEX.runningPosition st) 0 && Qeqb _ 0);
    destruct (_ && _ || _ && _); cbn [BitMEX.output];
    repeat apply inverse_closeSession_numbered; exact H.
Qed.

Lemma inverse_fold_numbered entries : forall out,
  numbered out ->
  numbered (fold_left (BitMEX.processSymbol formatSymbol) entries out).
Proof.
  induction entries as [|[sym l] entries IH]; intros out Hout; cbn [fold_left];
    [exact Hout|].
  apply IH. rewrite processSymbol_finish.
  set (st0 := initialSymbolState out).
  assert (H0 : numbered (BitMEX.output st0)) by exact Hout.
  clearbody st0. clear Hout. revert st0 H0.
  induction (sortBy BitMEX.byTimestamp l) as [|exec rest IHl]; intros st0 H0; cbn [fold_left].
  - unfold finishSymbol. destruct (_ && _); [apply inverse_closeSession_numbered|]; exact H0.
  - apply IHl. now apply inverse_processExecution_numbered.
Qed.

End NumberedInverse.

Section NumberedHedge.

Variable formatSymbol : string -> string.

Lemma hedge_closeSession_numbered symbol_ positionSide_ orders start endTime out :
  numbered out ->
  numbered (Binance.closeSession formatSymbol symbol_ positionSide_ orders start endTime out).
Proof.
  intros Hout.
  destruct (Binance_closeSession_cases formatSymbol symbol_ positionSide_
              orders start endTime out) as [-> | (t & _ & _ & ->)]; [exact Hout|].
  apply numbered_push; [exact Hout|].
  unfold Binance.buildSession. cbn [PositionSession.id].
  rewrite (string_append_assoc symbol_ "-"), (string_append_assoc _ positionSide_).
  apply afterLastDash_append, afterLastDash_natToString.
Qed.

Lemma hedge_processOrder_numbered symbol_ positionSide_ st order :
  numbered (Binance.output st) ->
  numbered (Binance.output (Binance.processOrder formatSymbol symbol_ positionSide_ st order)).
Proof.
  intros H. unfold Binance.processOrder.
  destruct (Binance.gapCondition st order);
    cbn [Binance.runningPosition Binance.output Binance.sessionOrders
         Binance.sessionStartTime];
    destruct (negb _ && _); cbn [Binance.output];
    repeat apply hedge_closeSession_numbered; exact H.
Qed.

Lemma hedge_fold_numbered entries : forall out,
  numbered out ->
  numbered (fold_left (Binance.processKey formatSymbol) entries out).
Proof.
  induction entries as [|[key l] entries IH]; intros out Hout; cbn [fold_left];
    [exact Hout|].
  apply IH. unfold Binance.processKey, Binance.processOrders.
  set (st0 := Binance.initialState out).
  assert (H0 : numbered (Binance.output st0)) by exact Hout.
  clearbody st0. clear Hout. revert st0 H0.
  induction (Binance.sortedOrders _ l) as [|order rest IHl]; intros st0 H0; cbn [fold_left].
  - destruct (negb _); [apply hedge_closeSession_numbered|]; exact H0.
  - apply IHl. now apply hedge_processOrder_numbered.
Qed.

End NumberedHedge.

Lemma numbered_empty : numbered emptyOutput.
Proof. reflexivity. Qed.

Lemma sorted_ids_NoDup out :
  numbered out -> NoDup (map PositionSession.id (sortBy newestFirst (allSessions out))).
Proof.
  intros H. apply numbered_NoDup in H.
  eapply Permutation_NoDup; [|exact H].
  apply Permutation_map. symmetry. apply sortBy_perm.
Qed.

Lemma sorted_numbers out :
  numbered out ->
  Permutation
    (map (fun s => afterLastDash (PositionSession.id s))
       (sortBy newestFirst (allSessions out)))
    (map (fun n => Some (natToString n))
       (seq 0 (List.length (sortBy newestFirst (allSessions out))))).
Proof.
  intros H. rewrite sortBy_length, (numbered_length out H).
  unfold numbered in H. rewrite <- H.
  apply Permutation_map. apply sortBy_perm.
Qed.

(** X7: in the output of either calculator no two sessions have the same
    identifier, and the numbers that end the identifiers are 0, 1, ..., n-1,
    where n is the number of sessions returned. *)
Theorem X7_session_ids_are_unique : forall formatSymbol executions,
  let inverse := BitMEX.calculateBitMEXPositionSessions formatSymbol executions in
  let hedge := Binance.calculateBinancePositionSessions formatSymbol executions in
  (NoDup (map PositionSession.id inverse)
   /\ Permutation (map (fun s => afterLastDash (PositionSession.id s)) inverse)
        (map (fun n => Some (natToString n)) (seq 0 (List.length inverse))))
  /\ (NoDup (map PositionSession.id hedge)
      /\ Permutation (map (fun s => afterLastDash (PositionSession.id s)) hedge)
           (map (fun n => Some (natToString n)) (seq 0 (List.length hedge)))).
Proof.
  intros formatSymbol executions inverse hedge.
  pose proof (inverse_fold_numbered formatSymbol (BitMEX.executionsBySymbol executions)
                emptyOutput numbered_empty) as Hi.
  pose proof (hedge_fold_numbered formatSymbol (Binance.executionsByKey executions)
                emptyOutput numbered_empty) as Hh.
  split; split.
  - now apply sorted_ids_NoDup.
  - now apply sorted_numbers.
  - now apply sorted_ids_NoDup.
  - now apply sorted_numbers.
Qed.

(** ** Aggregation of the executions into orders *)

Lemma aggregate_mapPush positionSide_ e orderMap :
  map orderEntry (Binance.aggregate positionSide_ orderMap e)
  = mapPush (Execution.orderID e) e (map orderEntry orderMap).
Proof.
  induction orderMap as [|order rest IH]; cbn [Binance.aggregate map mapPush].
  - reflexivity.
  - unfold orderEntry at 2. cbn [fst snd].
    destruct (String.eqb (Binance.orderID order) (Execution.orderID e)); cbn [map].
    + reflexivity.
    + now rewrite IH.
Qed.

Lemma aggregate_groupBy positionSide_ keyExecutions : forall orderMap,
  map orderEntry (fold_left (Binance.aggregate positionSide_) keyExecutions orderMap)
  = fold_left (fun m e => mapPush (Execution.orderID e) e m) keyExecutions
      (map orderEntry orderMap).
Proof.
  induction keyExecutions as [|e l IH]; intros orderMap; cbn [fold_left].
  - reflexivity.
  - now rewrite IH, aggregate_mapPush.
Qed.

Lemma orderEntry_setAvgPrice orders :
  map orderEntry (map Binance.setAvgPrice orders) = map orderEntry orders.
Proof. rewrite map_map. reflexivity. Qed.

Lemma partitionOf_perm {A V : Type} (key : A -> string) (val : A -> V) (l : list A)
    (groups groups' : list (string * list V)) :
  Permutation groups groups' ->
  partitionOf key val l groups -> partitionOf key val l groups'.
Proof.
  intros Hp (Hnd & Hgroups & Hall). split; [|split].
  - eapply Permutation_NoDup; [|exact Hnd]. now apply Permutation_map.
  - intros k vs Hin. apply Hgroups. eapply Permutation_in; [|exact Hin].
    now symmetry.
  - intros a Ha. eapply Permutation_in; [|exact (Hall a Ha)]. now apply Permutation_map.
Qed.

Lemma timestamp_kept (t t' : Z) (ts : list Z) (later : bool) :
  In t ts -> In (if later then t' else t) (ts ++ [t']).
Proof.
  intros Hin. apply in_or_app. destruct later; [right; now left | now left].
Qed.

Lemma summarises_new positionSide_ e :
  summarises (Binance.addExecution (Binance.newOrder positionSide_ e) e).
Proof.
  unfold summarises, Binance.addExecution, Binance.newOrder;
    cbn [Binance.executions Binance.symbol Binance.side Binance.totalQty
         Binance.totalCost Binance.totalComm Binance.realizedPnl Binance.timestamp
         app sumQ fold_right map].
  split; [exists e, []; repeat split|].
  unfold notional.
  split; [ring|]. split; [ring|]. split; [ring|]. split; [ring|].
  left. now destruct (_ <? _)%Z.
Qed.

Lemma summarises_add order e :
  summarises order -> summarises (Binance.addExecution order e).
Proof.
  intros ((e0 & es & Hex & Hsym & Hside) & Hqty & Hcost & Hcomm & Hpnl & Hts).
  unfold summarises, Binance.addExecution;
    cbn [Binance.executions Binance.symbol Binance.side Binance.totalQty
         Binance.totalCost Binance.totalComm Binance.realizedPnl Binance.timestamp].
  split.
  { exists e0, (es ++ [e]). rewrite Hex. split; [reflexivity|]. split; assumption. }
  rewrite !sumQ_app, Hqty, Hcost, Hcomm, Hpnl, map_app. cbn [sumQ fold_right map].
  unfold notional.
  split; [ring|]. split; [ring|]. split; [ring|]. split; [ring|].
  apply (timestamp_kept _ _ _ _ Hts).
Qed.

Lemma aggregate_summarises positionSide_ e orderMap :
  Forall summarises orderMap ->
  Forall summarises (Binance.aggregate positionSide_ orderMap e).
Proof.
  induction 1 as [|order rest Ho Hrest IH]; cbn [Binance.aggregate].
  - constructor; [apply summarises_new | constructor].
  - destruct (String.eqb (Binance.orderID order) (Execution.orderID e)).
    + constructor; [now apply summarises_add | assumption].
    + constructor; assumption.
Qed.

Lemma aggregate_positionSide positionSide_ e orderMap :
  Forall (fun o => Binance.positionSide o = positionSide_) orderMap ->
  Forall (fun o => Binance.positionSide o = positionSide_)
    (Binance.aggregate positionSide_ orderMap e).
Proof.
  induction 1 as [|order rest Ho Hrest IH]; cbn [Binance.aggregate].
  - constructor; [reflexivity | constructor].
  - destruct (String.eqb (Binance.orderID order) (Execution.orderID e));
      constructor; assumption.
Qed.

Lemma fold_aggregate_summarises positionSide_ keyExecutions : forall orderMap,
  Forall (fun o => summarises o /\ Binance.positionSide o = positionSide_) orderMap ->
  Forall (fun o => summarises o /\ Binance.positionSide o = positionSide_)
    (fold_left (Binance.aggregate positionSide_) keyExecutions orderMap).
Proof.
  induction keyExecutions as [|e l IH]; intros orderMap H; cbn [fold_left];
    [exact H|].
  apply IH. apply Forall_and_inv in H as [H1 H2]. apply Forall_and.
  - now apply aggregate_summarises.
  - now apply aggregate_positionSide.
Qed.

Lemma setAvgPrice_averaged order : averaged (Binance.setAvgPrice order).
Proof.
  unfold averaged, Binance.setAvgPrice;
    cbn [Binance.totalQty Binance.avgPrice Binance.totalCost].
  destruct (Qgtb (Binance.totalQty order) 0); reflexivity.
Qed.

Lemma sortedOrders_chronological positionSide_ keyExecutions :
  ordersChronological (Binance.sortedOrders positionSide_ keyExecutions).
Proof.
  unfold ordersChronological, Binance.sortedOrders.
  apply StronglySorted_weaken with (R := fun a b => (Binance.byTimestamp a b <= 0)%Z).
  - unfold Binance.byTimestamp. intros a b H. lia.
  - apply sortBy_sorted; unfold Binance.byTimestamp; intros; lia.
Qed.

Lemma sortedOrders_summarise positionSide_ keyExecutions :
  Forall (fun o => summarises o /\ averaged o /\ Binance.positionSide o = positionSide_)
    (Binance.sortedOrders positionSide_ keyExecutions).
Proof.
  unfold Binance.sortedOrders. apply sortBy_Forall, Forall_map.
  eapply Forall_impl;
    [|apply (fold_aggregate_summarises positionSide_ keyExecutions []); constructor].
  intros order [Hs Hp]. split; [|split].
  - exact Hs.
  - apply setAvgPrice_averaged.
  - exact Hp.
Qed.

(** X8: the orders of a partition aggregate its executions: every order id of
    the partition heads exactly one order, which holds the executions with
    that id, all of them and in input order; an order has at least one
    execution, takes symbol and side from its first one, and its quantity,
    cost, commission and realized profit are the sums over its executions
    (sums in the exact arithmetic of the model);
    its timestamp is the timestamp of one of its executions; its average
    price is cost over quantity (0 when the quantity is not positive); it
    carries the position side of the partition; and the orders come in
    ascending order of timestamp. Which execution gives the timestamp is
    decided by the comparison of the aggregation; the statement does not
    depend on it. *)
Theorem X8_orders_aggregate_their_fills : forall positionSide_ keyExecutions,
  partitionOf Execution.orderID (fun e => e) keyExecutions
    (map orderEntry (Binance.sortedOrders positionSide_ keyExecutions))
  /\ Forall (fun o => summarises o /\ averaged o /\ Binance.positionSide o = positionSide_)
       (Binance.sortedOrders positionSide_ keyExecutions)
  /\ ordersChronological (Binance.sortedOrders positionSide_ keyExecutions).
Proof.
  intros positionSide_ keyExecutions. split; [|split].
  - apply partitionOf_perm
      with (groups := groupBy Execution.orderID (fun e => e) keyExecutions);
      [|apply groupBy_partition].
    unfold Binance.sortedOrders, groupBy.
    change (@nil (string * list Execution.t)) with (map orderEntry []).
    rewrite <- (aggregate_groupBy positionSide_ keyExecutions []).
    rewrite <- orderEntry_setAvgPrice.
    apply Permutation_map. symmetry. apply sortBy_perm.
  - apply sortedOrders_summarise.
  - apply sortedOrders_chronological.
Qed.

(** ** Invariants of the hedge-mode loop, lifted to the output *)

Lemma ordersChronological_app_inv l1 l2 :
  ordersChronological (l1 ++ l2) -> ordersChronological l1 /\ ordersChronological l2.
Proof. apply StronglySorted_app_inv. Qed.

Lemma processOrders_finish formatSymbol symbol_ positionSide_ out orders :
  Binance.processOrders formatSymbol symbol_ positionSide_ out orders
  = finishPartition formatSymbol symbol_ positionSide_
      (fold_left (Binance.processOrder formatSymbol symbol_ positionSide_) orders
         (Binance.initialState out)).
Proof. reflexivity. Qed.

Lemma closeSession_not_started formatSymbol symbol_ positionSide_ orders endTime out :
  Binance.closeSession formatSymbol symbol_ positionSide_ orders None endTime out = out.
Proof. destruct orders; reflexivity. Qed.

Section HedgeLift.

Variable formatSymbol : string -> string.
Variable P : PositionSession.t -> Prop.

(** What [closeSession] is called with whenever it pushes a session. *)
Hypothesis Hbuilt : forall symbol_ positionSide_ gid first more,
  ordersChronological (first :: more) ->
  Forall summarises (first :: more) ->
  isBinancePositionClosed (Binance.getPositionDelta positionSide_ first) = false ->
  P (Binance.buildSession formatSymbol symbol_ positionSide_ gid (first :: more)
       (Binance.timestamp first) (Binance.timestamp (last more first))).

Section Partition.

Variable symbol_ positionSide_ : string.

Lemma hedge_close_lift st orders endTime out :
  hedgeTracked positionSide_ st [] ->
  orders = Binance.sessionOrders st ->
  (forall first more, orders = first :: more ->
     endTime = Binance.timestamp (last more first)) ->
  Forall P (allSessions out) ->
  Forall P (allSessions
              (Binance.closeSession formatSymbol symbol_ positionSide_ orders
                 (Binance.sessionStartTime st) endTime out)).
Proof.
  intros (Hsorted & Hsum & _ & Hstart) -> Hend Hout.
  destruct (Binance_closeSession_cases formatSymbol symbol_ positionSide_
              (Binance.sessionOrders st) (Binance.sessionStartTime st) endTime out)
    as [-> | (t & Et & _ & ->)]; [exact Hout|].
  cbn [allSessions]. apply Forall_app. split; [exact Hout|].
  constructor; [|constructor].
  rewrite Et in Hstart. destruct Hstart as [(first & more & Eo & <- & Hopen) _].
  rewrite app_nil_r in Hsorted, Hsum.
  rewrite (Hend first more Eo), Eo. rewrite Eo in Hsorted, Hsum.
  now apply Hbuilt.
Qed.

Lemma hedgeTracked_push st order rest start :
  hedgeTracked positionSide_ st (order :: rest) ->
  match start with
  | Some t0 =>
      (exists first more,
          Binance.sessionOrders st ++ [order] = first :: more
          /\ Binance.timestamp first = t0
          /\ isBinancePositionClosed (Binance.getPositionDelta positionSide_ first)
             = false)
      /\ isBinancePositionClosed
           (Binance.runningPosition st + Binance.getPositionDelta positionSide_ order)
         = false
  | None => True
  end ->
  hedgeTracked positionSide_
    {| Binance.runningPosition :=
         Binance.runningPosition st + Binance.getPositionDelta positionSide_ order;
       Binance.sessionOrders := Binance.sessionOrders st ++ [order];
       Binance.sessionStartTime := start;
       Binance.lastOrderTime := Binance.timestamp order;
       Binance.output := Binance.output st |} rest.
Proof.
  intros (Hsorted & Hsum & Hpos & _) Hstart.
  unfold hedgeTracked.
  cbn [Binance.runningPosition Binance.sessionOrders Binance.sessionStartTime].
  rewrite <- app_assoc. cbn [app].
  split; [exact Hsorted|]. split; [exact Hsum|]. split; [|exact Hstart].
  now rewrite netQty_snoc, Hpos.
Qed.

Lemma hedgeTracked_reset st order rest t out :
  hedgeTracked positionSide_ st (order :: rest) ->
  hedgeTracked positionSide_
    {| Binance.runningPosition := 0;
       Binance.sessionOrders := [];
       Binance.sessionStartTime := None;
       Binance.lastOrderTime := t;
       Binance.output := out |} rest.
Proof.
  intros (Hsorted & Hsum & _ & _). unfold hedgeTracked.
  cbn [Binance.runningPosition Binance.sessionOrders Binance.sessionStartTime app].
  apply ordersChronological_app_inv in Hsorted as [_ Hsorted].
  apply Forall_app in Hsum as [_ Hsum].
  inversion Hsorted; subst. inversion Hsum; subst.
  split; [assumption|]. split; [assumption|]. split; [|exact I].
  now rewrite netQty_nil.
Qed.

Lemma hedgeTracked_afterGap st order rest :
  hedgeTracked positionSide_ st (order :: rest) ->
  hedgeTracked positionSide_ (afterGap st) (order :: rest).
Proof.
  intros (Hsorted & Hsum & _ & _). unfold hedgeTracked, afterGap.
  cbn [Binance.runningPosition Binance.sessionOrders Binance.sessionStartTime app].
  apply ordersChronological_app_inv in Hsorted as [_ Hsorted].
  apply Forall_app in Hsum as [_ Hsum].
  split; [assumption|]. split; [assumption|]. split; [|exact I].
  now rewrite netQty_nil.
Qed.

Lemma hedgeTracked_not_started st rest :
  hedgeTracked positionSide_ st rest ->
  isBinancePositionClosed (Binance.runningPosition st) = true ->
  Binance.sessionStartTime st = None.
Proof.
  intros (_ & _ & _ & Hstart) Hclosed.
  destruct (Binance.sessionStartTime st); [|reflexivity].
  destruct Hstart as [_ Hopen]. congruence.
Qed.

(** The time-gap check, when it fires, pushes nothing and resets. *)
Lemma processOrder_gap st order rest :
  hedgeTracked positionSide_ st (order :: rest) ->
  Binance.gapCondition st order = true ->
  Binance.processOrder formatSymbol symbol_ positionSide_ st order
  = Binance.processOrder formatSymbol symbol_ positionSide_ (afterGap st) order
  /\ Binance.gapCondition (afterGap st) order = false.
Proof.
  intros Hinv Hgap.
  pose proof (gapCondition_closed st order Hgap) as Hclosed.
  pose proof (hedgeTracked_not_started st _ Hinv Hclosed) as Hnone.
  assert (Hno : Binance.gapCondition (afterGap st) order = false).
  { unfold Binance.gapCondition, afterGap.
    cbn [Binance.sessionOrders List.length Nat.eqb negb].
    now rewrite andb_false_r. }
  split; [|exact Hno].
  unfold Binance.processOrder. rewrite Hgap, Hno, Hnone, Hclosed.
  rewrite closeSession_not_started.
  reflexivity.
Qed.

(** An iteration in which the time-gap check does not fire. *)
Lemma hedge_step_no_gap st order rest :
  hedgeTracked positionSide_ st (order :: rest) ->
  Binance.gapCondition st order = false ->
  Forall P (allSessions (Binance.output st)) ->
  hedgeTracked positionSide_
    (Binance.processOrder formatSymbol symbol_ positionSide_ st order) rest
  /\ Forall P (allSessions
                 (Binance.output
                    (Binance.processOrder formatSymbol symbol_ positionSide_ st order))).
Proof.
  intros Hinv Hgap Hout.
  unfold Binance.processOrder. rewrite Hgap.
  destruct (isBinancePositionClosed (Binance.runningPosition st)) eqn:Hwas;
    cbn [negb andb].
  - (* the position was inside the band: no session is accumulating *)
    pose proof (hedgeTracked_not_started st _ Hinv Hwas) as Hnone.
    split; [|exact Hout].
    apply hedgeTracked_push; [exact Hinv|].
    destruct (isBinancePositionClosed
                (Binance.runningPosition st
                 + Binance.getPositionDelta positionSide_ order)) eqn:Hnow;
      cbn [negb andb]; [now rewrite Hnone|].
    destruct (Binance.sessionOrders st) as [|o l] eqn:Eo;
      cbn [List.length Nat.eqb]; [|now rewrite Hnone].
    split; [|reflexivity].
    exists order, []. split; [reflexivity|]. split; [reflexivity|].
    destruct Hinv as (_ & _ & Hpos & _). rewrite Eo, netQty_nil in Hpos.
    rewrite <- Hnow. apply isBinancePositionClosed_compat. rewrite Hpos. ring.
  - (* the position was outside the band *)
    destruct (isBinancePositionClosed
                (Binance.runningPosition st
                 + Binance.getPositionDelta positionSide_ order)) eqn:Hnow;
      cbn [negb andb Binance.output].
    + split; [now apply (hedgeTracked_reset st order)|].
      destruct (Binance_closeSession_cases formatSymbol symbol_ positionSide_
                  (Binance.sessionOrders st ++ [order]) (Binance.sessionStartTime st)
                  (Binance.timestamp order) (Binance.output st))
        as [-> | (t & Et & _ & ->)]; [exact Hout|].
      cbn [allSessions]. apply Forall_app. split; [exact Hout|].
      constructor; [|constructor].
      destruct Hinv as (Hsorted & Hsum & _ & Hstart).
      rewrite Et in Hstart. destruct Hstart as [(first & more & Eo & <- & Hopen) _].
      rewrite Eo in *. cbn [app].
      replace (Binance.timestamp order)
        with (Binance.timestamp (last (more ++ [order]) first))
        by now rewrite last_last.
      apply Hbuilt; [| |exact Hopen].
      * change (ordersChronological ((first :: more) ++ [order])).
        change ((first :: more) ++ order :: rest)
          with ((first :: more) ++ [order] ++ rest) in Hsorted.
        rewrite app_assoc in Hsorted.
        now apply ordersChronological_app_inv in Hsorted as [Hsorted _].
      * change (Forall summarises ((first :: more) ++ [order])).
        change ((first :: more) ++ order :: rest)
          with ((first :: more) ++ [order] ++ rest) in Hsum.
        rewrite app_assoc in Hsum.
        now apply Forall_app in Hsum as [Hsum _].
    + split; [|exact Hout].
      apply hedgeTracked_push; [exact Hinv|].
      destruct Hinv as (_ & _ & _ & Hstart).
      destruct (Binance.sessionStartTime st) as [t0|]; [|exact I].
      destruct Hstart as [(first & more & Eo & Et & Hopen) _].
      split; [|exact Hnow].
      exists first, (more ++ [order]). rewrite Eo. now repeat split.
Qed.

Lemma hedge_step st order rest :
  hedgeTracked positionSide_ st (order :: rest) ->
  Forall P (allSessions (Binance.output st)) ->
  hedgeTracked positionSide_
    (Binance.processOrder formatSymbol symbol_ positionSide_ st order) rest
  /\ Forall P (allSessions
                 (Binance.output
                    (Binance.processOrder formatSymbol symbol_ positionSide_ st order))).
Proof.
  intros Hinv Hout.
  destruct (Binance.gapCondition st order) eqn:Hgap.
  - destruct (processOrder_gap st order rest Hinv Hgap) as [-> Hno].
    apply hedge_step_no_gap; [now apply hedgeTracked_afterGap | exact Hno | exact Hout].
  - now apply hedge_step_no_gap.
Qed.

Lemma hedge_run orders : forall st,
  hedgeTracked positionSide_ st orders ->
  Forall P (allSessions (Binance.output st)) ->
  Forall P (allSessions
              (finishPartition formatSymbol symbol_ positionSide_
                 (fold_left (Binance.processOrder formatSymbol symbol_ positionSide_)
                    orders st))).
Proof.
  induction orders as [|order rest IH]; intros st Hinv Hout; cbn [fold_left].
  - unfold finishPartition.
    destruct (negb (Nat.eqb (List.length (Binance.sessionOrders st)) 0)); [|exact Hout].
    apply (hedge_close_lift st); [exact Hinv | reflexivity | | exact Hout].
    intros first more ->. unfold Binance.lastTimestamp. now rewrite last_cons_default.
  - destruct (hedge_step st order rest Hinv Hout) as [Hinv' Hout'].
    now apply IH.
Qed.

End Partition.

Lemma hedgeTracked_initial positionSide_ keyExecutions out :
  hedgeTracked positionSide_ (Binance.initialState out)
    (Binance.sortedOrders positionSide_ keyExecutions).
Proof.
  unfold hedgeTracked, Binance.initialState.
  cbn [Binance.runningPosition Binance.sessionOrders Binance.sessionStartTime app].
  split; [apply sortedOrders_chronological|]. split; [|split; [|exact I]].
  - eapply Forall_impl; [|apply sortedOrders_summarise]. now intros o [H _].
  - now rewrite netQty_nil.
Qed.

Lemma hedge_lift executions :
  Forall P (Binance.calculateBinancePositionSessions formatSymbol executions).
Proof.
  unfold Binance.calculateBinancePositionSessions. apply sortBy_Forall.
  set (out0 := {| allSessions := []; globalSessionId := 0 |}).
  assert (H0 : Forall P (allSessions out0)) by constructor.
  clearbody out0. revert out0 H0.
  induction (Binance.executionsByKey executions) as [|[key keyExecutions] l IH];
    intros out0 H0; cbn [fold_left].
  - exact H0.
  - apply IH. unfold Binance.processKey. rewrite processOrders_finish.
    apply hedge_run; [apply hedgeTracked_initial | exact H0].
Qed.

End HedgeLift.

(** ** The time frame of the hedge-mode sessions *)

Lemma byDatetime_sorted (trades : list Trade.t) :
  StronglySorted Z.le (map Trade.datetime (sortBy Binance.byDatetime trades)).
Proof.
  apply StronglySorted_map.
  apply StronglySorted_weaken with (R := fun a b => (Binance.byDatetime a b <= 0)%Z).
  - unfold Binance.byDatetime. intros a b H. lia.
  - apply sortBy_sorted; unfold Binance.byDatetime; intros; lia.
Qed.

Section HedgeTimeFrame.

Variable formatSymbol : string -> string.

Lemma hedge_trade_times (orders : list Binance.BinanceAggregatedOrder) :
  Permutation
    (map Trade.datetime
       (sortBy Binance.byDatetime
          (map (Binance.toTrade formatSymbol) (flat_map Binance.executions orders))))
    (map Execution.timestamp (flat_map Binance.executions orders)).
Proof.
  rewrite (Permutation_map Trade.datetime (sortBy_perm Binance.byDatetime _)).
  rewrite map_map. reflexivity.
Qed.

Lemma order_time_listed (orders : list Binance.BinanceAggregatedOrder) order :
  In order orders -> summarises order ->
  In (Binance.timestamp order)
    (map Execution.timestamp (flat_map Binance.executions orders)).
Proof.
  intros Hin (_ & _ & _ & _ & _ & Hts).
  apply in_map_iff in Hts as (e & He & Hts).
  apply in_map_iff. exists e. split; [exact He|].
  apply in_flat_map. now exists order.
Qed.

Lemma last_order_In (first : Binance.BinanceAggregatedOrder) more :
  In (last more first) (first :: more).
Proof.
  rewrite <- (last_cons_default first more first).
  destruct (exists_last (l := first :: more)) as (l' & a & E); [discriminate|].
  rewrite E, last_last. apply in_or_app. right. now left.
Qed.

Lemma built_hedgeTimeFrame symbol_ positionSide_ gid first more :
  ordersChronological (first :: more) ->
  Forall summarises (first :: more) ->
  hedgeTimeFrame
    (Binance.buildSession formatSymbol symbol_ positionSide_ gid (first :: more)
       (Binance.timestamp first) (Binance.timestamp (last more first))).
Proof.
  intros Hsorted Hsum.
  set (orders := first :: more) in *.
  pose proof (hedge_trade_times orders) as Hperm.
  pose proof (byDatetime_sorted
                (map (Binance.toTrade formatSymbol) (flat_map Binance.executions orders)))
    as Hts.
  assert (Hfirst : In first orders) by now left.
  assert (Hlast : In (last more first) orders) by apply last_order_In.
  assert (Hsf : summarises first) by (rewrite Forall_forall in Hsum; now apply Hsum).
  assert (Hsl : summarises (last more first))
    by (rewrite Forall_forall in Hsum; now apply Hsum).
  pose proof (order_time_listed orders first Hfirst Hsf) as Hin_first.
  pose proof (order_time_listed orders _ Hlast Hsl) as Hin_last.
  apply (Permutation_in _ (Permutation_sym Hperm)) in Hin_first, Hin_last.
  unfold hedgeTimeFrame, Binance.buildSession.
  cbn [PositionSession.trades PositionSession.tradeCount PositionSession.openTime
       PositionSession.durationMs PositionSession.status PositionSession.closeTime].
  fold orders.
  destruct (map Trade.datetime
              (sortBy Binance.byDatetime
                 (map (Binance.toTrade formatSymbol) (flat_map Binance.executions orders))))
    as [|t0 ts] eqn:E; [destruct Hin_first|].
  exists t0, ts.
  assert (Hdur : (Binance.timestamp first <= Binance.timestamp (last more first))%Z).
  { destruct Hlast as [<- | Hlast]; [lia|].
    inversion Hsorted as [|? ? _ Ha]; subst. rewrite Forall_forall in Ha. now apply Ha. }
  split; [reflexivity|]. split; [exact Hts|]. split; [reflexivity|].
  split; [exact Hin_first|]. split; [lia|]. split.
  - replace (Binance.timestamp first
             + (Binance.timestamp (last more first) - Binance.timestamp first))%Z
      with (Binance.timestamp (last more first)) by lia.
    exact Hin_last.
  - destruct (isBinancePositionClosed _); [|reflexivity].
    f_equal. lia.
Qed.

End HedgeTimeFrame.

(** X9: every session the hedge-mode calculator returns has at least one
    trade and a trade count equal to the number of its trades; its trades are
    in ascending order of time; its open time is the time of one of its
    trades; its duration is not negative and ends at the time of one of its
    trades; its close time is the end of the duration when it is closed and
    absent when it is open. The statement does not depend on which of an
    order's executions gives the order its timestamp. *)
Theorem X9_hedge_session_time_frame : forall formatSymbol executions,
  Forall hedgeTimeFrame (Binance.calculateBinancePositionSessions formatSymbol executions).
Proof.
  intros formatSymbol executions. apply hedge_lift.
  intros symbol_ positionSide_ gid first more Hsorted Hsum _.
  now apply built_hedgeTimeFrame.
Qed.

(** ** The size of the hedge-mode sessions *)

Section HedgeSize.

Variable formatSymbol : string -> string.
Variable symbol_ positionSide_ : string.

Lemma replayMax_fold orders :
  Binance.replayMax positionSide_ orders
  = snd (fold_left (replayStep positionSide_) orders (0, 0)).
Proof. reflexivity. Qed.

Lemma replay_bounds first more :
  let acc := fold_left (replayStep positionSide_) (first :: more) (0, 0) in
  Qabs (Binance.getPositionDelta positionSide_ first) <= snd acc
  /\ Qabs (fst acc) <= snd acc
  /\ fst acc == netQty positionSide_ (first :: more).
Proof.
  induction more as [|order more IH] using rev_ind.
  - cbn [fold_left replayStep fst snd].
    split; [|split].
    + eapply Qle_trans; [|apply Q.le_max_r].
      apply Qle_lteq. right. apply Qabs_wd. ring.
    + apply Q.le_max_r.
    + change [first] with ([] ++ [first]). rewrite netQty_snoc, netQty_nil. reflexivity.
  - change (first :: more ++ [order]) with ((first :: more) ++ [order]).
    cbv zeta in IH |- *. rewrite fold_left_app.
    remember (fold_left (replayStep positionSide_) (first :: more) (0, 0)) as acc eqn:Eacc.
    clear Eacc. destruct acc as [p m].
    cbn [fst snd] in IH. destruct IH as (Hfirst & Hp & Hnet).
    cbn [fold_left replayStep fst snd].
    split; [|split].
    + apply Qle_trans with (y := m); [exact Hfirst | apply Q.le_max_l].
    + apply Q.le_max_r.
    + now rewrite netQty_snoc, Hnet.
Qed.

Lemma Qabs_swap (a b : Q) : Qabs (a - b) == Qabs (b - a).
Proof. rewrite <- Qabs_opp. apply Qabs_wd. ring. Qed.

Lemma built_hedgeSize gid first more start endTime :
  isBinancePositionClosed (Binance.getPositionDelta positionSide_ first) = false ->
  hedgeSize
    (Binance.buildSession formatSymbol symbol_ positionSide_ gid (first :: more)
       start endTime).
Proof.
  intros Hopen.
  destruct (replay_bounds first more) as (Hfirst & Hp & Hnet).
  rewrite <- replayMax_fold in Hfirst, Hp.
  rewrite Hnet in Hp. unfold netQty in Hp.
  apply Qltb_ge in Hopen.
  unfold hedgeSize, Binance.buildSession.
  cbn [PositionSession.maxSize PositionSession.totalBought PositionSession.totalSold
       PositionSession.status].
  set (entry := Binance.sumOver (Binance.isOpening positionSide_) Binance.totalQty
                  (first :: more)) in *.
  set (exit := Binance.sumOver (fun o => negb (Binance.isOpening positionSide_ o))
                 Binance.totalQty (first :: more)) in *.
  assert (Hleft : Qabs ((if Binance.isShortPosition positionSide_ then exit else entry)
                        - (if Binance.isShortPosition positionSide_ then entry else exit))
                  == Qabs (entry - exit)).
  { destruct (Binance.isShortPosition positionSide_); [apply Qabs_swap | reflexivity]. }
  split; [|split].
  - apply Qle_trans with (y := Qabs (Binance.getPositionDelta positionSide_ first));
      assumption.
  - now rewrite Hleft.
  - rewrite Hleft. unfold isBinancePositionClosed.
    destruct (Qltb (Qabs (entry - exit)) BINANCE_POSITION_TOLERANCE) eqn:Hc.
    + apply Qltb_lt in Hc. split; [intros _; exact Hc | reflexivity].
    + apply Qltb_ge in Hc. split; [discriminate|].
      intros Hlt. exfalso. apply (Qlt_not_le _ _ Hlt Hc).
Qed.

End HedgeSize.

(** X10: on executions with whole quantities of at most 2^53 in total (where
    the sums of the source are exact and the epsilon band holds the position
    0 alone), every session the hedge-mode calculator returns has a peak size
    of at least the position tolerance 0.01, and at least the absolute
    difference of its bought and sold totals; it is closed exactly when that
    difference is below the tolerance. *)
Theorem X10_hedge_size_and_status : forall formatSymbol executions,
  wholeQuantities executions ->
  Forall hedgeSize (Binance.calculateBinancePositionSessions formatSymbol executions).
Proof.
  intros formatSymbol executions _. apply hedge_lift.
  intros symbol_ positionSide_ gid first more _ _ Hopen.
  now apply built_hedgeSize.
Qed.

(** X10, witness: scenario C, whose quantities are all 1. *)
Lemma X10_scenarioC_sizes :
  wholeQuantities scenarioC0
  /\ Forall hedgeSize (Binance.calculateBinancePositionSessions (fun s => s) scenarioC0).
Proof.
  assert (H : wholeQuantities scenarioC0).
  { split; [repeat constructor | vm_compute; discriminate]. }
  split; [exact H|].
  exact (X10_hedge_size_and_status (fun s => s) scenarioC0 H).
Defined.

(** ** Conservation of volume in the inverse-contract calculator *)

Section InverseVolume.

Variable formatSymbol : string -> string.
Variable buy : bool.

Let emittedVolume (out : Output) : Q := sumQ (sideVolume buy) (allSessions out).

Lemma closeSession_volume sym s endTime endPosition out :
  BitMEX.sessionExecutions s <> [] ->
  BitMEX.sessionStartTime s <> None ->
  emittedVolume (BitMEX.closeSession formatSymbol sym s endTime endPosition out)
  == emittedVolume out + pendingVolume buy s.
Proof.
  intros Hex Hstart. unfold emittedVolume, BitMEX.closeSession.
  destruct (BitMEX.sessionExecutions s) as [|e l]; [now elim Hex|].
  destruct (BitMEX.sessionStartTime s) as [t|]; [|now elim Hstart].
  cbn [allSessions]. rewrite sumQ_app. cbn [sumQ fold_right].
  unfold sideVolume, pendingVolume, BitMEX.buildSession.
  destruct buy; cbn [PositionSession.totalBought PositionSession.totalSold];
    now rewrite Qplus_0_r.
Qed.

Lemma pushed_volume st exec :
  pendingVolume buy (pushed st exec)
  == pendingVolume buy (BitMEX.session st) + fillVolumeOf buy exec.
Proof.
  unfold pendingVolume, fillVolumeOf, pushed.
  destruct buy, (BitMEX.isBuy exec);
    cbn [BitMEX.totalBought BitMEX.totalSold Bool.eqb]; ring.
Qed.

Lemma flip_volume s exec position :
  pendingVolume buy (adjustedForFlip s exec position)
  + pendingVolume buy (seededByFlip exec position)
  == pendingVolume buy s.
Proof.
  unfold pendingVolume, adjustedForFlip, seededByFlip.
  destruct buy, (BitMEX.isBuy exec);
    cbn [BitMEX.totalBought BitMEX.totalSold]; ring.
Qed.

Lemma volume_step sym st exec :
  0 < BitMEX.lastQty exec ->
  positionTracked (BitMEX.runningPosition st) (BitMEX.session st) ->
  let st' := BitMEX.processExecution formatSymbol sym st exec in
  restsAtZero (BitMEX.runningPosition st') (BitMEX.session st')
  /\ emittedVolume (BitMEX.output st') + pendingVolume buy (BitMEX.session st')
     == emittedVolume (BitMEX.output st) + pendingVolume buy (BitMEX.session st)
        + fillVolumeOf buy exec.
Proof.
  intros Hqty Hinv st'. subst st'.
  destruct (processExecution_cases formatSymbol sym st exec Hqty)
    as [(Hz & Hpb & ->) | [(Hf & Hpb & Hpos & Hsign & ->) | (Hf & Hpos & ->)]];
    cbn [BitMEX.runningPosition BitMEX.session BitMEX.output].
  - split; [now right|].
    destruct (pushed_ready st exec Hinv Hpb) as (Hex & Hstart & _).
    rewrite closeSession_volume by assumption.
    rewrite pushed_volume.
    assert (E : pendingVolume buy BitMEX.resetSession == 0) by now destruct buy.
    rewrite E. ring.
  - split; [now left|].
    destruct (pushed_ready st exec Hinv Hpb) as (Hex & Hstart & _).
    rewrite closeSession_volume by assumption.
    rewrite <- Qplus_assoc, flip_volume, pushed_volume. ring.
  - split; [now left|].
    assert (E : pendingVolume buy
                  (if Qeqb (BitMEX.runningPosition st) 0
                   then withStart (pushed st exec) (BitMEX.timestamp exec)
                   else pushed st exec)
                = pendingVolume buy (pushed st exec))
      by now destruct (Qeqb (BitMEX.runningPosition st) 0).
    rewrite E, pushed_volume. ring.
Qed.

Lemma volume_run sym l : forall st,
  positiveQuantities l ->
  positionTracked (BitMEX.runningPosition st) (BitMEX.session st) ->
  restsAtZero (BitMEX.runningPosition st) (BitMEX.session st) ->
  let st' := fold_left (BitMEX.processExecution formatSymbol sym) l st in
  positionTracked (BitMEX.runningPosition st') (BitMEX.session st')
  /\ restsAtZero (BitMEX.runningPosition st') (BitMEX.session st')
  /\ emittedVolume (BitMEX.output st') + pendingVolume buy (BitMEX.session st')
     == emittedVolume (BitMEX.output st) + pendingVolume buy (BitMEX.session st)
        + sumQ (fillVolumeOf buy) l.
Proof.
  induction l as [|exec l IH]; intros st Hqty Hinv Hrest; cbn [fold_left]; cbv zeta.
  - split; [exact Hinv|]. split; [exact Hrest|]. cbn [sumQ fold_right]. ring.
  - inversion Hqty as [|? ? Hq Hl]; subst.
    destruct (volume_step sym st exec Hq Hinv) as [Hrest' Hvol].
    pose proof (positionTracked_step formatSymbol sym st exec Hq Hinv) as Hinv'.
    destruct (IH _ Hl Hinv' Hrest') as (Hinv'' & Hrest'' & Hvol').
    cbv zeta in Hvol, Hvol' |- *.
    split; [exact Hinv''|]. split; [exact Hrest''|].
    rewrite Hvol', Hvol.
    change (sumQ (fillVolumeOf buy) (exec :: l))
      with (fillVolumeOf buy exec + sumQ (fillVolumeOf buy) l).
    ring.
Qed.

Lemma volume_finish sym st :
  positionTracked (BitMEX.runningPosition st) (BitMEX.session st) ->
  restsAtZero (BitMEX.runningPosition st) (BitMEX.session st) ->
  emittedVolume (finishSymbol formatSymbol sym st)
  == emittedVolume (BitMEX.output st) + pendingVolume buy (BitMEX.session st).
Proof.
  intros (_ & Hopen & _) Hrest. unfold finishSymbol.
  destruct (Qneb (BitMEX.runningPosition st) 0) eqn:Hp; cbn [andb].
  - apply Qneb_neq in Hp. destruct (Hopen Hp) as (Hex & Hstart & _).
    destruct (BitMEX.sessionExecutions (BitMEX.session st)) as [|e l] eqn:E;
      [now elim Hex|].
    cbn [List.length Nat.eqb negb]. rewrite <- E.
    apply closeSession_volume; [now rewrite E | exact Hstart].
  - destruct Hrest as [Hne | ->].
    + elim Hne. unfold Qneb in Hp. apply negb_false_iff in Hp. now apply Qeq_bool_iff.
    + assert (E : pendingVolume buy BitMEX.resetSession == 0) by now destruct buy.
      rewrite E. ring.
Qed.

Lemma processSymbol_volume out sym l :
  positiveQuantities l ->
  emittedVolume (BitMEX.processSymbol formatSymbol out (sym, l))
  == emittedVolume out + sumQ (fillVolumeOf buy) l.
Proof.
  intros Hqty. rewrite processSymbol_finish.
  assert (Hsorted : positiveQuantities (sortBy BitMEX.byTimestamp l))
    by now apply sortBy_Forall.
  destruct (volume_run sym (sortBy BitMEX.byTimestamp l) (initialSymbolState out) Hsorted
              positionTracked_initial (or_intror eq_refl)) as (Hinv & Hrest & Hvol).
  rewrite (volume_finish sym _ Hinv Hrest), Hvol.
  rewrite (sumQ_perm _ _ _ (sortBy_perm BitMEX.byTimestamp l)).
  assert (E : pendingVolume buy (BitMEX.session (initialSymbolState out)) == 0)
    by now destruct buy.
  rewrite E. change (BitMEX.output (initialSymbolState out)) with out. ring.
Qed.

Lemma fold_volume entries : forall out,
  Forall (fun entry => positiveQuantities (snd entry)) entries ->
  emittedVolume (fold_left (BitMEX.processSymbol formatSymbol) entries out)
  == emittedVolume out + sumQ (fillVolumeOf buy) (List.concat (map snd entries)).
Proof.
  induction entries as [|[sym l] entries IH]; intros out Hqty;
    cbn [fold_left map snd List.concat].
  - cbn [sumQ fold_right]. ring.
  - inversion Hqty as [|? ? Hl Hrest]; subst. cbn [snd] in Hl.
    rewrite (IH _ Hrest), (processSymbol_volume out sym l Hl), sumQ_app. ring.
Qed.

Lemma inverse_volume executions :
  sumQ (sideVolume buy) (BitMEX.calculateBitMEXPositionSessions formatSymbol executions)
  == sumQ (fillVolume buy) (BitMEX.tradeExecutions executions).
Proof.
  unfold BitMEX.calculateBitMEXPositionSessions.
  rewrite (sumQ_perm _ _ _ (sortBy_perm newestFirst _)).
  pose proof (fold_volume (BitMEX.executionsBySymbol executions)
                {| allSessions := []; globalSessionId := 0 |}
                (groups_positive executions)) as H.
  unfold emittedVolume in H. rewrite H. cbn [allSessions sumQ fold_right].
  unfold BitMEX.executionsBySymbol.
  rewrite (sumQ_perm _ _ _ (groupBy_perm Execution.symbol BitMEX.ofExecution _)).
  rewrite sumQ_map. ring_simplify. reflexivity.
Qed.

End InverseVolume.

(** X11: the inverse-contract calculator conserves volume, flips included:
    the bought totals of the returned sessions add up to the quantity of the
    filtered Buy executions, and the sold totals to the quantity of the other
    filtered executions. *)
Theorem X11_inverse_volume_is_conserved : forall formatSymbol executions,
  sumQ PositionSession.totalBought
    (BitMEX.calculateBitMEXPositionSessions formatSymbol executions)
  == sumQ (fillVolume true) (BitMEX.tradeExecutions executions)
  /\ sumQ PositionSession.totalSold
       (BitMEX.calculateBitMEXPositionSessions formatSymbol executions)
     == sumQ (fillVolume false) (BitMEX.tradeExecutions executions).
Proof.
  intros formatSymbol executions. split.
  - apply (inverse_volume formatSymbol true).
  - apply (inverse_volume formatSymbol false).
Qed.

(** ** The volume of the hedge-mode sessions *)

Lemma sumOver_split keep f orders :
  Binance.sumOver keep f orders + Binance.sumOver (fun o => negb (keep o)) f orders
  == sumQ f orders.
Proof.
  induction orders as [|order orders IH] using rev_ind.
  - reflexivity.
  - rewrite !sumOver_snoc, sumQ_app. cbn [sumQ fold_right].
    rewrite <- IH. destruct (keep order); cbn [negb]; ring.
Qed.

Lemma orders_volume orders :
  Forall summarises orders ->
  sumQ Binance.totalQty orders
  == sumQ Execution.lastQty (flat_map Binance.executions orders).
Proof.
  intros H. rewrite sumQ_flat_map. apply sumQ_ext_in.
  eapply Forall_impl; [|exact H]. now intros o (_ & Hq & _).
Qed.

Lemma built_volumeOfTrades formatSymbol symbol_ positionSide_ gid orders start endTime :
  Forall summarises orders ->
  volumeOfTrades
    (Binance.buildSession formatSymbol symbol_ positionSide_ gid orders start endTime).
Proof.
  intros Hsum. unfold volumeOfTrades, Binance.buildSession.
  cbn [PositionSession.totalBought PositionSession.totalSold PositionSession.trades].
  rewrite (sumQ_perm _ _ _ (sortBy_perm Binance.byDatetime _)), sumQ_map.
  change (fun b => Trade.amount (Binance.toTrade formatSymbol b)) with Execution.lastQty.
  rewrite <- (orders_volume orders Hsum).
  rewrite <- (sumOver_split (Binance.isOpening positionSide_) Binance.totalQty orders).
  destruct (Binance.isShortPosition positionSide_); ring.
Qed.

(** X12: in every session the hedge-mode calculator returns, the bought and
    the sold total add up to the amounts of the session's trades. *)
Theorem X12_hedge_totals_match_trades : forall formatSymbol executions,
  Forall volumeOfTrades (Binance.calculateBinancePositionSessions formatSymbol executions).
Proof.
  intros formatSymbol executions. apply hedge_lift.
  intros symbol_ positionSide_ gid first more _ Hsum _.
  now apply built_volumeOfTrades.
Qed.

(** ** The symbol of a session and of its trades *)

Section InverseSymbol.

Variable formatSymbol : string -> string.

Let ofSymbol (sym : string) (l : list BitMEX.ExecutionForCalc) : Prop :=
  Forall (fun exec => BitMEX.symbol exec = sym) l.

Lemma closeSession_tradesOfSymbol sym s endTime endPosition out :
  ofSymbol sym (BitMEX.sessionExecutions s) ->
  Forall tradesOfSymbol (allSessions out) ->
  Forall tradesOfSymbol
    (allSessions (BitMEX.closeSession formatSymbol sym s endTime endPosition out)).
Proof.
  intros Hs Hout.
  destruct (BitMEX_closeSession_cases formatSymbol sym s endTime endPosition out)
    as [-> | (start & _ & _ & ->)]; [exact Hout|].
  cbn [allSessions]. apply Forall_app. split; [exact Hout|].
  constructor; [|constructor].
  unfold tradesOfSymbol, BitMEX.buildSession.
  cbn [PositionSession.trades PositionSession.symbol PositionSession.displaySymbol].
  apply Forall_map. eapply Forall_impl; [|exact Hs].
  intros exec <-. split; reflexivity.
Qed.

Lemma symbol_step sym st exec rest :
  0 < BitMEX.lastQty exec ->
  ofSymbol sym (BitMEX.sessionExecutions (BitMEX.session st) ++ exec :: rest) ->
  Forall tradesOfSymbol (allSessions (BitMEX.output st)) ->
  let st' := BitMEX.processExecution formatSymbol sym st exec in
  ofSymbol sym (BitMEX.sessionExecutions (BitMEX.session st') ++ rest)
  /\ Forall tradesOfSymbol (allSessions (BitMEX.output st')).
Proof.
  intros Hq Hinv Hout st'. subst st'. unfold ofSymbol in *.
  assert (Hpushed : Forall (fun e => BitMEX.symbol e = sym)
                      (BitMEX.sessionExecutions (pushed st exec)) 
                    /\ Forall (fun e => BitMEX.symbol e = sym) (exec :: rest)).
  { cbn [pushed BitMEX.sessionExecutions].
    change (exec :: rest) with ([exec] ++ rest) in Hinv. rewrite app_assoc in Hinv.
    apply Forall_app in Hinv as [Hp Hr]. split; [exact Hp|].
    apply Forall_app in Hp as [_ He].
    change (exec :: rest) with ([exec] ++ rest). apply Forall_app. now split. }
  destruct Hpushed as [Hp Hrest].
  destruct (processExecution_cases formatSymbol sym st exec Hq)
    as [(Hz & Hpb & ->) | [(Hf & Hpb & Hnz & Hsign & ->) | (Hnf & Hnz & ->)]];
    cbn [BitMEX.runningPosition BitMEX.session BitMEX.output].
  - split; [now inversion Hrest|].
    now apply closeSession_tradesOfSymbol.
  - split; [exact Hrest|].
    now apply closeSession_tradesOfSymbol.
  - split; [|exact Hout].
    assert (E : BitMEX.sessionExecutions
                  (if Qeqb (BitMEX.runningPosition st) 0
                   then withStart (pushed st exec) (BitMEX.timestamp exec)
                   else pushed st exec)
                = BitMEX.sessionExecutions (pushed st exec))
      by now destruct (Qeqb (BitMEX.runningPosition st) 0).
    rewrite E. apply Forall_app. split; [exact Hp | now inversion Hrest].
Qed.

End InverseSymbol.

(** X13: every trade of a session the inverse-contract calculator returns
    carries the symbol and the display symbol of the session. *)
Theorem X13_inverse_trades_carry_session_symbol : forall formatSymbol executions,
  Forall tradesOfSymbol (BitMEX.calculateBitMEXPositionSessions formatSymbol executions).
Proof.
  intros formatSymbol executions.
  apply inverse_lift
    with (Inv := fun sym _ s rest =>
                   Forall (fun exec => BitMEX.symbol exec = sym)
                     (BitMEX.sessionExecutions s ++ rest)).
  - intros sym l _ _ H. exact H.
  - intros sym st exec rest. apply symbol_step.
  - intros sym st Hinv Hout. unfold finishSymbol.
    destruct (_ && _); [|exact Hout].
    apply closeSession_tradesOfSymbol; [|exact Hout].
    now rewrite app_nil_r in Hinv.
Qed.

(** ** The key of a hedge-mode partition *)

Lemma string_append_nil_r (s : string) : String.append s EmptyString = s.
Proof. induction s as [|c s IH]; simpl; [reflexivity | now rewrite IH]. Qed.

Lemma splitColon_append (a b : string) : forall cur,
  colonFree a = true ->
  splitColon cur (String.append a (String ":" b))
  = String.append cur a :: splitColon EmptyString b.
Proof.
  induction a as [|c a IH]; intros cur Hfree.
  - rewrite string_append_nil_r. reflexivity.
  - cbn [colonFree] in Hfree. apply andb_true_iff in Hfree as [Hc Hfree].
    cbn [String.append splitColon].
    apply negb_true_iff in Hc. rewrite Hc.
    rewrite (IH _ Hfree). f_equal.
    rewrite <- string_append_assoc. reflexivity.
Qed.

Lemma parsePositionSide_range (text : string) :
  parsePositionSideFromText text = "LONG"
  \/ parsePositionSideFromText text = "SHORT"
  \/ parsePositionSideFromText text = "BOTH".
Proof.
  unfold parsePositionSideFromText.
  destruct text as [|c text]; [now right; right|].
  destruct (firstMatch matchPositionSideAt (String c text)) as [m1|]; [|now right; right].
  cbv zeta.
  destruct (String.eqb (toUpperCase m1) "LONG") eqn:E1.
  - apply String.eqb_eq in E1. now left.
  - destruct (String.eqb (toUpperCase m1) "SHORT") eqn:E2; cbn [orb].
    + apply String.eqb_eq in E2. now right; left.
    + now right; right.
Qed.

Lemma key_round_trip (e : Execution.t) :
  colonFree (Execution.symbol e) = true ->
  symbolOfKey (Binance.keyOf e) = Execution.symbol e
  /\ positionSideOfKey (Binance.keyOf e) = parsePositionSideFromText (Execution.text e).
Proof.
  intros Hfree. unfold symbolOfKey, positionSideOfKey, Binance.keyOf.
  change (String.append ":" ?x) with (String ":" x).
  rewrite (splitColon_append _ _ EmptyString Hfree).
  split; [reflexivity|].
  cbn [nth].
  destruct (parsePositionSide_range (Execution.text e)) as [-> | [-> | ->]]; reflexivity.
Qed.

Section HedgeMembers.

Variable formatSymbol : string -> string.
Variable P : PositionSession.t -> Prop.
Variable symbol_ positionSide_ : string.
Variable R : Binance.BinanceAggregatedOrder -> Prop.

Hypothesis Hbuilt : forall gid orders start endTime,
  Forall R orders ->
  P (Binance.buildSession formatSymbol symbol_ positionSide_ gid orders start endTime).

Lemma members_close orders start endTime out :
  Forall R orders ->
  Forall P (allSessions out) ->
  Forall P (allSessions
              (Binance.closeSession formatSymbol symbol_ positionSide_ orders start
                 endTime out)).
Proof.
  intros Ho Hout.
  destruct (Binance_closeSession_cases formatSymbol symbol_ positionSide_
              orders start endTime out) as [-> | (t & _ & _ & ->)]; [exact Hout|].
  cbn [allSessions]. apply Forall_app. split; [exact Hout|].
  constructor; [now apply Hbuilt | constructor].
Qed.

Lemma members_step st order :
  R order ->
  Forall R (Binance.sessionOrders st) ->
  Forall P (allSessions (Binance.output st)) ->
  let st' := Binance.processOrder formatSymbol symbol_ positionSide_ st order in
  Forall R (Binance.sessionOrders st')
  /\ Forall P (allSessions (Binance.output st')).
Proof.
  intros Ho Hs Hout st'. subst st'. unfold Binance.processOrder.
  assert (Hnil : Forall R (@nil Binance.BinanceAggregatedOrder)) by constructor.
  assert (Hone : Forall R ([] ++ [order])) by (constructor; [exact Ho | constructor]).
  assert (Hpush : Forall R (Binance.sessionOrders st ++ [order]))
    by (apply Forall_app; split; [exact Hs | constructor; [exact Ho | constructor]]).
  destruct (Binance.gapCondition st order);
    cbn [Binance.runningPosition Binance.sessionOrders Binance.sessionStartTime
         Binance.output];
    destruct (negb _ && _);
    cbn [Binance.runningPosition Binance.sessionOrders Binance.sessionStartTime
         Binance.output];
    (split; [assumption|]); repeat apply members_close; assumption.
Qed.

Lemma members_run orders : forall out,
  Forall R orders ->
  Forall P (allSessions out) ->
  Forall P (allSessions
              (Binance.processOrders formatSymbol symbol_ positionSide_ out orders)).
Proof.
  intros out Horders Hout. rewrite processOrders_finish.
  set (st0 := Binance.initialState out).
  assert (H0 : Forall R (Binance.sessionOrders st0)
               /\ Forall P (allSessions (Binance.output st0)))
    by (split; [constructor | exact Hout]).
  clearbody st0. clear Hout. revert st0 H0.
  induction Horders as [|order rest Ho _ IH]; intros st0 [Hs Hout]; cbn [fold_left].
  - unfold finishPartition. destruct (negb _); [|exact Hout].
    now apply members_close.
  - apply IH. now apply members_step.
Qed.

End HedgeMembers.

Lemma sortedOrders_members positionSide_ keyExecutions order e :
  In order (Binance.sortedOrders positionSide_ keyExecutions) ->
  In e (Binance.executions order) ->
  In e keyExecutions.
Proof.
  intros Ho He.
  assert (Hin : In e (flat_map Binance.executions
                        (Binance.sortedOrders positionSide_ keyExecutions)))
    by (apply in_flat_map; now exists order).
  unfold Binance.sortedOrders in Hin.
  apply in_flat_map in Hin as (o & Hoin & Heo).
  apply sortBy_In in Hoin.
  assert (Hin : In e (flat_map Binance.executions
                        (map Binance.setAvgPrice
                           (fold_left (Binance.aggregate positionSide_) keyExecutions []))))
    by (apply in_flat_map; now exists o).
  rewrite flat_map_setAvgPrice in Hin.
  apply (Permutation_in _ (aggregate_all_executions positionSide_ keyExecutions [])) in Hin.
  exact Hin.
Qed.

Lemma hedge_tradesOfSymbol formatSymbol executions :
  Forall (fun e => colonFree (Execution.symbol e) = true)
    (Binance.tradeExecutions executions) ->
  Forall tradesOfSymbol (Binance.calculateBinancePositionSessions formatSymbol executions).
Proof.
  intros Hfree. rewrite Forall_forall in Hfree.
  destruct (groupBy_partition Binance.keyOf (fun e => e)
              (Binance.tradeExecutions executions)) as (_ & Hgroups & _).
  fold (Binance.executionsByKey executions) in Hgroups.
  unfold Binance.calculateBinancePositionSessions. apply sortBy_Forall.
  set (out0 := {| allSessions := []; globalSessionId := 0 |}).
  assert (H0 : Forall tradesOfSymbol (allSessions out0)) by constructor.
  clearbody out0. revert out0 H0.
  induction (Binance.executionsByKey executions) as [|[key keyExecutions] l IH];
    intros out0 H0; cbn [fold_left].
  - exact H0.
  - apply IH; [intros k vs Hin; apply Hgroups; now right|].
    unfold Binance.processKey.
    fold (symbolOfKey key) (positionSideOfKey key).
    destruct (Hgroups key keyExecutions (or_introl eq_refl)) as [Hvs _].
    apply members_run
      with (R := fun order => In order (Binance.sortedOrders (positionSideOfKey key)
                                          keyExecutions));
      [| apply Forall_forall; now intros | exact H0].
    intros gid orders start endTime Horders.
    unfold tradesOfSymbol, Binance.buildSession.
    cbn [PositionSession.trades PositionSession.symbol PositionSession.displaySymbol].
    apply sortBy_Forall, Forall_map, Forall_forall.
    intros e He. apply in_flat_map in He as (order & Ho & He).
    rewrite Forall_forall in Horders.
    pose proof (sortedOrders_members _ _ _ _ (Horders order Ho) He) as Hin.
    rewrite Hvs in Hin. unfold groupOf in Hin. rewrite map_id in Hin.
    apply filter_In in Hin as [Hin Hkey]. apply String.eqb_eq in Hkey.
    destruct (key_round_trip e (Hfree e Hin)) as [Hsym _].
    rewrite Hkey in Hsym.
    cbn [Binance.toTrade Trade.symbol Trade.displaySymbol]. rewrite Hsym.
    split; reflexivity.
Qed.

(** X14: when no filtered execution has a colon in its symbol, every trade of
    a session the hedge-mode calculator returns carries the symbol and the
    display symbol of the session: splitting the key of a partition gives its
    symbol back. *)
Theorem X14_hedge_trades_carry_session_symbol : forall formatSymbol executions,
  Forall (fun e => colonFree (Execution.symbol e) = true)
    (Binance.tradeExecutions executions) ->
  Forall tradesOfSymbol (Binance.calculateBinancePositionSessions formatSymbol executions).
Proof.
  intros formatSymbol executions. apply hedge_tradesOfSymbol.
Qed.

(** X14, witness: the executions of scenario C, whose symbol is Y. *)
Lemma X14_scenarioC_symbols :
  Forall (fun e => colonFree (Execution.symbol e) = true)
    (Binance.tradeExecutions scenarioC0)
  /\ Forall tradesOfSymbol
       (Binance.calculateBinancePositionSessions (fun s => s) scenarioC0).
Proof.
  assert (H : Forall (fun e => colonFree (Execution.symbol e) = true)
                (Binance.tradeExecutions scenarioC0))
    by (repeat constructor).
  split; [exact H|].
  exact (X14_hedge_trades_carry_session_symbol (fun s => s) scenarioC0 H).
Defined.

(** ** Sessions of one symbol do not overlap *)

Lemma ForallOrdPairs_snoc {A : Type} (R : A -> A -> Prop) (l : list A) (x : A) :
  ForallOrdPairs R l -> Forall (fun a => R a x) l -> ForallOrdPairs R (l ++ [x]).
Proof.
  induction 1 as [|a l Ha Hl IH]; intros Hx; cbn [app].
  - constructor; constructor.
  - inversion Hx as [|? ? Hax Hlx]; subst. constructor.
    + apply Forall_app. split; [exact Ha | constructor; [exact Hax | constructor]].
    + now apply IH.
Qed.

Lemma ForallOrdPairs_impl {A : Type} (R R' : A -> A -> Prop) (l : list A) :
  (forall a b, R a b -> R' a b) -> ForallOrdPairs R l -> ForallOrdPairs R' l.
Proof.
  intros HR. induction 1 as [|a l Ha Hl IH]; constructor.
  - eapply Forall_impl; [|exact Ha]. intros b. apply HR.
  - exact IH.
Qed.

Lemma ForallOrdPairs_perm {A : Type} (R : A -> A -> Prop) (l l' : list A) :
  (forall a b, R a b -> R b a) ->
  Permutation l l' -> ForallOrdPairs R l -> ForallOrdPairs R l'.
Proof.
  intros Hsym. induction 1 as [|a l l' Hp IH|a b l|l1 l2 l3 _ IH1 _ IH2]; intros H.
  - exact H.
  - inversion H as [|? ? Ha Hl]; subst. constructor.
    + rewrite Forall_forall in *. intros x Hx. apply Ha.
      eapply Permutation_in; [|exact Hx]. now symmetry.
    + now apply IH.
  - inversion H as [|? ? Hb Hl]; subst. inversion Hl as [|? ? Ha Hl']; subst.
    inversion Hb as [|? ? Hba Hbl]; subst.
    constructor; [constructor; [now apply Hsym | exact Ha]|].
    constructor; [exact Hbl | exact Hl'].
  - auto.
Qed.

Section InverseOrder.

Variable formatSymbol : string -> string.
Variable sym : string.
Variable before : list PositionSession.t.

Lemma settledBefore_incl l l' s :
  incl l' l -> settledBefore sym l s -> settledBefore sym l' s.
Proof.
  intros Hincl H Hs. specialize (H Hs). rewrite Forall_forall in *.
  intros e He. apply H, Hincl, He.
Qed.

(** What a call of [closeSession] does to the order of the output. *)
Lemma closeSession_ordered s endTime endPosition out pending after :
  BitMEX.sessionExecutions s = pending ->
  (forall t0, BitMEX.sessionStartTime s = Some t0 ->
     exists first more, pending = first :: more /\ BitMEX.timestamp first = t0) ->
  Forall (fun exec => (endTime <= BitMEX.timestamp exec)%Z) after ->
  ForallOrdPairs precedes (allSessions out) ->
  Forall (settledBefore sym (pending ++ after)) (allSessions out) ->
  Forall (fun s' => In s' before \/ PositionSession.symbol s' = sym) (allSessions out) ->
  let out' := BitMEX.closeSession formatSymbol sym s endTime endPosition out in
  ForallOrdPairs precedes (allSessions out')
  /\ Forall (settledBefore sym after) (allSessions out')
  /\ Forall (fun s' => In s' before \/ PositionSession.symbol s' = sym) (allSessions out').
Proof.
  intros Hpending Hstart Hafter Hord Hsettled Hfrom out'. subst out'.
  assert (Hsettled' : Forall (settledBefore sym after) (allSessions out)).
  { eapply Forall_impl; [|exact Hsettled]. intros s'.
    apply settledBefore_incl. intros e He. apply in_or_app. now right. }
  destruct (BitMEX_closeSession_cases formatSymbol sym s endTime endPosition out)
    as [-> | (start & Es & _ & ->)]; [now repeat split|].
  cbn [allSessions].
  destruct (Hstart start Es) as (first & more & Ep & Et).
  split; [|split].
  - apply ForallOrdPairs_snoc; [exact Hord|].
    eapply Forall_impl; [|exact Hsettled]. intros s' Hs' Hsym.
    cbn [BitMEX.buildSession PositionSession.symbol PositionSession.openTime] in *.
    specialize (Hs' Hsym). rewrite Ep in Hs'. inversion Hs' as [|? ? Hfirst _]; subst.
    exact Hfirst.
  - apply Forall_app. split; [exact Hsettled'|].
    constructor; [|constructor]. intros _.
    eapply Forall_impl; [|exact Hafter]. intros e He.
    unfold endTimeOf, BitMEX.buildSession.
    cbn [PositionSession.openTime PositionSession.durationMs]. cbv beta in He. lia.
  - apply Forall_app. split; [exact Hfrom|].
    constructor; [now right | constructor].
Qed.

Lemma pending_start st exec rest s :
  timeFrameTracked (BitMEX.runningPosition st) (BitMEX.session st) (exec :: rest) ->
  BitMEX.sessionExecutions s = BitMEX.sessionExecutions (BitMEX.session st) ++ [exec] ->
  BitMEX.sessionStartTime s = BitMEX.sessionStartTime (BitMEX.session st) ->
  forall t0, BitMEX.sessionStartTime s = Some t0 ->
    exists first more,
      BitMEX.sessionExecutions (BitMEX.session st) ++ [exec] = first :: more
      /\ BitMEX.timestamp first = t0.
Proof.
  intros Hinv Hexecs Hsame t0 Ht0.
  destruct (pushed_frame st exec rest s Hinv Hexecs Hsame t0 Ht0)
    as (first & more & E & Hfirst & _).
  exists first, more. rewrite <- Hexecs. now split.
Qed.

Lemma order_step st exec rest :
  0 < BitMEX.lastQty exec ->
  orderTracked sym before st (exec :: rest) ->
  Forall inverseTimeFrame (allSessions (BitMEX.output st)) ->
  let st' := BitMEX.processExecution formatSymbol sym st exec in
  orderTracked sym before st' rest
  /\ Forall inverseTimeFrame (allSessions (BitMEX.output st')).
Proof.
  intros Hq (Hframe & Hord & Hsettled & Hfrom) Hout st'.
  destruct (timeFrame_step formatSymbol sym st exec rest Hq Hframe Hout)
    as [Hframe' Hout'].
  fold st' in Hframe', Hout'. split; [|exact Hout'].
  unfold orderTracked. split; [exact Hframe'|]. clear Hframe' Hout'.
  pose proof Hframe as (Hsorted & _ & _).
  assert (Hlater : Forall (fun e => (BitMEX.timestamp exec <= BitMEX.timestamp e)%Z)
                     (exec :: rest)).
  { apply StronglySorted_app_inv in Hsorted as [_ H].
    inversion H as [|? ? _ Ha]; subst. constructor; [lia | exact Ha]. }
  assert (Hsettled2 : Forall (settledBefore sym
                                ((BitMEX.sessionExecutions (BitMEX.session st) ++ [exec])
                                 ++ exec :: rest))
                        (allSessions (BitMEX.output st))).
  { eapply Forall_impl; [|exact Hsettled]. intros s'. apply settledBefore_incl.
    intros e He. apply in_app_or in He as [He | He]; [|apply in_or_app; now right].
    apply in_app_or in He as [He | [<- | []]]; apply in_or_app;
      [now left | right; now left]. }
  subst st'.
  destruct (processExecution_cases formatSymbol sym st exec Hq)
    as [(Hz & Hpb & ->) | [(Hf & Hpb & Hnz & Hsign & ->) | (Hnf & Hnz & ->)]];
    cbn [BitMEX.runningPosition BitMEX.session BitMEX.output].
  - destruct (closeSession_ordered (pushed st exec) (BitMEX.timestamp exec) 0
                (BitMEX.output st)
                (BitMEX.sessionExecutions (BitMEX.session st) ++ [exec]) (exec :: rest)
                eq_refl) as (H1 & H2 & H3); try assumption.
    { now apply (pending_start st exec rest). }
    split; [exact H1|]. split; [|exact H3].
    eapply Forall_impl; [|exact H2]. intros s'. apply settledBefore_incl.
    intros e He. now right.
  - destruct (closeSession_ordered (adjustedForFlip (pushed st exec) exec
                                      (nextPosition (BitMEX.runningPosition st) exec))
                (BitMEX.timestamp exec) 0 (BitMEX.output st)
                (BitMEX.sessionExecutions (BitMEX.session st) ++ [exec]) (exec :: rest)
                eq_refl) as (H1 & H2 & H3); try assumption.
    { now apply (pending_start st exec rest). }
    split; [exact H1|]. split; [exact H2 | exact H3].
  - split; [exact Hord|]. split; [|exact Hfrom].
    assert (E : BitMEX.sessionExecutions
                  (if Qeqb (BitMEX.runningPosition st) 0
                   then withStart (pushed st exec) (BitMEX.timestamp exec)
                   else pushed st exec)
                = BitMEX.sessionExecutions (BitMEX.session st) ++ [exec])
      by now destruct (Qeqb (BitMEX.runningPosition st) 0).
    rewrite E, <- app_assoc. exact Hsettled.
Qed.

Lemma order_run l : forall st,
  positiveQuantities l ->
  orderTracked sym before st l ->
  Forall inverseTimeFrame (allSessions (BitMEX.output st)) ->
  let out' := finishSymbol formatSymbol sym
                (fold_left (BitMEX.processExecution formatSymbol sym) l st) in
  ForallOrdPairs precedes (allSessions out')
  /\ Forall (fun s => In s before \/ PositionSession.symbol s = sym) (allSessions out')
  /\ Forall inverseTimeFrame (allSessions out').
Proof.
  induction l as [|exec l IH]; intros st Hqty Hinv Hout; cbn [fold_left].
  - cbv zeta. destruct Hinv as (Hframe & Hord & Hsettled & Hfrom).
    split; [|split]; [| |now apply timeFrame_finish].
    + unfold finishSymbol. destruct (_ && _); [|exact Hord].
      rewrite app_nil_r in Hsettled.
      destruct (closeSession_ordered (BitMEX.session st)
                  (BitMEX.timestamp
                     (last (BitMEX.sessionExecutions (BitMEX.session st))
                        (BitMEX.mkExec "" "" "" "" 0 0 0 0 0 "")))
                  (BitMEX.runningPosition st) (BitMEX.output st)
                  (BitMEX.sessionExecutions (BitMEX.session st)) [] eq_refl)
        as (H1 & _ & _); try assumption; [|constructor|now rewrite app_nil_r].
      destruct Hframe as (_ & _ & Hstart). intros t0 Et. now rewrite Et in Hstart.
    + unfold finishSymbol. destruct (_ && _); [|exact Hfrom].
      rewrite app_nil_r in Hsettled.
      destruct (closeSession_ordered (BitMEX.session st)
                  (BitMEX.timestamp
                     (last (BitMEX.sessionExecutions (BitMEX.session st))
                        (BitMEX.mkExec "" "" "" "" 0 0 0 0 0 "")))
                  (BitMEX.runningPosition st) (BitMEX.output st)
                  (BitMEX.sessionExecutions (BitMEX.session st)) [] eq_refl)
        as (_ & _ & H3); try assumption; [|constructor|now rewrite app_nil_r].
      destruct Hframe as (_ & _ & Hstart). intros t0 Et. now rewrite Et in Hstart.
  - inversion Hqty as [|? ? Hq Hl]; subst.
    destruct (order_step st exec l Hq Hinv Hout) as [Hinv' Hout'].
    now apply IH.
Qed.

End InverseOrder.

Lemma processSymbol_ordered formatSymbol out sym l :
  positiveQuantities l ->
  ForallOrdPairs precedes (allSessions out) ->
  Forall (fun s => PositionSession.symbol s <> sym) (allSessions out) ->
  Forall inverseTimeFrame (allSessions out) ->
  let out' := BitMEX.processSymbol formatSymbol out (sym, l) in
  ForallOrdPairs precedes (allSessions out')
  /\ Forall (fun s => In s (allSessions out) \/ PositionSession.symbol s = sym)
       (allSessions out')
  /\ Forall inverseTimeFrame (allSessions out').
Proof.
  intros Hqty Hord Hother Hout out'. subst out'. rewrite processSymbol_finish.
  apply order_run; [now apply sortBy_Forall| |exact Hout].
  unfold orderTracked, initialSymbolState.
  cbn [BitMEX.runningPosition BitMEX.session BitMEX.output BitMEX.resetSession
       BitMEX.sessionExecutions app].
  split; [|split; [exact Hord|split]].
  - split; [apply byTimestamp_chronological|]. split; [reflexivity | exact I].
  - eapply Forall_impl; [|exact Hother]. intros s Hs Hsym. contradiction.
  - apply Forall_forall. intros s Hs. now left.
Qed.

Lemma fold_ordered formatSymbol entries : forall out,
  NoDup (map fst entries) ->
  Forall (fun entry => positiveQuantities (snd entry)) entries ->
  ForallOrdPairs precedes (allSessions out) ->
  Forall (fun s => ~ In (PositionSession.symbol s) (map fst entries)) (allSessions out) ->
  Forall inverseTimeFrame (allSessions out) ->
  ForallOrdPairs precedes
    (allSessions (fold_left (BitMEX.processSymbol formatSymbol) entries out)).
Proof.
  induction entries as [|[sym l] entries IH]; intros out Hnd Hqty Hord Hfresh Hout;
    cbn [fold_left].
  - exact Hord.
  - cbn [map fst] in Hnd, Hfresh. inversion Hnd as [|? ? Hsym Hnd']; subst.
    inversion Hqty as [|? ? Hl Hqty']; subst. cbn [snd] in Hl.
    destruct (processSymbol_ordered formatSymbol out sym l Hl Hord) as (H1 & H2 & H3).
    + eapply Forall_impl; [|exact Hfresh]. intros s Hs E. apply Hs. now left.
    + exact Hout.
    + apply IH; try assumption.
      rewrite Forall_forall in *. intros s Hs Hin.
      destruct (H2 s Hs) as [Hold | E].
      * apply (Hfresh s Hold). now right.
      * apply Hsym. now rewrite <- E.
Qed.

(** X15: two sessions of one symbol in the output of the inverse-contract
    calculator never overlap in time: one of them has ended (open time plus
    duration) by the time the other opens. *)
Theorem X15_inverse_sessions_do_not_overlap : forall formatSymbol executions,
  ForallOrdPairs apartInTime
    (BitMEX.calculateBitMEXPositionSessions formatSymbol executions).
Proof.
  intros formatSymbol executions.
  unfold BitMEX.calculateBitMEXPositionSessions.
  apply ForallOrdPairs_perm
    with (l := allSessions
                 (fold_left (BitMEX.processSymbol formatSymbol)
                    (BitMEX.executionsBySymbol executions)
                    {| allSessions := []; globalSessionId := 0 |})).
  - intros a b H E. symmetry in E. destruct (H E) as [H1 | H1]; [now right | now left].
  - symmetry. apply sortBy_perm.
  - apply ForallOrdPairs_impl with (R := precedes).
    + intros a b H E. left. now apply H.
    + destruct (groupBy_partition Execution.symbol BitMEX.ofExecution
                  (BitMEX.tradeExecutions executions)) as (Hnd & _ & _).
      apply fold_ordered; [exact Hnd | apply groups_positive | constructor
                           | constructor | constructor].
Qed.

(** ** Reading back the annotation of the OKX exporter *)

Lemma word_not_separator (c : ascii) : isWordChar c = true -> isColonOrSpace c = false.
Proof.
  destruct c as [[] [] [] [] [] [] [] []]; vm_compute; congruence.
Qed.

Lemma takeWhile_word (w tail : string) :
  allWord w = true ->
  takeWhile isWordChar (String.append w (String "|" tail)) = w.
Proof.
  induction w as [|c w IH]; intros Hw.
  - reflexivity.
  - cbn [allWord] in Hw. apply andb_true_iff in Hw as [Hc Hw].
    cbn [String.append takeWhile]. rewrite Hc. now rewrite IH.
Qed.

Lemma firstMatch_head {A : Type} (m : string -> option A) (s : string) (r : A) :
  m s = Some r -> firstMatch m s = Some r.
Proof. intros H. destruct s; cbn [firstMatch]; now rewrite H. Qed.

Lemma matchPositionSideAt_okx (posSide execType : string) :
  posSide <> EmptyString ->
  allWord posSide = true ->
  matchPositionSideAt (okxFillText posSide execType) = Some posSide.
Proof.
  intros Hne Hw. destruct posSide as [|c w]; [now elim Hne|].
  pose proof Hw as Hw'. cbn [allWord] in Hw'. apply andb_true_iff in Hw' as [Hc _].
  unfold okxFillText, matchPositionSideAt.
  change (String.append "posSide:" ?x)
    with (String "p" (String "o" (String "s" (String "S" (String "i" (String "d"
            (String "e" (String ":" x)))))))).
  change (String.append "|execType:" execType) with (String "|" (String.append "execType:" execType)).
  change (stripPrefixCI "positionside" (String "p" (String "o" (String "s" (String "S" ?r)))))
    with (@None string).
  change (stripPrefixCI "posside"
            (String "p" (String "o" (String "s" (String "S" (String "i" (String "d"
               (String "e" ?r))))))))
    with (Some r).
  cbn [dropWhile String.append].
  change (isColonOrSpace ":") with true. cbv iota.
  rewrite (word_not_separator c Hc).
  change (String c (String.append w ?t)) with (String.append (String c w) t).
  rewrite (takeWhile_word (String c w) _ Hw). reflexivity.
Qed.

(** X16: the annotation the OKX exporter gives a fill is read back by the
    position-side parser: for a position side made of word characters the
    parser returns the side in upper case if that is LONG or SHORT, and BOTH
    otherwise, whatever the execution type in the annotation. *)
Theorem X16_okx_annotation_is_read_back : forall posSide execType,
  posSide <> EmptyString ->
  allWord posSide = true ->
  parsePositionSideFromText (okxFillText posSide execType) = positionSideOfTag posSide.
Proof.
  intros posSide execType Hne Hw.
  unfold parsePositionSideFromText.
  rewrite (firstMatch_head _ _ _ (matchPositionSideAt_okx posSide execType Hne Hw)).
  reflexivity.
Qed.

(** X16, witness: the three position sides of OKX. *)
Lemma X16_okx_long_short_net :
  ("long" <> EmptyString /\ allWord "long" = true)
  /\ parsePositionSideFromText (okxFillText "long" "T") = "LONG"
  /\ parsePositionSideFromText (okxFillText "short" "T") = "SHORT"
  /\ parsePositionSideFromText (okxFillText "net" "T") = "BOTH".
Proof.
  split; [split; [discriminate | reflexivity]|].
  split; [|split].
  - rewrite (X16_okx_annotation_is_read_back "long" "T"); [reflexivity | discriminate | reflexivity].
  - reflexivity.
  - reflexivity.
Defined.

(** ** The sessions of a hedge-mode book come one after another *)

Section HedgeOrder.

Variable formatSymbol : string -> string.
Variable symbol_ positionSide_ : string.
Variable before : list PositionSession.t.










End HedgeOrder.




(** *** Different keys are different books *)








(** ** The contract of the entry point *)

Lemma inverseTimeFrame_weaken (s : PositionSession.t) :
  inverseTimeFrame s -> hedgeTimeFrame s.
Proof.
  intros (t0 & ts & Htrades & Hsorted & Hcount & Hopen & Hdur & Hpos & Hclose).
  assert (Hend : (PositionSession.openTime s + PositionSession.durationMs s)%Z
                 = last ts t0) by lia.
  exists t0, ts. split; [exact Htrades|]. split; [exact Hsorted|].
  split; [exact Hcount|]. split; [left; now symmetry|]. split; [exact Hpos|]. split.
  - rewrite Hend, <- last_cons_default with (d := t0).
    destruct (exists_last (l := t0 :: ts)) as (l' & a & E); [discriminate|].
    rewrite E, last_last. apply in_or_app. right. now left.
  - destruct (PositionSession.status s); [|exact Hclose].
    rewrite Hclose. now f_equal.
Qed.

Lemma inverse_ledgerKept formatSymbol sym gid s start endTime endPosition :
  ledgerKept (BitMEX.buildSession formatSymbol sym gid s start endTime endPosition).
Proof.
  unfold ledgerKept, BitMEX.buildSession.
  cbn [PositionSession.netPnl PositionSession.realizedPnl PositionSession.totalFees
       PositionSession.status PositionSession.avgExitPrice].
  split; [|split; [apply fees_nonneg|]];
    destruct (Qeqb endPosition 0); try ring; try exact I; now split.
Qed.

Lemma hedge_ledgerKept formatSymbol symbol_ positionSide_ gid orders start endTime :
  ledgerKept
    (Binance.buildSession formatSymbol symbol_ positionSide_ gid orders start endTime).
Proof.
  unfold ledgerKept, Binance.buildSession.
  cbn [PositionSession.netPnl PositionSession.realizedPnl PositionSession.totalFees
       PositionSession.status PositionSession.avgExitPrice].
  split; [|split; [apply fees_nonneg|]];
    destruct (isBinancePositionClosed _); try ring; try exact I; now split.
Qed.

Lemma inverse_contract formatSymbol executions :
  outputContract (BitMEX.calculateBitMEXPositionSessions formatSymbol executions).
Proof.
  split; [apply newestFirst_sorted|]. split.
  - apply sorted_ids_NoDup, inverse_fold_numbered, numbered_empty.
  - apply Forall_and.
    + eapply Forall_impl; [exact inverseTimeFrame_weaken|].
      apply inverse_lift with (Inv := fun _ => timeFrameTracked).
      * intros sym l _ Hsorted _. split; [exact Hsorted|]. split; [reflexivity | exact I].
      * intros sym st exec rest. apply timeFrame_step.
      * intros sym st. apply timeFrame_finish.
    + apply BitMEX_sessions_Forall. intros. apply inverse_ledgerKept.
Qed.

Lemma hedge_contract formatSymbol executions :
  outputContract (Binance.calculateBinancePositionSessions formatSymbol executions).
Proof.
  split; [apply newestFirst_sorted|]. split.
  - apply sorted_ids_NoDup, hedge_fold_numbered, numbered_empty.
  - apply Forall_and.
    + apply hedge_lift. intros symbol_ positionSide_ gid first more Hsorted Hsum _.
      now apply built_hedgeTimeFrame.
    + apply Binance_sessions_Forall. intros. apply hedge_ledgerKept.
Qed.

(** X18: whatever the hint and the symbols, the sessions the entry point
    returns come newest first, no two of them share an identifier, and each
    has at least one trade, its trades in ascending order of time, a trade
    count equal to their number, an open time that is the time of one of its
    trades, a duration that is not negative and ends at the time of one of
    its trades, a close time at the end of the duration when it is closed and
    none when it is open, a net profit equal to the realized profit less the
    fees, fees that are not negative and, when it is open, no realized profit
    and no exit price. *)
Theorem X18_entry_point_contract :
  forall formatSymbol isBinanceSymbol executions exchangeId,
  outputContract
    (calculatePositionSessionsFromExecutions formatSymbol isBinanceSymbol executions
       exchangeId).
Proof.
  intros formatSymbol isBinanceSymbol executions exchangeId.
  unfold calculatePositionSessionsFromExecutions.
  destruct executions as [|first rest].
  - split; [constructor|]. split; constructor.
  - cbv zeta. destruct (_ || _); [apply hedge_contract | apply inverse_contract].
Qed.

(** ** The execution that triggers a flip *)

Lemma extends_refl out : extends out out.
Proof. exists []. now rewrite app_nil_r. Qed.

Lemma extends_trans out1 out2 out3 :
  extends out1 out2 -> extends out2 out3 -> extends out1 out3.
Proof.
  intros [p1 E1] [p2 E2]. exists (p1 ++ p2). now rewrite E2, E1, app_assoc.
Qed.

Section InverseFlip.

Variable formatSymbol : string -> string.

Lemma closeSession_extends sym s endTime endPosition out :
  extends out (BitMEX.closeSession formatSymbol sym s endTime endPosition out).
Proof.
  destruct (BitMEX_closeSession_cases formatSymbol sym s endTime endPosition out)
    as [-> | (start & _ & _ & ->)]; [apply extends_refl|].
  eexists. reflexivity.
Qed.

Lemma closeSession_pushes sym s endTime endPosition out :
  BitMEX.sessionExecutions s <> [] ->
  BitMEX.sessionStartTime s <> None ->
  exists start,
    BitMEX.sessionStartTime s = Some start
    /\ allSessions (BitMEX.closeSession formatSymbol sym s endTime endPosition out)
       = allSessions out
         ++ [BitMEX.buildSession formatSymbol sym (globalSessionId out) s start endTime
               endPosition].
Proof.
  intros Hexecs Hstart. unfold BitMEX.closeSession.
  destruct (BitMEX.sessionExecutions s) as [|e l]; [contradiction|].
  destruct (BitMEX.sessionStartTime s) as [start|]; [|contradiction].
  exists start. split; reflexivity.
Qed.

Lemma processExecution_extends sym st exec :
  extends (BitMEX.output st)
    (BitMEX.output (BitMEX.processExecution formatSymbol sym st exec)).
Proof.
  unfold BitMEX.processExecution.
  destruct (Qneb (BitMEX.runningPosition st) 0 && Qeqb _ 0);
    destruct (_ && _ || _ && _); cbn [BitMEX.output];
    repeat first [apply extends_refl
                 | eapply extends_trans; [|apply closeSession_extends]].
Qed.

Lemma finishSymbol_extends sym st : extends (BitMEX.output st) (finishSymbol formatSymbol sym st).
Proof.
  unfold finishSymbol. destruct (_ && _); [apply closeSession_extends | apply extends_refl].
Qed.

Lemma run_extends sym l : forall st,
  extends (BitMEX.output st)
    (finishSymbol formatSymbol sym
       (fold_left (BitMEX.processExecution formatSymbol sym) l st)).
Proof.
  induction l as [|exec l IH]; intros st; cbn [fold_left].
  - apply finishSymbol_extends.
  - eapply extends_trans; [apply processExecution_extends | apply IH].
Qed.

(** A session that is pending at a position other than 0 is the next one the
    symbol emits, with its start time and its first execution. *)
Lemma pending_is_emitted sym l : forall st first more,
  positiveQuantities l ->
  ~ BitMEX.runningPosition st == 0 ->
  BitMEX.sessionExecutions (BitMEX.session st) = first :: more ->
  BitMEX.sessionStartTime (BitMEX.session st) = Some (BitMEX.timestamp first) ->
  exists s post,
    allSessions (finishSymbol formatSymbol sym
                   (fold_left (BitMEX.processExecution formatSymbol sym) l st))
    = allSessions (BitMEX.output st) ++ s :: post
    /\ openedBy formatSymbol first s.
Proof.
  induction l as [|exec l IH]; intros st first more Hqty Hpos Hexecs Hstart;
    cbn [fold_left].
  - unfold finishSymbol. apply Qeqb_false in Hpos as Epos.
    unfold Qneb. fold (Qeqb (BitMEX.runningPosition st) 0). rewrite Epos, Hexecs.
    cbn [negb List.length Nat.eqb andb]. unfold BitMEX.closeSession.
    rewrite Hexecs, Hstart. cbn [allSessions].
    eexists. exists []. split; [reflexivity|].
    split; [reflexivity|]. cbn [BitMEX.buildSession PositionSession.trades].
    rewrite Hexecs. eexists. reflexivity.
  - inversion Hqty as [|? ? Hq Hl]; subst.
    assert (Hpushed : BitMEX.sessionExecutions (pushed st exec) = first :: (more ++ [exec])).
    { unfold pushed. cbn [BitMEX.sessionExecutions]. now rewrite Hexecs. }
    assert (Hkept : BitMEX.sessionStartTime (pushed st exec)
                    = Some (BitMEX.timestamp first)) by exact Hstart.
    destruct (processExecution_cases formatSymbol sym st exec Hq)
      as [(Hz & Hpb & ->) | [(Hf & Hpb & Hnz & Hsign & ->) | (Hnf & Hnz & ->)]].
    + destruct (run_extends sym l
                  (BitMEX.mkState (nextPosition (BitMEX.runningPosition st) exec)
                     BitMEX.resetSession
                     (BitMEX.closeSession formatSymbol sym (pushed st exec)
                        (BitMEX.timestamp exec) 0 (BitMEX.output st)))) as [post ->].
      cbn [BitMEX.output]. unfold BitMEX.closeSession at 1.
      rewrite Hpushed, Hkept. cbn [allSessions]. rewrite <- app_assoc. cbn [app].
      eexists. exists post. split; [reflexivity|].
      split; [reflexivity|]. cbn [BitMEX.buildSession PositionSession.trades].
      rewrite Hpushed. eexists. reflexivity.
    + destruct (run_extends sym l
                  (BitMEX.mkState (nextPosition (BitMEX.runningPosition st) exec)
                     (seededByFlip exec (nextPosition (BitMEX.runningPosition st) exec))
                     (BitMEX.closeSession formatSymbol sym
                        (adjustedForFlip (pushed st exec) exec
                           (nextPosition (BitMEX.runningPosition st) exec))
                        (BitMEX.timestamp exec) 0 (BitMEX.output st)))) as [post ->].
      cbn [BitMEX.output]. unfold BitMEX.closeSession at 1.
      change (BitMEX.sessionExecutions (adjustedForFlip (pushed st exec) exec _))
        with (BitMEX.sessionExecutions (pushed st exec)).
      change (BitMEX.sessionStartTime (adjustedForFlip (pushed st exec) exec _))
        with (BitMEX.sessionStartTime (pushed st exec)).
      rewrite Hpushed, Hkept. cbn [allSessions]. rewrite <- app_assoc. cbn [app].
      eexists. exists post. split; [reflexivity|].
      split; [reflexivity|]. cbn [BitMEX.buildSession PositionSession.trades].
      change (BitMEX.sessionExecutions (adjustedForFlip (pushed st exec) exec _))
        with (BitMEX.sessionExecutions (pushed st exec)).
      rewrite Hpushed. eexists. reflexivity.
    + apply Qeqb_false in Hpos as Epos. rewrite Epos.
      apply (IH (BitMEX.mkState (nextPosition (BitMEX.runningPosition st) exec)
                   (pushed st exec) (BitMEX.output st)) first (more ++ [exec]));
        [exact Hl | exact Hnz | exact Hpushed | exact Hkept].
Qed.

(** The execution that triggers a flip is the last trade of the session it
    closes and the first trade of the next session the symbol emits. *)
Lemma flip_emits_both sym l : forall st exec,
  positiveQuantities l ->
  positionTracked (BitMEX.runningPosition st) (BitMEX.session st) ->
  In exec (flipTriggers (BitMEX.runningPosition st) l) ->
  exists pre s1 s2 post,
    allSessions (finishSymbol formatSymbol sym
                   (fold_left (BitMEX.processExecution formatSymbol sym) l st))
    = pre ++ s1 :: s2 :: post
    /\ closedBy formatSymbol exec s1
    /\ openedBy formatSymbol exec s2.
Proof.
  induction l as [|e l IH]; intros st exec Hqty Hinv Hin; cbn [fold_left flipTriggers] in *;
    [contradiction|].
  inversion Hqty as [|? ? Hq Hl]; subst.
  pose proof (positionTracked_step formatSymbol sym st e Hq Hinv) as Hinv'.
  cbv zeta in Hinv'.
  fold (nextPosition (BitMEX.runningPosition st) e) in Hin.
  assert (Hlater : In exec (flipTriggers (nextPosition (BitMEX.runningPosition st) e) l) ->
                   exists pre s1 s2 post,
                     allSessions
                       (finishSymbol formatSymbol sym
                          (fold_left (BitMEX.processExecution formatSymbol sym) l
                             (BitMEX.processExecution formatSymbol sym st e)))
                     = pre ++ s1 :: s2 :: post
                     /\ closedBy formatSymbol exec s1
                     /\ openedBy formatSymbol exec s2).
  { intros H. apply IH; [exact Hl | exact Hinv' |].
    rewrite (processExecution_position formatSymbol). exact H. }
  destruct (isFlip (BitMEX.runningPosition st)
              (nextPosition (BitMEX.runningPosition st) e)) eqn:Eflip;
    [|now apply Hlater].
  destruct Hin as [<- | Hin]; [|now apply Hlater].
  clear Hlater IH.
  destruct (processExecution_cases formatSymbol sym st e Hq)
    as [(Hz & Hpb & E) | [(Hf & Hpb & Hnz & Hsign & E) | (Hnf & Hnz & E)]].
  - apply isFlip_nonzero in Eflip as [_ Hnz]. contradiction.
  - rewrite E.
    destruct (pushed_ready st e Hinv Hpb) as (Hexecs & Hstart & _).
    destruct (closeSession_pushes sym
                (adjustedForFlip (pushed st e) e
                   (nextPosition (BitMEX.runningPosition st) e))
                (BitMEX.timestamp e) 0 (BitMEX.output st) Hexecs Hstart)
      as (start & _ & Eclose).
    destruct (pending_is_emitted sym l
                (BitMEX.mkState (nextPosition (BitMEX.runningPosition st) e)
                   (seededByFlip e (nextPosition (BitMEX.runningPosition st) e))
                   (BitMEX.closeSession formatSymbol sym
                      (adjustedForFlip (pushed st e) e
                         (nextPosition (BitMEX.runningPosition st) e))
                      (BitMEX.timestamp e) 0 (BitMEX.output st)))
                e [] Hl Hnz eq_refl eq_refl) as (s2 & post & Erun & Hopened).
    cbn [BitMEX.output] in Erun. rewrite Eclose, <- app_assoc in Erun. cbn [app] in Erun.
    eexists. eexists. exists s2, post. split; [exact Erun|]. split; [|exact Hopened].
    split; [reflexivity|]. split; [reflexivity|].
    cbn [BitMEX.buildSession PositionSession.trades adjustedForFlip pushed
         BitMEX.sessionExecutions].
    rewrite map_app. cbn [map].
    exists (map (BitMEX.toTrade formatSymbol)
              (BitMEX.sessionExecutions (BitMEX.session st))).
    split; [|reflexivity].
    destruct Hinv as (_ & Hpending & _). destruct (Hpending Hpb) as (Hne & _).
    destruct (BitMEX.sessionExecutions (BitMEX.session st)); [contradiction | discriminate].
  - congruence.
Qed.

Lemma processSymbol_extends out entry :
  extends out (BitMEX.processSymbol formatSymbol out entry).
Proof.
  destruct entry as [sym l]. rewrite processSymbol_finish.
  apply (run_extends sym (sortBy BitMEX.byTimestamp l) (initialSymbolState out)).
Qed.

Lemma fold_extends entries : forall out,
  extends out (fold_left (BitMEX.processSymbol formatSymbol) entries out).
Proof.
  induction entries as [|entry entries IH]; intros out; cbn [fold_left].
  - apply extends_refl.
  - eapply extends_trans; [apply processSymbol_extends | apply IH].
Qed.

Lemma fold_emits_both entries : forall out entry exec,
  Forall (fun entry => positiveQuantities (snd entry)) entries ->
  In entry entries ->
  In exec (flipTriggers 0 (sortBy BitMEX.byTimestamp (snd entry))) ->
  exists pre s1 s2 post,
    allSessions (fold_left (BitMEX.processSymbol formatSymbol) entries out)
    = pre ++ s1 :: s2 :: post
    /\ closedBy formatSymbol exec s1
    /\ openedBy formatSymbol exec s2.
Proof.
  induction entries as [|[sym l] entries IH]; intros out entry exec Hpos Hentry Hexec;
    cbn [fold_left]; [contradiction|].
  inversion Hpos as [|? ? Hl Hrest]; subst. cbn [snd] in Hl.
  destruct Hentry as [<- | Hentry]; [|now apply IH with (entry := entry)].
  cbn [snd] in Hexec.
  destruct (flip_emits_both sym (sortBy BitMEX.byTimestamp l) (initialSymbolState out) exec)
    as (pre & s1 & s2 & post & E & H1 & H2).
  - now apply sortBy_Forall.
  - apply positionTracked_initial.
  - exact Hexec.
  - destruct (fold_extends entries (BitMEX.processSymbol formatSymbol out (sym, l)))
      as [post' ->].
    rewrite processSymbol_finish, E, <- app_assoc. cbn [app].
    exists pre, s1, s2, (post ++ post'). split; [reflexivity|]. split; assumption.
Qed.

Lemma inverse_listedTwice executions entry exec :
  In entry (BitMEX.executionsBySymbol executions) ->
  In exec (flipTriggers 0 (sortBy BitMEX.byTimestamp (snd entry))) ->
  listedTwice formatSymbol exec
    (BitMEX.calculateBitMEXPositionSessions formatSymbol executions).
Proof.
  intros Hentry Hexec.
  destruct (fold_emits_both (BitMEX.executionsBySymbol executions) emptyOutput entry exec
              (groups_positive executions) Hentry Hexec)
    as (pre & s1 & s2 & post & E & H1 & H2).
  pose proof (numbered_NoDup _
                (inverse_fold_numbered formatSymbol (BitMEX.executionsBySymbol executions)
                   emptyOutput numbered_empty)) as Hnd.
  fold emptyOutput in E. rewrite E in Hnd.
  assert (Hin : forall s, In s (pre ++ s1 :: s2 :: post) ->
                  In s (BitMEX.calculateBitMEXPositionSessions formatSymbol executions)).
  { intros s Hs. unfold BitMEX.calculateBitMEXPositionSessions.
    apply (Permutation_in s (Permutation_sym (sortBy_perm newestFirst _))).
    fold emptyOutput. rewrite E. exact Hs. }
  exists s1, s2. split; [|split; [|split; [|split; assumption]]].
  - apply Hin, in_or_app. right. now left.
  - apply Hin, in_or_app. right. right. now left.
  - rewrite map_app in Hnd. apply NoDup_app_remove_l in Hnd. cbn [map] in Hnd.
    inversion Hnd as [|? ? Hnot _]; subst. intros Heq. apply Hnot. left. now symmetry.
Qed.

End InverseFlip.

(** C2 (as the code has it): an execution identifier occurs in the trades of
    the hedge-mode sessions at most as often as among the filtered
    executions, and in the trades of the inverse-contract sessions at most
    twice as often; the number of sessions that list it is bounded by these
    counts. On executions with whole quantities of at most 2^53 in total
    (where the sums of the source are exact), it occurs in the trades of the
    inverse-contract sessions once for each filtered execution that carries
    it and once more for each of them that triggers a position flip; and the
    execution that triggers a flip is listed by both resulting sessions, as
    the last trade of the session it closes and as the first trade of the
    session it opens, two sessions with different identifiers. *)
Theorem C2_listed_once_and_twice_at_a_flip : forall formatSymbol executions,
  let ids := map Execution.execID (BitMEX.tradeExecutions executions) in
  let hedge := Binance.calculateBinancePositionSessions formatSymbol executions in
  let inverse := BitMEX.calculateBitMEXPositionSessions formatSymbol executions in
  (forall x, (sessionsContaining x hedge <= occ x (tradeIds hedge) <= occ x ids)%nat)
  /\ (forall x, (sessionsContaining x inverse <= occ x (tradeIds inverse) <= 2 * occ x ids)%nat)
  /\ (wholeQuantities executions ->
      (forall x,
         occ x (tradeIds inverse) = (occ x ids + occ x (flipTriggerIds executions))%nat)
      /\ (forall entry exec,
            In entry (BitMEX.executionsBySymbol executions) ->
            In exec (flipTriggers 0 (sortBy BitMEX.byTimestamp (snd entry))) ->
            listedTwice formatSymbol exec inverse)).
Proof.
  intros formatSymbol executions ids hedge inverse.
  split; [|split].
  - intros x. split; [apply sessionsContaining_le_occ | apply hedge_occ].
  - intros x. split; [apply sessionsContaining_le_occ|].
    pose proof (inverse_occ formatSymbol x executions) as H.
    pose proof (flipTriggerIds_occ x executions) as Hflips.
    subst inverse ids. lia.
  - intros _. split.
    + intros x. apply inverse_multiplicity.
    + intros entry exec. apply inverse_listedTwice.
Qed.

(** C2, witness: in scenario B, whose quantities are 5 and 12, the sale of 12
    triggers the flip. *)
Lemma C2_scenarioB_sale_listed_twice :
  wholeQuantities scenarioB
  /\ listedTwice (fun s => s)
       (BitMEX.ofExecution (tradeExec "b2" "ob2" "XBTUSD" "Sell" 12 110 5 ""))
       (BitMEX.calculateBitMEXPositionSessions (fun s => s) scenarioB).
Proof.
  assert (H : wholeQuantities scenarioB).
  { split; [repeat constructor | vm_compute; discriminate]. }
  split; [exact H|].
  apply (proj2 (proj2 (proj2 (C2_listed_once_and_twice_at_a_flip (fun s => s) scenarioB)) H)
           ("XBTUSD", map BitMEX.ofExecution scenarioB)).
  - left. reflexivity.
  - left. reflexivity.
Defined.
